(** * Email verification engine: a shallow embedding and its properties

    The development embeds the verification engine of the repository
    (backend/verifier1.py, backend/services/verifier_service.py and
    backend/settings/settings.py) as state-passing Rocq functions and
    proves properties of the embedded code.

    Conventions.
    - Time is an integer number of microseconds (the resolution of
      Python's [datetime]); [time.sleep] advances the clock.
    - Python objects that are shared and mutated (verification results and
      their [details] dictionaries) live in two stores, [objs] and [dicts],
      and are passed around by location, so aliasing is explicit.
    - Everything outside the process (DNS, SMTP servers, the Microsoft
      HTTP API, the browser session, the random generator) is a [World]:
      an oracle indexed by the number of external interactions made so
      far, so that a server may answer the same question differently each
      time it is asked.
    - Every external interaction and every history entry is appended to
      the trace [events] (newest first).
    - A raised Python exception is the result [Raise msg s], where [msg]
      is [str(e)] and [s] the state at the time of the raise. *)

From stdpp Require Import gmap strings list fin_maps pretty.
From Stdlib Require Import Ascii ZArith.
Open Scope Z_scope.

(* ===================================================================== *)
(** ** Strings as Python uses them *)
(* ===================================================================== *)

Definition ascii_between (lo hi : nat) (c : ascii) : bool :=
  let n := nat_of_ascii c in (Nat.leb lo n) && (Nat.leb n hi).

Definition is_upper (c : ascii) : bool := ascii_between 65 90 c.
Definition is_lower (c : ascii) : bool := ascii_between 97 122 c.
Definition is_digit (c : ascii) : bool := ascii_between 48 57 c.
Definition is_alpha (c : ascii) : bool := is_upper c || is_lower c.
Definition is_alnum (c : ascii) : bool := is_alpha c || is_digit c.

Fixpoint string_mem (c : ascii) (s : string) : bool :=
  match s with
  | EmptyString => false
  | String x r => Ascii.eqb x c || string_mem c r
  end.

Fixpoint string_forall (p : ascii → bool) (s : string) : bool :=
  match s with
  | EmptyString => true
  | String x r => p x && string_forall p r
  end.

(** [str.split(sep)] for a one-character separator. *)
Fixpoint py_split (sep : ascii) (s : string) : list string :=
  match s with
  | EmptyString => [EmptyString]
  | String x r =>
      if Ascii.eqb x sep then EmptyString :: py_split sep r
      else match py_split sep r with
           | h :: t => String x h :: t
           | [] => [String x EmptyString]
           end
  end.

(** [sub in s] *)
Definition py_in (sub s : string) : bool :=
  match String.index 0 sub s with Some _ => true | None => false end.

Definition ascii_lower (c : ascii) : bool * ascii :=
  (is_upper c, if is_upper c then ascii_of_nat (nat_of_ascii c + 32) else c).

(** [str.lower()] on ASCII letters. *)
Fixpoint py_lower (s : string) : string :=
  match s with
  | EmptyString => EmptyString
  | String x r => String (snd (ascii_lower x)) (py_lower r)
  end.

(** [str.rstrip('.')] *)
Fixpoint py_rstrip_dot (s : string) : string :=
  match s with
  | EmptyString => EmptyString
  | String x r =>
      let r' := py_rstrip_dot r in
      if Ascii.eqb x "."%char && String.eqb r' EmptyString then EmptyString
      else String x r'
  end.

(** Split at the last dot: [rsplit_dot "a.b.cc" = Some ("a.b", "cc")]. *)
Fixpoint rsplit_dot (s : string) : option (string * string) :=
  match s with
  | EmptyString => None
  | String x r =>
      match rsplit_dot r with
      | Some (a, b) => Some (String x a, b)
      | None => if Ascii.eqb x "."%char then Some (EmptyString, r) else None
      end
  end.

Definition nonempty (s : string) : bool :=
  match s with EmptyString => false | _ => true end.

Definition local_char (c : ascii) : bool := is_alnum c || string_mem c "._%+-".
Definition domain_char (c : ascii) : bool := is_alnum c || string_mem c ".-".

(** The pattern [[a-zA-Z0-9._%+-]+@[a-zA-Z0-9.-]+\.[a-zA-Z]{2,}] matched
    against the whole of [s].  No class contains ['@'], so the local part
    ends at the first ['@']; the top-level label has no dot, so it starts
    after the last dot. *)
Definition fullmatch_address (s : string) : bool :=
  match py_split "@"%char s with
  | [loc; rest] =>
      nonempty loc && string_forall local_char loc &&
      match rsplit_dot rest with
      | Some (dom, tld) =>
          nonempty dom && string_forall domain_char dom &&
          Nat.leb 2 (String.length tld) && string_forall is_alpha tld
      | None => false
      end
  | _ => false
  end.

Fixpoint strip_final_newline (s : string) : option string :=
  match s with
  | EmptyString => None
  | String x EmptyString => if Ascii.eqb x "010"%char then Some EmptyString else None
  | String x r => option_map (String x) (strip_final_newline r)
  end.

(** [validate_format]: [re.match(r'^...$', email)].  Without MULTILINE,
    [$] matches at the end of the string and also just before a newline
    that ends the string. *)
Definition validate_format (email : string) : bool :=
  fullmatch_address email ||
  match strip_final_newline email with
  | Some body => fullmatch_address body
  | None => false
  end.

(** [''.join(random.choices(population, k))] from a stream of draws. *)
Definition random_choices (draw : nat → nat) (population : string) (k : nat) : string :=
  fold_right
    (λ i acc,
       match String.get (Nat.modulo (draw i) (String.length population)) population with
       | Some c => String c acc
       | None => acc
       end)
    EmptyString (seq 0 k).

(* ===================================================================== *)
(** ** Data model *)
(* ===================================================================== *)

(** Email categories ([VALID], [INVALID], [RISKY], [CUSTOM]). *)
Inductive Category := VALID | INVALID | RISKY | CUSTOM.

#[global] Instance Category_eq_dec : EqDecision Category.
Proof. solve_decision. Defined.

Definition category_str (c : Category) : string :=
  match c with
  | VALID => "valid" | INVALID => "invalid" | RISKY => "risky" | CUSTOM => "custom"
  end.

(** Values stored in a [details] dictionary. *)
#[warnings="-register-all"]
Inductive DVal :=
  | DStr (s : string)
  | DInt (z : Z)
  | DBool (b : bool)
  | DNone
  | DList (l : list string)
  | DDict (kv : list (string * DVal)).

(** [EmailVerificationResult]; [details] is a reference into [dicts]. *)
Record EmailVerificationResult := {
  email : string;
  category : Category;
  reason : string;
  provider : string;
  details : option nat;
  timestamp : Z
}.

(** The dictionary returned by [verify_smtp]. *)
Record SmtpResult := {
  is_deliverable : bool;
  smtp_check : bool;
  smtp_reason : option string;
  mx_used : option string
}.

Definition dval_of_option (o : option string) : DVal :=
  match o with Some s => DStr s | None => DNone end.

Definition smtp_result_items (r : SmtpResult) : list (string * DVal) :=
  [("is_deliverable", DBool (is_deliverable r));
   ("smtp_check", DBool (smtp_check r));
   ("reason", dval_of_option (smtp_reason r));
   ("mx_used", dval_of_option (mx_used r))].

(** What one SMTP conversation (connect, EHLO, STARTTLS, MAIL FROM,
    RCPT TO, QUIT) with one MX host comes to. *)
Inductive SmtpReply :=
  | RcptReply (code : Z) (message : string)
  | NetTimeout                  (* socket.timeout, ConnectionRefusedError *)
  | SmtpFailure                 (* socket.error, smtplib.SMTPException *)
  | SmtpOtherError (msg : string).  (* any other exception: propagates *)

(** What one POST to [GetCredentialType] comes to. *)
Inductive ApiReply :=
  | ApiConnError (msg : string) (* ConnectionError, Timeout *)
  | ApiResponse (status_code : Z) (IfExistsResult ThrottleStatus : option Z) (body : string)
  | ApiError (msg : string).    (* any other exception, e.g. a body that is not JSON *)

(** What the browser session of [_verify_login] comes to: the page
    analysis yields the fields of a result, or the driver cannot be
    started and the exception leaves [_verify_login]. *)
Inductive BrowserOutcome :=
  | BrowserPage (c : Category) (why prov : string) (info : option (list (string * DVal)))
  | DriverError (msg : string).

Inductive Event :=
  | EvHistory (address event : string)       (* add_to_history *)
  | EvLimitCheck (domain : string) (limited : bool)
  | EvSleep (usec : Z)
  | EvRecord (domain : string)               (* RateLimiter.add_request *)
  | EvDns (domain : string)
  | EvSmtp (mx address : string) (reply : SmtpReply)
  | EvApi (address : string) (reply : ApiReply)
  | EvBrowser (address prov login_url browser : string).

Definition is_probe (e : Event) : bool :=
  match e with
  | EvSmtp _ _ _ | EvApi _ _ | EvBrowser _ _ _ _ | EvDns _ => true
  | _ => false
  end.

(** The external world. *)
Record World := {
  latency : nat → Z;
  dns_resolve : nat → string → option (list string);
  random_draw : nat → nat → nat;
  smtp_session : nat → string → string → SmtpReply;
  api_post : nat → string → ApiReply;
  browser_session : nat → string → string → option string → string → BrowserOutcome;
  uuid4 : nat → string
}.

(** The settings the engine reads, and the engine's construction-time
    tables. *)
Record Settings := {
  catch_all_detection : bool;
  microsoft_api : bool;
  verification_loop_enabled : bool;
  get_browsers : list string;
  get_blacklisted_domains : list string;
  skip_domains : list string;
  provider_login_urls : gmap string string;
  smtp_verifier : bool          (* an SMTP account is configured *)
}.

(** [RateLimiter] *)
Record RateLimiter := {
  max_requests : Z;
  time_window : Z;
  request_history : gmap string (list Z);
  backoff_times : gmap string Z
}.

(** The four files [./data/{Valid,Invalid,Risky,Custom}.csv], as the
    rows below the header. *)
Record DataFiles := {
  Valid_csv : list string;
  Invalid_csv : list string;
  Risky_csv : list string;
  Custom_csv : list string
}.

(** A row of [results/data/<category>_emails.csv]. *)
Record CsvRow := {
  row_email : string;
  row_provider : string;
  row_timestamp : Z;
  row_reason : string;
  row_details : option (gmap string DVal)
}.

(** The dictionary [VerifierService.verify_email] returns; ["details"]
    is the very dictionary of the result object. *)
Record ResultDict := {
  rd_email : string;
  rd_category : string;
  rd_reason : string;
  rd_provider : string;
  rd_details : option nat;
  rd_method : DVal
}.

(** An entry of [verification_tasks]. *)
Record Task := {
  status : string;
  total : Z;
  completed : Z;
  results : gmap string ResultDict;
  start_time : Z;
  end_time : option Z;
  emails : list string;
  method : string
}.

Record State := {
  clock : Z;
  tick : nat;
  events : list Event;
  objs : list EmailVerificationResult;
  dicts : list (gmap string DVal);
  data_files : DataFiles;
  csv_files : list (Category * CsvRow);
  result_cache : gmap string nat;
  mx_cache : gmap string (list string);
  rate_limiter : RateLimiter;
  service_cache : list (string * nat);
  verification_tasks : gmap string Task
}.

Definition usec : Z := 1000000.

(* ===================================================================== *)
(** ** The state-and-exception monad *)
(* ===================================================================== *)

Inductive Res (A : Type) :=
  | Ok (a : A) (s : State)
  | Raise (e : string) (s : State).
Arguments Ok {A} a s.
Arguments Raise {A} e s.

Definition M (A : Type) : Type := State → Res A.

#[global] Instance M_ret : MRet M := λ A a s, Ok a s.
#[global] Instance M_bind : MBind M := λ A B k m s,
  match m s with
  | Ok a s' => k a s'
  | Raise e s' => Raise e s'
  end.

Definition raise {A} (e : string) : M A := λ s, Raise e s.

(** [try: m  except Exception as e: h(str(e))] *)
Definition try_except {A} (m : M A) (h : string → M A) : M A := λ s,
  match m s with
  | Ok a s' => Ok a s'
  | Raise e s' => h e s'
  end.

Definition res_state {A} (r : Res A) : State :=
  match r with Ok _ s | Raise _ s => s end.

Definition gets {A} (f : State → A) : M A := λ s, Ok (f s) s.
Definition modify (f : State → State) : M unit := λ s, Ok tt (f s).

(** Field updates. *)
Definition set_clock (f : Z → Z) (s : State) : State :=
  {| clock := f (clock s); tick := tick s; events := events s; objs := objs s;
     dicts := dicts s; data_files := data_files s; csv_files := csv_files s;
     result_cache := result_cache s; mx_cache := mx_cache s;
     rate_limiter := rate_limiter s; service_cache := service_cache s;
     verification_tasks := verification_tasks s |}.

Definition set_tick (f : nat → nat) (s : State) : State :=
  {| clock := clock s; tick := f (tick s); events := events s; objs := objs s;
     dicts := dicts s; data_files := data_files s; csv_files := csv_files s;
     result_cache := result_cache s; mx_cache := mx_cache s;
     rate_limiter := rate_limiter s; service_cache := service_cache s;
     verification_tasks := verification_tasks s |}.

Definition set_events (f : list Event → list Event) (s : State) : State :=
  {| clock := clock s; tick := tick s; events := f (events s); objs := objs s;
     dicts := dicts s; data_files := data_files s; csv_files := csv_files s;
     result_cache := result_cache s; mx_cache := mx_cache s;
     rate_limiter := rate_limiter s; service_cache := service_cache s;
     verification_tasks := verification_tasks s |}.

Definition set_objs (f : list EmailVerificationResult → list EmailVerificationResult)
    (s : State) : State :=
  {| clock := clock s; tick := tick s; events := events s; objs := f (objs s);
     dicts := dicts s; data_files := data_files s; csv_files := csv_files s;
     result_cache := result_cache s; mx_cache := mx_cache s;
     rate_limiter := rate_limiter s; service_cache := service_cache s;
     verification_tasks := verification_tasks s |}.

Definition set_dicts (f : list (gmap string DVal) → list (gmap string DVal))
    (s : State) : State :=
  {| clock := clock s; tick := tick s; events := events s; objs := objs s;
     dicts := f (dicts s); data_files := data_files s; csv_files := csv_files s;
     result_cache := result_cache s; mx_cache := mx_cache s;
     rate_limiter := rate_limiter s; service_cache := service_cache s;
     verification_tasks := verification_tasks s |}.

Definition set_data_files (f : DataFiles → DataFiles) (s : State) : State :=
  {| clock := clock s; tick := tick s; events := events s; objs := objs s;
     dicts := dicts s; data_files := f (data_files s); csv_files := csv_files s;
     result_cache := result_cache s; mx_cache := mx_cache s;
     rate_limiter := rate_limiter s; service_cache := service_cache s;
     verification_tasks := verification_tasks s |}.

Definition set_csv_files (f : list (Category * CsvRow) → list (Category * CsvRow))
    (s : State) : State :=
  {| clock := clock s; tick := tick s; events := events s; objs := objs s;
     dicts := dicts s; data_files := data_files s; csv_files := f (csv_files s);
     result_cache := result_cache s; mx_cache := mx_cache s;
     rate_limiter := rate_limiter s; service_cache := service_cache s;
     verification_tasks := verification_tasks s |}.

Definition set_result_cache (f : gmap string nat → gmap string nat) (s : State) : State :=
  {| clock := clock s; tick := tick s; events := events s; objs := objs s;
     dicts := dicts s; data_files := data_files s; csv_files := csv_files s;
     result_cache := f (result_cache s); mx_cache := mx_cache s;
     rate_limiter := rate_limiter s; service_cache := service_cache s;
     verification_tasks := verification_tasks s |}.

Definition set_mx_cache (f : gmap string (list string) → gmap string (list string))
    (s : State) : State :=
  {| clock := clock s; tick := tick s; events := events s; objs := objs s;
     dicts := dicts s; data_files := data_files s; csv_files := csv_files s;
     result_cache := result_cache s; mx_cache := f (mx_cache s);
     rate_limiter := rate_limiter s; service_cache := service_cache s;
     verification_tasks := verification_tasks s |}.

Definition set_rate_limiter (f : RateLimiter → RateLimiter) (s : State) : State :=
  {| clock := clock s; tick := tick s; events := events s; objs := objs s;
     dicts := dicts s; data_files := data_files s; csv_files := csv_files s;
     result_cache := result_cache s; mx_cache := mx_cache s;
     rate_limiter := f (rate_limiter s); service_cache := service_cache s;
     verification_tasks := verification_tasks s |}.

Definition set_service_cache (f : list (string * nat) → list (string * nat))
    (s : State) : State :=
  {| clock := clock s; tick := tick s; events := events s; objs := objs s;
     dicts := dicts s; data_files := data_files s; csv_files := csv_files s;
     result_cache := result_cache s; mx_cache := mx_cache s;
     rate_limiter := rate_limiter s; service_cache := f (service_cache s);
     verification_tasks := verification_tasks s |}.

Definition set_verification_tasks (f : gmap string Task → gmap string Task)
    (s : State) : State :=
  {| clock := clock s; tick := tick s; events := events s; objs := objs s;
     dicts := dicts s; data_files := data_files s; csv_files := csv_files s;
     result_cache := result_cache s; mx_cache := mx_cache s;
     rate_limiter := rate_limiter s; service_cache := service_cache s;
     verification_tasks := f (verification_tasks s) |}.

(* ===================================================================== *)
(** ** Primitive operations *)
(* ===================================================================== *)

(** [datetime.now()] *)
Definition datetime_now : M Z := gets clock.

Definition log (e : Event) : M unit := modify (set_events (cons e)).

(** [time.sleep] *)
Definition time_sleep (us : Z) : M unit :=
  modify (λ s, set_events (cons (EvSleep us)) (set_clock (λ c, c + Z.max 0 us) s)).

(** [add_to_history]: the entry goes to the trace. *)
Definition add_to_history (address event : string) : M unit :=
  log (EvHistory address event).

(** The dataclass constructor: the timestamp is the time of construction,
    printed to the second. *)
Definition new_result (e : string) (c : Category) (why prov : string)
    (d : option nat) : M nat := λ s,
  Ok (List.length (objs s))
     (set_objs (λ l, l ++ [{| email := e; category := c; reason := why; provider := prov;
                              details := d; timestamp := clock s `div` usec |}]) s).

(** A dictionary display [{k: v, ...}]. *)
Definition new_dict (items : list (string * DVal)) : M nat := λ s,
  Ok (List.length (dicts s)) (set_dicts (λ l, l ++ [list_to_map items]) s).

Definition no_result : EmailVerificationResult :=
  {| email := ""; category := RISKY; reason := ""; provider := "";
     details := None; timestamp := 0 |}.

(** Reading a result object. *)
Definition deref (l : nat) (s : State) : EmailVerificationResult :=
  default no_result (objs s !! l).

Definition deref_dict (d : nat) (s : State) : gmap string DVal :=
  default ∅ (dicts s !! d).

Definition read (l : nat) : M EmailVerificationResult := gets (deref l).

(** [d[k] = v] on the dictionary at [d]. *)
Definition dict_set (d : nat) (k : string) (v : DVal) : M unit :=
  modify (set_dicts (λ l, alter (insert k v) d l)).

(** [result.details = d] *)
Definition set_details (l : nat) (d : option nat) : M unit :=
  modify (set_objs (alter (λ o,
    {| email := email o; category := category o; reason := reason o;
       provider := provider o; details := d; timestamp := timestamp o |}) l)).

(* ===================================================================== *)
(** ** RateLimiter (verifier1.py) *)
(* ===================================================================== *)

Definition with_request_history (h : gmap string (list Z)) (rl : RateLimiter) : RateLimiter :=
  {| max_requests := max_requests rl; time_window := time_window rl;
     request_history := h; backoff_times := backoff_times rl |}.

Definition with_backoff_times (b : gmap string Z) (rl : RateLimiter) : RateLimiter :=
  {| max_requests := max_requests rl; time_window := time_window rl;
     request_history := request_history rl; backoff_times := b |}.

(** [RateLimiter.is_rate_limited] at the instant [now]. *)
Definition is_rate_limited (now : Z) (domain : string) (rl : RateLimiter)
    : bool * RateLimiter :=
  let in_backoff :=
    match backoff_times rl !! domain with
    | Some until => bool_decide (now < until)
    | None => false
    end in
  if in_backoff then (true, rl)
  else
    (* backoff period expired *)
    let rl := with_backoff_times (delete domain (backoff_times rl)) rl in
    match request_history rl !! domain with
    | None => (false, with_request_history (<[domain := []]> (request_history rl)) rl)
    | Some hist =>
        let recent := filter (λ t, now - t < time_window rl * usec) hist in
        (bool_decide (max_requests rl ≤ Z.of_nat (List.length recent)),
         with_request_history (<[domain := recent]> (request_history rl)) rl)
    end.

(** [RateLimiter.add_request] *)
Definition add_request (now : Z) (domain : string) (rl : RateLimiter) : RateLimiter :=
  let hist := default [] (request_history rl !! domain) in
  with_request_history (<[domain := hist ++ [now]]> (request_history rl)) rl.

(** [RateLimiter.set_backoff] *)
Definition set_backoff (now : Z) (domain : string) (seconds : Z) (rl : RateLimiter)
    : RateLimiter :=
  with_backoff_times (<[domain := now + seconds * usec]> (backoff_times rl)) rl.

(** [RateLimiter.get_backoff_time]: [max(0, int(remaining))], where [int]
    truncates toward zero. *)
Definition get_backoff_time (now : Z) (domain : string) (rl : RateLimiter) : Z :=
  match backoff_times rl !! domain with
  | Some until => Z.max 0 ((until - now) `quot` usec)
  | None => 0
  end.

(* ===================================================================== *)
(** ** Settings: the data files (settings.py) *)
(* ===================================================================== *)

Definition data_file (c : Category) (f : DataFiles) : list string :=
  match c with
  | VALID => Valid_csv f | INVALID => Invalid_csv f
  | RISKY => Risky_csv f | CUSTOM => Custom_csv f
  end.

Definition append_row (c : Category) (e : string) (f : DataFiles) : DataFiles :=
  match c with
  | VALID => {| Valid_csv := Valid_csv f ++ [e]; Invalid_csv := Invalid_csv f;
                Risky_csv := Risky_csv f; Custom_csv := Custom_csv f |}
  | INVALID => {| Valid_csv := Valid_csv f; Invalid_csv := Invalid_csv f ++ [e];
                  Risky_csv := Risky_csv f; Custom_csv := Custom_csv f |}
  | RISKY => {| Valid_csv := Valid_csv f; Invalid_csv := Invalid_csv f;
                Risky_csv := Risky_csv f ++ [e]; Custom_csv := Custom_csv f |}
  | CUSTOM => {| Valid_csv := Valid_csv f; Invalid_csv := Invalid_csv f;
                 Risky_csv := Risky_csv f; Custom_csv := Custom_csv f ++ [e] |}
  end.

(** [Settings.check_email_in_data]: the first of Valid, Invalid, Risky,
    Custom that has the address. *)
Definition check_email_in_data (e : string) (f : DataFiles) : option Category :=
  List.find (λ c, bool_decide (e ∈ data_file c f)) [VALID; INVALID; RISKY; CUSTOM].

(** [Settings.add_email_to_data]: the row is written unless the file of
    this category already has it. *)
Definition add_email_to_data (e : string) (c : Category) (f : DataFiles) : DataFiles :=
  let exists_ := bool_decide (e ∈ data_file c f) in
  if negb exists_ then append_row c e f else f.

(* ===================================================================== *)
(** ** ImprovedLoginVerifier (verifier1.py) *)
(* ===================================================================== *)

Section Engine.
Context (cfg : Settings) (w : World).

(** One interaction with the world: the oracle index moves on and the
    time the interaction takes passes. *)
Definition interact : M nat := λ s,
  Ok (tick s) (set_tick S (set_clock (λ c, c + Z.max 0 (latency w (tick s))) s)).

(** [_, domain = email.split('@')] *)
Definition split_email (address : string) : M (string * string) :=
  match py_split "@"%char address with
  | [loc; domain] => mret (loc, domain)
  | [_] => raise "not enough values to unpack (expected 2, got 1)"
  | _ => raise "too many values to unpack (expected 2)"
  end.

(** The rate limiter of the engine, at the current time. *)
Definition limiter_is_rate_limited (domain : string) : M bool := λ s,
  let r := is_rate_limited (clock s) domain (rate_limiter s) in
  Ok r.1 (set_events (cons (EvLimitCheck domain r.1)) (set_rate_limiter (λ _, r.2) s)).

Definition limiter_get_backoff_time (domain : string) : M Z :=
  gets (λ s, get_backoff_time (clock s) domain (rate_limiter s)).

Definition limiter_add_request (domain : string) : M unit :=
  modify (λ s, set_events (cons (EvRecord domain))
                 (set_rate_limiter (add_request (clock s) domain) s)).

Definition limiter_set_backoff (domain : string) (seconds : Z) : M unit :=
  modify (λ s, set_rate_limiter (set_backoff (clock s) domain seconds) s).

(** The block that opens [verify_email_smtp] (lines 822-829),
    [verify_microsoft_api] (937-944) and [_verify_login] (2383-2390); the
    three copies differ in the name of the probe in the history entry. *)
Definition rate_limit_block (probe address domain : string) : M unit :=
  limited ← limiter_is_rate_limited domain;
  (if limited : bool then
     wait_time ← limiter_get_backoff_time domain;
     add_to_history address
       (probe +:+ " rate limited for " +:+ domain +:+ ", waiting " +:+
        pretty wait_time +:+ "s");;
     time_sleep (wait_time * usec)
   else mret tt);;
  (* Record this request *)
  limiter_add_request domain.

(** [get_mx_records] *)
Definition get_mx_records (domain : string) : M (list string) :=
  cached ← gets (λ s, mx_cache s !! domain);
  match cached with
  | Some mx_servers => mret mx_servers
  | None =>
      t ← interact;
      log (EvDns domain);;
      match dns_resolve w t domain with
      | Some records =>
          let mx_servers := map (λ x, py_lower (py_rstrip_dot x)) records in
          modify (set_mx_cache (<[domain := mx_servers]>));;
          mret mx_servers
      | None => mret []
      end
  end.

(** [self.provider_login_urls[key]] *)
Definition login_url_of (key : string) : M (option string) :=
  match provider_login_urls cfg !! key with
  | Some url => mret (Some url)
  | None => raise ("'" +:+ key +:+ "'")
  end.

Fixpoint identify_by_mx (domain : string) (mx_records : list string)
    : M (string * option string) :=
  match mx_records with
  | [] => mret ("custom", None)
  | mx :: rest =>
      if py_in "google" mx || py_in "gmail" mx then
        if String.eqb domain "gmail.com"
        then url ← login_url_of "gmail.com"; mret ("gmail.com", url)
        else url ← login_url_of "gmail.com"; mret ("customGoogle", url)
      else if py_in "outlook" mx || py_in "microsoft" mx || py_in "office365" mx then
        url ← login_url_of "outlook.com"; mret ("outlook.com", url)
      else if py_in "yahoo" mx then
        url ← login_url_of "yahoo.com"; mret ("yahoo.com", url)
      else if py_in "protonmail" mx || py_in "proton.me" mx then
        url ← login_url_of "protonmail.com"; mret ("protonmail.com", url)
      else if py_in "zoho" mx then
        url ← login_url_of "zoho.com"; mret ("zoho.com", url)
      else if py_in "mail.ru" mx then
        url ← login_url_of "mail.ru"; mret ("mail.ru", url)
      else if py_in "yandex" mx then
        url ← login_url_of "yandex.ru"; mret ("yandex.ru", url)
      else identify_by_mx domain rest
  end.

(** [identify_provider] *)
Definition identify_provider (address : string) : M (string * option string) :=
  '(_, domain) ← split_email address;
  match provider_login_urls cfg !! domain with
  | Some url => mret (domain, Some url)
  | None =>
      mx_records ← get_mx_records domain;
      identify_by_mx domain mx_records
  end.

(** [save_result]: a row in the results file of the category, then
    [settings.add_email_to_data].  (The history files that [save_history]
    writes are not part of the state.) *)
Definition save_result (result : nat) : M unit :=
  r ← read result;
  now ← datetime_now;
  d ← gets (λ s, (λ d, deref_dict d s) <$> details r);
  modify (set_csv_files (λ rows, rows ++
    [(category r, {| row_email := email r; row_provider := provider r;
                     row_timestamp := now `div` usec; row_reason := reason r;
                     row_details := d |})]));;
  modify (set_data_files (add_email_to_data (email r) (category r))).

(** The three lines that precede every [return] of a fresh verdict:
    [self.result_cache[email] = result; self.save_result(result);
    return result]. *)
Definition cache_and_save (address : string) (result : nat) : M (option nat) :=
  modify (set_result_cache (<[address := result]>));;
  save_result result;;
  mret (Some result).

Definition with_mx_used (mx : string) (r : SmtpResult) : SmtpResult :=
  {| is_deliverable := is_deliverable r; smtp_check := smtp_check r;
     smtp_reason := smtp_reason r; mx_used := Some mx |}.

Definition with_reason (why : string) (r : SmtpResult) : SmtpResult :=
  {| is_deliverable := is_deliverable r; smtp_check := smtp_check r;
     smtp_reason := Some why; mx_used := mx_used r |}.

Definition with_deliverable (r : SmtpResult) : SmtpResult :=
  {| is_deliverable := true; smtp_check := true;
     smtp_reason := smtp_reason r; mx_used := mx_used r |}.

Definition max_retries : nat := 3.

(** The [while retry_count < max_retries] loop of [verify_smtp] for one MX
    host, with [remaining = max_retries - retry_count].  The boolean says
    whether [verify_smtp] returns ([true]) or goes on to the next host. *)
Fixpoint smtp_attempts (remaining : nat) (address mx : string) (result : SmtpResult)
    : M (bool * SmtpResult) :=
  match remaining with
  | O => mret (false, result)
  | S remaining' =>
      t ← interact;
      let reply := smtp_session w t mx address in
      log (EvSmtp mx address reply);;
      match reply with
      | RcptReply code message =>
          let result := with_mx_used mx result in
          if code =? 250 then mret (true, with_deliverable result)
          else if code =? 550 then
            (* Mark as risky instead of invalid for "Mailbox unavailable" *)
            mret (true, with_reason "Mailbox unavailable" result)
          else
            mret (false, with_reason
                    ("SMTP Error: " +:+ pretty code +:+ " - " +:+ message) result)
      | NetTimeout =>
          let retry_count := (max_retries - remaining')%nat in
          if (retry_count <? max_retries)%nat then
            time_sleep (2 ^ Z.of_nat retry_count * usec);;
            smtp_attempts remaining' address mx result
          else mret (false, result)
      | SmtpFailure => mret (false, result)
      | SmtpOtherError msg => raise msg
      end
  end.

Fixpoint smtp_mx_loop (address : string) (mx_servers : list string) (result : SmtpResult)
    : M SmtpResult :=
  match mx_servers with
  | [] =>
      match smtp_reason result with
      | None | Some EmptyString =>
          mret (with_reason "All MX servers rejected connection or verification" result)
      | Some _ => mret result
      end
  | mx :: rest =>
      '(returned, result) ← smtp_attempts max_retries address mx result;
      if returned : bool then mret result else smtp_mx_loop address rest result
  end.

Definition smtp_result_init : SmtpResult :=
  {| is_deliverable := false; smtp_check := false; smtp_reason := None; mx_used := None |}.

(** [verify_smtp] *)
Definition verify_smtp (address : string) (mx_servers : list string) : M SmtpResult :=
  match mx_servers with
  | [] => mret (with_reason "No MX records found" smtp_result_init)
  | _ => smtp_mx_loop address mx_servers smtp_result_init
  end.

Definition random_alphabet : string := "abcdefghijklmnopqrstuvwxyz0123456789".

(** [check_catch_all] *)
Definition check_catch_all (domain : string) : M bool :=
  if negb (catch_all_detection cfg) then mret false
  else
    (* Generate a random email that almost certainly doesn't exist *)
    t ← interact;
    let random_str := random_choices (random_draw w t) random_alphabet 16 in
    let test_email := random_str +:+ "@" +:+ domain in
    mx_records ← get_mx_records domain;
    match mx_records with
    | [] => mret false
    | _ =>
        result ← verify_smtp test_email mx_records;
        mret (is_deliverable result)
    end.

(** [verify_email_smtp] *)
Definition verify_email_smtp (address : string) : M nat :=
  add_to_history address "SMTP verification started";;
  '(_, domain) ← split_email address;
  rate_limit_block "SMTP verification" address domain;;
  mx_records ← get_mx_records domain;
  match mx_records with
  | [] =>
      add_to_history address
        "SMTP verification result: INVALID (Domain has no mail servers)";;
      new_result address INVALID "Domain has no mail servers" domain None
  | _ =>
      is_catch_all ← check_catch_all domain;
      (if is_catch_all : bool
       then add_to_history address "SMTP verification detected catch-all domain"
       else mret tt);;
      smtp_result ← verify_smtp address mx_records;
      if is_deliverable smtp_result then
        if is_catch_all : bool then
          add_to_history address
            "SMTP verification result: RISKY (Domain has catch-all configuration)";;
          d ← new_dict [("smtp_result", DDict (smtp_result_items smtp_result));
                        ("is_catch_all", DBool true)];
          new_result address RISKY "Domain has catch-all configuration" domain (Some d)
        else
          add_to_history address
            "SMTP verification result: VALID (Email verified via SMTP)";;
          d ← new_dict (smtp_result_items smtp_result);
          new_result address VALID "Email verified via SMTP" domain (Some d)
      else if bool_decide (smtp_reason smtp_result = Some "Mailbox unavailable") then
        (* Changed from INVALID to RISKY as per requirements *)
        add_to_history address "SMTP verification result: RISKY (Mailbox unavailable)";;
        d ← new_dict (smtp_result_items smtp_result);
        new_result address RISKY "Mailbox unavailable (may not indicate invalid email)"
          domain (Some d)
      else
        let why := default "None" (smtp_reason smtp_result) in
        add_to_history address ("SMTP verification result: INVALID (" +:+ why +:+ ")");;
        d ← new_dict (smtp_result_items smtp_result);
        new_result address INVALID ("Email verification failed: " +:+ why) domain (Some d)
  end.
(** The retry loop around [session.post] in [verify_microsoft_api], with
    [remaining = max_retries - retry_count].  [inl r] is the response the
    loop breaks with, [inr tt] the [return None] after the last retry. *)
Fixpoint api_attempts (remaining : nat) (address : string)
    : M ((Z * option Z * option Z * string) + unit) :=
  match remaining with
  | O => raise "cannot access local variable 'response' where it is not associated with a value"
  | S remaining' =>
      t ← interact;
      let reply := api_post w t address in
      log (EvApi address reply);;
      match reply with
      | ApiResponse status_code exists_result throttle body =>
          mret (inl (status_code, exists_result, throttle, body))
      | ApiConnError msg =>
          let retry_count := (max_retries - remaining')%nat in
          if (retry_count <? max_retries)%nat then
            time_sleep (2 ^ Z.of_nat retry_count * usec);;
            api_attempts remaining' address
          else
            add_to_history address ("Microsoft API verification error: " +:+ msg);;
            mret (inr tt)
      | ApiError msg => raise msg
      end
  end.

(** [verify_microsoft_api] *)
Definition verify_microsoft_api (address : string) : M (option nat) :=
  if negb (microsoft_api cfg) then mret None
  else
    add_to_history address "Microsoft API verification started";;
    '(_, domain) ← split_email address;
    rate_limit_block "Microsoft API verification" address domain;;
    try_except
      (response ← api_attempts max_retries address;
       match response with
       | inr _ => mret None
       | inl (status_code, exists_result, throttle, body) =>
           if negb (status_code =? 200) then
             add_to_history address "Microsoft API verification result: INCONCLUSIVE";;
             mret None
           else if bool_decide (exists_result = Some 0) then
             (* 0 indicates the email exists *)
             add_to_history address
               "Microsoft API verification result: VALID (Email address exists)";;
             d ← new_dict [("response", DStr body)];
             r ← new_result address VALID "Email address exists (Microsoft API)"
                   "Microsoft" (Some d);
             mret (Some r)
           else if bool_decide (exists_result = Some 1) then
             (* 1 indicates the email doesn't exist *)
             add_to_history address
               "Microsoft API verification result: INVALID (Email address does not exist)";;
             d ← new_dict [("response", DStr body)];
             r ← new_result address INVALID "Email address does not exist (Microsoft API)"
                   "Microsoft" (Some d);
             mret (Some r)
           else if bool_decide (throttle = Some 1) then
             (* We're being throttled, set a backoff *)
             limiter_set_backoff domain 60;;
             add_to_history address
               "Microsoft API verification result: INCONCLUSIVE (Throttled)";;
             mret None
           else
             add_to_history address "Microsoft API verification result: INCONCLUSIVE";;
             mret None
       end)
      (λ e,
         add_to_history address ("Microsoft API verification error: " +:+ e);;
         mret None).

Definition is_category (c : Category) (r : option nat) : M bool :=
  match r with
  | Some l => o ← read l; mret (bool_decide (category o = c))
  | None => mret false
  end.

(** [check_microsoft_api_catch_all] *)
Definition check_microsoft_api_catch_all (domain : string) : M bool :=
  t ← interact;
  let random_str := random_choices (random_draw w t) random_alphabet 16 in
  let test_email := random_str +:+ "@" +:+ domain in
  let valid_email := "admin@" +:+ domain in
  valid_result ← verify_microsoft_api valid_email;
  random_result ← verify_microsoft_api test_email;
  a ← is_category VALID valid_result;
  b ← is_category VALID random_result;
  mret (a && b).

(** [_verify_login]: the rate-limit block, then the browser session. *)
Definition _verify_login (address prov : string) (login_url : option string)
    (browser_type : string) : M nat :=
  '(_, domain) ← split_email address;
  rate_limit_block "Login verification" address domain;;
  t ← interact;
  log (EvBrowser address prov (default "None" login_url) browser_type);;
  match browser_session w t address prov login_url browser_type with
  | BrowserPage c why p info =>
      d ← match info with
          | Some items => l ← new_dict items; mret (Some l)
          | None => mret None
          end;
      new_result address c why p d
  | DriverError msg => raise msg
  end.

Definition definitive (c : Category) : bool :=
  bool_decide (c = VALID) || bool_decide (c = INVALID).

Definition undetermined : string :=
  "Could not determine if email exists (no password prompt or error)".

Definition is_microsoft (prov : string) : bool :=
  bool_decide (prov ∈ ["outlook.com"; "hotmail.com"; "live.com"; "microsoft.com";
                       "office365.com"]).

(** [browsers.index(browser)] for a member of the list. *)
Fixpoint list_index (x : string) (l : list string) : nat :=
  match l with
  | [] => 0
  | y :: r => if String.eqb x y then 0 else S (list_index x r)
  end.

(** The [for browser in browsers] loop of [_verify_microsoft_email];
    [last] is the variable [result].  [inl v] is a [return v], [inr last]
    the end of the loop. *)
Fixpoint microsoft_browser_loop (address prov : string) (login_url : option string)
    (all browsers : list string) (last : option nat) : M (option nat + option nat) :=
  match browsers with
  | [] => mret (inr last)
  | browser :: rest =>
      add_to_history address ("Login verification started using " +:+ browser);;
      result ← _verify_login address prov login_url browser;
      r ← read result;
      if definitive (category r) then
        v ← cache_and_save address result; mret (inl v)
      else if (bool_decide (category r = RISKY) && String.eqb (reason r) undetermined)
              || (bool_decide (category r = CUSTOM) &&
                  String.eqb (reason r) "Redirected to custom login page") then
        add_to_history address "Try to log in https://login.live.com/ instead";;
        let next := Nat.modulo (list_index browser all + 1)%nat (List.length all) in
        direct_result ← _verify_login address prov (Some "https://login.live.com")
                          (default browser (all !! next));
        dr ← read direct_result;
        if definitive (category dr) then
          v ← cache_and_save address direct_result; mret (inl v)
        else if bool_decide (category dr = RISKY) && String.eqb (reason dr) undetermined then
          (* If still not definitive but not rejected, mark as valid *)
          valid_result ← new_result address VALID "Email accepted (no rejection or error)"
                           prov (details dr);
          add_to_history address "Login verification: Valid email - no rejection or error";;
          v ← cache_and_save address valid_result; mret (inl v)
        else microsoft_browser_loop address prov login_url all rest (Some result)
      else microsoft_browser_loop address prov login_url all rest (Some result)
  end.

(** The last lines of the strategies that end with [result], the variable
    of the browser loop: it is unbound when the loop never ran. *)
Definition cache_and_save_last (address : string) (last : option nat) : M (option nat) :=
  match last with
  | Some result => cache_and_save address result
  | None => raise "cannot access local variable 'result' where it is not associated with a value"
  end.

(** [_verify_microsoft_email] *)
Definition _verify_microsoft_email (address prov : string) (login_url : option string)
    (domain : string) (mx_records : list string) : M (option nat) :=
  add_to_history address "Following Microsoft verification order: API -> Selenium -> SMTP";;
  is_api_catch_all ←
    (if microsoft_api cfg then
       b ← check_microsoft_api_catch_all domain;
       (if b : bool then
          add_to_history address
            "Microsoft API catch-all domain detected - switching to Selenium"
        else mret tt);;
       mret b
     else mret false);
  api_return ←
    (if is_api_catch_all : bool then mret None
     else
       api_result ← verify_microsoft_api address;
       match api_result with
       | Some l =>
           r ← read l;
           if definitive (category r) then mret (Some l) else mret None
       | None => mret None
       end);
  match api_return with
  | Some l => cache_and_save address l
  | None =>
      let browsers := get_browsers cfg in
      looped ← microsoft_browser_loop address prov login_url browsers browsers None;
      match looped with
      | inl v => mret v
      | inr last =>
          (* If Selenium is inconclusive, try SMTP *)
          smtp_result ← verify_email_smtp address;
          sr ← read smtp_result;
          if definitive (category sr) then cache_and_save address smtp_result
          else cache_and_save_last address last
      end
  end.

(** The [for browser in browsers] loop shared, line for line, by
    [_verify_gmail_email] and [_verify_custom_google_email]. *)
Fixpoint google_browser_loop (address prov : string) (login_url : option string)
    (browsers : list string) (last : option nat) : M (option nat + option nat) :=
  match browsers with
  | [] => mret (inr last)
  | browser :: rest =>
      add_to_history address ("Login verification started using " +:+ browser);;
      result ← _verify_login address prov login_url browser;
      r ← read result;
      if definitive (category r) then
        v ← cache_and_save address result; mret (inl v)
      else if bool_decide (category r = RISKY) && String.eqb (reason r) undetermined then
        valid_result ← new_result address VALID "Email accepted (no rejection or error)"
                         prov (details r);
        add_to_history address "Google verification: Valid email - no rejection or error";;
        v ← cache_and_save address valid_result; mret (inl v)
      else google_browser_loop address prov login_url rest (Some result)
  end.

(** [_verify_gmail_email] *)
Definition _verify_gmail_email (address prov : string) (login_url : option string)
    (domain : string) (mx_records : list string) : M (option nat) :=
  add_to_history address "Following Gmail verification order: SMTP -> Selenium";;
  smtp_result ← verify_email_smtp address;
  sr ← read smtp_result;
  if definitive (category sr) then cache_and_save address smtp_result
  else
    looped ← google_browser_loop address prov login_url (get_browsers cfg) None;
    match looped with
    | inl v => mret v
    | inr last => cache_and_save_last address last
    end.

(** [_verify_custom_google_email] *)
Definition _verify_custom_google_email (address prov : string) (login_url : option string)
    (domain : string) (mx_records : list string) : M (option nat) :=
  add_to_history address "Following customGoogle verification order: Selenium -> SMTP";;
  looped ← google_browser_loop address prov login_url (get_browsers cfg) None;
  match looped with
  | inl v => mret v
  | inr last =>
      smtp_result ← verify_email_smtp address;
      sr ← read smtp_result;
      if definitive (category sr) then cache_and_save address smtp_result
      else cache_and_save_last address last
  end.

(** [_verify_custom_domain_email] *)
Definition _verify_custom_domain_email (address prov domain : string)
    (mx_records : list string) : M (option nat) :=
  add_to_history address "Using generic verification order for unknown provider";;
  is_catch_all ← check_catch_all domain;
  (if is_catch_all : bool then add_to_history address "Catch-all domain detected"
   else mret tt);;
  smtp_result ← verify_smtp address mx_records;
  result ←
    (if is_deliverable smtp_result then
       if is_catch_all : bool then
         add_to_history address
           "SMTP verification result: RISKY (Domain has catch-all configuration)";;
         d ← new_dict [("smtp_result", DDict (smtp_result_items smtp_result));
                       ("is_catch_all", DBool true); ("mx_records", DList mx_records)];
         new_result address RISKY "Domain has catch-all configuration" "Custom" (Some d)
       else
         add_to_history address
           "SMTP verification result: VALID (Email verified via SMTP)";;
         d ← new_dict [("smtp_result", DDict (smtp_result_items smtp_result));
                       ("mx_records", DList mx_records)];
         new_result address VALID "Email verified via SMTP" "Custom" (Some d)
     else if bool_decide (smtp_reason smtp_result = Some "Mailbox unavailable") then
       add_to_history address "SMTP verification result: RISKY (Mailbox unavailable)";;
       d ← new_dict [("smtp_result", DDict (smtp_result_items smtp_result));
                     ("mx_records", DList mx_records)];
       new_result address RISKY "Mailbox unavailable (may not indicate invalid email)"
         "Custom" (Some d)
     else
       let why := default "None" (smtp_reason smtp_result) in
       add_to_history address ("SMTP verification result: INVALID (" +:+ why +:+ ")");;
       d ← new_dict [("smtp_result", DDict (smtp_result_items smtp_result));
                     ("mx_records", DList mx_records)];
       new_result address INVALID ("Email verification failed: " +:+ why) "Custom" (Some d));
  cache_and_save address result.

(** The loop of [_verify_other_provider_email]; falling off its end is
    falling off the end of the function, which returns [None]. *)
Fixpoint other_browser_loop (address prov : string) (login_url : option string)
    (all browsers : list string) : M (option nat) :=
  match browsers with
  | [] => mret None
  | browser :: rest =>
      add_to_history address ("Login verification started using " +:+ browser);;
      result ← _verify_login address prov login_url browser;
      r ← read result;
      if definitive (category r) then cache_and_save address result
      else if bool_decide (last all = Some browser) &&
              (bool_decide (category r = RISKY) || bool_decide (category r = CUSTOM)) then
        add_to_history address "Login verification inconclusive, trying SMTP";;
        smtp_result ← verify_email_smtp address;
        sr ← read smtp_result;
        if definitive (category sr) then cache_and_save address smtp_result
        else cache_and_save address result
      else other_browser_loop address prov login_url all rest
  end.

(** [_verify_other_provider_email] *)
Definition _verify_other_provider_email (address prov : string) (login_url : option string)
    (domain : string) (mx_records : list string) : M (option nat) :=
  add_to_history address ("Using standard verification for " +:+ prov);;
  if verification_loop_enabled cfg then
    let browsers := get_browsers cfg in
    other_browser_loop address prov login_url browsers browsers
  else
    match get_browsers cfg with
    | [] => raise "list index out of range"
    | browser :: _ =>
        add_to_history address ("Login verification started using " +:+ browser);;
        result ← _verify_login address prov login_url browser;
        cache_and_save address result
    end.

(** [verify_email] *)
Definition verify_email (address : string) : M (option nat) :=
  add_to_history address "Verification started";;
  (* Check if email exists in data files first *)
  found ← gets (λ s, check_email_in_data address (data_files s));
  match found with
  | Some c =>
      add_to_history address
        ("Email found in " +:+ category_str c +:+ " list - using cached result");;
      r ← new_result address c ("Email found in " +:+ category_str c +:+ " list")
            "cached" None;
      mret (Some r)
  | None =>
  (* Check cache next *)
  cached ← gets (λ s, result_cache s !! address);
  match cached with
  | Some r => mret (Some r)
  | None =>
  (* Step 1: Validate email format *)
  if negb (validate_format address) then
    add_to_history address "Invalid email format";;
    result ← new_result address INVALID "Invalid email format" "unknown" None;
    cache_and_save address result
  else
  '(_, domain) ← split_email address;
  (* Check if domain is blacklisted *)
  if bool_decide (domain ∈ get_blacklisted_domains cfg) then
    add_to_history address "Domain is blacklisted";;
    result ← new_result address INVALID "Domain is blacklisted" domain None;
    cache_and_save address result
  (* Check if domain should be skipped (whitelisted) *)
  else if bool_decide (domain ∈ skip_domains cfg) then
    add_to_history address "Domain in whitelist";;
    result ← new_result address VALID "Domain in whitelist" domain None;
    cache_and_save address result
  else
  (* Step 2: Check MX records *)
  mx_records ← get_mx_records domain;
  match mx_records with
  | [] =>
      add_to_history address "Domain has no mail servers";;
      result ← new_result address INVALID "Domain has no mail servers" "unknown" None;
      cache_and_save address result
  | _ =>
  (* Step 3: Identify the provider *)
  '(prov, login_url) ← identify_provider address;
  add_to_history address ("Provider identified: " +:+ prov);;
  (* Step 4: Provider-specific verification strategies *)
  if is_microsoft prov then
    _verify_microsoft_email address prov login_url domain mx_records
  else if String.eqb prov "gmail.com" then
    _verify_gmail_email address prov login_url domain mx_records
  else if String.eqb prov "customGoogle" then
    _verify_custom_google_email address prov login_url domain mx_records
  else if String.eqb prov "custom" ||
          match login_url with None | Some EmptyString => true | _ => false end then
    _verify_custom_domain_email address prov domain mx_records
  else
    _verify_other_provider_email address prov login_url domain mx_records
  end end end.

(** The dictionary a worker process puts on the result queue
    ([result.to_dict()], or the literal of the [except] branch). *)
Record QueuedResult := {
  q_email : string;
  q_category : string;
  q_reason : string;
  q_provider : string
}.

(** [_process_worker]: the results queue is the list it returns, in the
    order of the [put]s. *)
Fixpoint _process_worker (addresses : list string) : M (list (string * QueuedResult)) :=
  match addresses with
  | [] => mret []
  | address :: rest =>
      item ← try_except
        (result ← verify_email address;
         match result with
         | Some l =>
             r ← read l;
             t ← interact;   (* time.sleep(random.uniform(1, 2)) *)
             mret (address, {| q_email := email r; q_category := category_str (category r);
                               q_reason := reason r; q_provider := provider r |})
         | None => raise "'NoneType' object has no attribute 'to_dict'"
         end)
        (λ e,
           t ← interact;     (* time.sleep(random.uniform(5, 10)) *)
           mret (address, {| q_email := address; q_category := category_str RISKY;
                             q_reason := "Verification error: " +:+ e;
                             q_provider := "unknown" |}));
      queue ← _process_worker rest;
      mret (item :: queue)
  end.
End Engine.

(* ===================================================================== *)
(** ** VerifierService (services/verifier_service.py) *)
(* ===================================================================== *)

(** A Python [dict] whose order matters: keys in insertion order. *)
Fixpoint py_dict_get (k : string) (d : list (string * nat)) : option nat :=
  match d with
  | [] => None
  | (k', v) :: r => if String.eqb k k' then Some v else py_dict_get k r
  end.

(** [d[k] = v]: an existing key keeps its place. *)
Fixpoint py_dict_set (k : string) (v : nat) (d : list (string * nat)) : list (string * nat) :=
  match d with
  | [] => [(k, v)]
  | (k', v') :: r => if String.eqb k k' then (k, v) :: r else (k', v') :: py_dict_set k v r
  end.

Definition max_cache_size : nat := 1000.

(** [int(self.max_cache_size * 0.1)] *)
Definition remove_count : nat := 100.

(** A Python number: [int] or [float] (as the exact quotient). *)
Inductive PyNumber :=
  | PyInt (z : Z)
  | PyFloat (q : QArith_base.Q).

(** What [get_task_status] returns for a known task. *)
Record TaskStatus := {
  ts_task_id : string;
  ts_status : string;
  ts_total : Z;
  ts_completed : Z;
  ts_progress : PyNumber;
  ts_start_time : Z;
  ts_end_time : option Z;
  ts_method : string
}.

Definition with_status (st : string) (t : Task) : Task :=
  {| status := st; total := total t; completed := completed t; results := results t;
     start_time := start_time t; end_time := end_time t; emails := emails t;
     method := method t |}.

Definition with_progress (n : Z) (res : gmap string ResultDict) (t : Task) : Task :=
  {| status := status t; total := total t; completed := n; results := res;
     start_time := start_time t; end_time := end_time t; emails := emails t;
     method := method t |}.

Definition with_end_time (e : Z) (t : Task) : Task :=
  {| status := status t; total := total t; completed := completed t; results := results t;
     start_time := start_time t; end_time := Some e; emails := emails t;
     method := method t |}.

Section Service.
Context (cfg : Settings) (w : World).

(** [_add_to_cache].  ([_save_cache] writes the cache to a file that is
    read only when the service starts; the file is not part of the
    state.) *)
Definition _add_to_cache (address : string) (result : nat) : M unit :=
  modify (set_service_cache (λ cache,
    let cache :=
      if (max_cache_size <=? List.length cache)%nat
      then drop remove_count cache      (* Remove 10% of oldest entries *)
      else cache in
    py_dict_set address result cache)).

(** [if result.details is None: result.details = {}] followed by the
    assignments [result.details[k] = v] of [items]. *)
Definition update_details (result : nat) (items : list (string * DVal)) : M unit :=
  r ← read result;
  d ← match details r with
      | Some d => mret d
      | None => d ← new_dict []; set_details result (Some d);; mret d
      end;
  foldr (λ kv rest, dict_set d kv.1 kv.2;; rest) (mret tt) items.

(** The branch of [verify_email] that uses the login verifier. *)
Definition verify_with_login_verifier (address : string) : M nat :=
  start_time ← datetime_now;
  result ← verify_email cfg w address;
  end_time ← datetime_now;
  match result with
  | None => raise "'NoneType' object has no attribute 'details'"
  | Some result =>
      update_details result
        [("method", DStr "login"); ("verification_time", DInt (end_time - start_time))];;
      mret result
  end.

(** [VerifierService.verify_email] *)
Definition service_verify_email (address method : string) : M ResultDict :=
  hit ← gets (λ s, py_dict_get address (service_cache s));
  result ←
    match hit with
    | Some result =>
        (* Add method to result details if not present *)
        update_details result [("method", DStr method)];;
        mret result
    | None =>
        result ←
          (if String.eqb method "login" || String.eqb method "auto" then
             verify_with_login_verifier address
           else if String.eqb method "smtp" && smtp_verifier cfg then
             (* [EmailBounceVerifier] (verifier2.py) defines no [verify_email] *)
             raise "'EmailBounceVerifier' object has no attribute 'verify_email'"
           else
             (* Default to login verifier if method is not supported *)
             verify_with_login_verifier address);
        _add_to_cache address result;;
        mret result
    end;
  r ← read result;
  d ← gets (λ s, match details r with
                 | Some d => deref_dict d s !! "method"
                 | None => None
                 end);
  mret {| rd_email := email r; rd_category := category_str (category r);
          rd_reason := reason r; rd_provider := provider r; rd_details := details r;
          rd_method := default (DStr method) d |}.

(** [start_batch_verification]: the task is created; the thread it
    starts runs [_background_verification]. *)
Definition start_batch_verification (addresses : list string) (how : string) : M string :=
  t ← interact w;
  let task_id := uuid4 w t in
  now ← datetime_now;
  modify (set_verification_tasks (<[task_id :=
    {| status := "pending"; total := Z.of_nat (List.length addresses); completed := 0;
       results := ∅; start_time := now; end_time := None;
       emails := addresses; method := how |}]>));;
  mret task_id.

Definition update_task (task_id : string) (f : Task → Task) : M unit :=
  modify (set_verification_tasks (alter f task_id)).

(** The [for email in emails] loop of [_background_verification]. *)
Fixpoint background_loop (task_id how : string) (addresses : list string)
    (res : gmap string ResultDict) (done : Z) : M unit :=
  match addresses with
  | [] => mret tt
  | address :: rest =>
      res ← try_except
        (result_dict ← service_verify_email address how;
         let res := <[address := result_dict]> res in
         update_task task_id (with_progress (done + 1) res);;
         (* Add a small delay to avoid rate limiting *)
         time_sleep 500000;;
         mret res)
        (λ e,
           d ← new_dict [("error", DStr e); ("method", DStr how)];
           let res := <[address :=
             {| rd_email := address; rd_category := "error"; rd_reason := e;
                rd_provider := "unknown"; rd_details := Some d;
                rd_method := DStr how |}]> res in
           update_task task_id (with_progress (done + 1) res);;
           mret res);
      background_loop task_id how rest res (done + 1)
  end.

(** [_background_verification] *)
Definition _background_verification (task_id : string) : M unit :=
  found ← gets (λ s, verification_tasks s !! task_id);
  match found with
  | None => raise ("'" +:+ task_id +:+ "'")
  | Some task =>
      update_task task_id (with_status "running");;
      background_loop task_id (method task) (emails task) ∅ 0;;
      update_task task_id (with_status "completed");;
      now ← datetime_now;
      update_task task_id (with_end_time now)
  end.

(** [a / b] on integers *)
Definition py_truediv (a b : Z) : M QArith_base.Q :=
  if b =? 0 then raise "division by zero"
  else mret (QArith_base.Qdiv (QArith_base.inject_Z a) (QArith_base.inject_Z b)).

(** [get_task_status] *)
Definition get_task_status (task_id : string) : M (option TaskStatus) :=
  found ← gets (λ s, verification_tasks s !! task_id);
  match found with
  | None => mret None
  | Some task =>
      progress ←
        (if total task >? 0 then
           q ← py_truediv (completed task) (total task);
           mret (PyFloat (QArith_base.Qmult q (QArith_base.inject_Z 100)))
         else mret (PyInt 0));
      mret (Some {| ts_task_id := task_id; ts_status := status task;
                    ts_total := total task; ts_completed := completed task;
                    ts_progress := progress; ts_start_time := start_time task;
                    ts_end_time := end_time task; ts_method := method task |})
  end.

(** [get_task_results]: the fields of the task that it reports. *)
Definition get_task_results (task_id : string)
    : M (option (string * Z * Z * gmap string ResultDict)) :=
  found ← gets (λ s, verification_tasks s !! task_id);
  mret ((λ task, (status task, total task, completed task, results task)) <$> found).
End Service.

(* ===================================================================== *)
(** ** Concrete settings, worlds and states *)
(* ===================================================================== *)

(** The settings written by [_ensure_settings_file], the skip list of
    [VerifierService.__init__], and the login table of the engine (the
    query strings of the URLs are left out). *)
Definition default_settings : Settings :=
  {| catch_all_detection := true;
     microsoft_api := true;
     verification_loop_enabled := true;
     get_browsers := ["chrome"; "edge"; "firefox"];
     get_blacklisted_domains := [];
     skip_domains := ["example.com"; "test.com"; "domain.com"; "yourdomain.com";
                      "mydomain.com"];
     provider_login_urls := list_to_map
       [("gmail.com", "https://accounts.google.com/v3/signin/identifier");
        ("googlemail.com", "https://accounts.google.com/v3/signin/identifier");
        ("outlook.com", "https://login.microsoftonline.com/common/oauth2/v2.0/authorize");
        ("hotmail.com", "https://login.microsoftonline.com/common/oauth2/v2.0/authorize");
        ("live.com", "https://login.live.com");
        ("yahoo.com", "https://login.yahoo.com");
        ("aol.com", "https://login.aol.com");
        ("protonmail.com", "https://mail.proton.me/login");
        ("zoho.com", "https://accounts.zoho.com/signin");
        ("mail.ru", "https://account.mail.ru/login");
        ("yandex.ru", "https://passport.yandex.ru/auth");
        ("microsoft.com", "https://login.microsoftonline.com");
        ("office365.com", "https://login.microsoftonline.com")];
     smtp_verifier := false |}.

Definition with_catch_all_detection (b : bool) (c : Settings) : Settings :=
  {| catch_all_detection := b; microsoft_api := microsoft_api c;
     verification_loop_enabled := verification_loop_enabled c;
     get_browsers := get_browsers c;
     get_blacklisted_domains := get_blacklisted_domains c;
     skip_domains := skip_domains c; provider_login_urls := provider_login_urls c;
     smtp_verifier := smtp_verifier c |}.

Definition with_smtp_verifier (b : bool) (c : Settings) : Settings :=
  {| catch_all_detection := catch_all_detection c; microsoft_api := microsoft_api c;
     verification_loop_enabled := verification_loop_enabled c;
     get_browsers := get_browsers c;
     get_blacklisted_domains := get_blacklisted_domains c;
     skip_domains := skip_domains c; provider_login_urls := provider_login_urls c;
     smtp_verifier := b |}.

(** [RateLimiter()] with the defaults of its constructor. *)
Definition default_rate_limiter : RateLimiter :=
  {| max_requests := 10; time_window := 60; request_history := ∅; backoff_times := ∅ |}.

Definition empty_data_files : DataFiles :=
  {| Valid_csv := []; Invalid_csv := []; Risky_csv := []; Custom_csv := [] |}.

(** The state of a service that has just started, at time [t0]. *)
Definition initial_state (t0 : Z) : State :=
  {| clock := t0; tick := 0; events := []; objs := []; dicts := [];
     data_files := empty_data_files; csv_files := []; result_cache := ∅;
     mx_cache := ∅; rate_limiter := default_rate_limiter; service_cache := [];
     verification_tasks := ∅ |}.

(** A world in which a domain has one mail host that accepts every
    recipient (a catch-all server), the browser cannot be started and
    nothing else answers. *)
Definition catch_all_world : World :=
  {| latency := λ _, 0;
     dns_resolve := λ _ _, Some ["MX1.Catchall.Example."];
     random_draw := λ t i, (t + i)%nat;
     smtp_session := λ _ _ _, RcptReply 250 "OK";
     api_post := λ _ _, ApiError "unreachable";
     browser_session := λ _ _ _ _ _, DriverError "no driver";
     uuid4 := λ _, "task-1" |}.

(** A world in which Gmail's mail host accepts every recipient and the
    browser shows the password prompt. *)
Definition gmail_world : World :=
  {| latency := λ _, 0;
     dns_resolve := λ _ _, Some ["gmail-smtp-in.l.google.com."];
     random_draw := λ t i, (t + i)%nat;
     smtp_session := λ _ _ _, RcptReply 250 "OK";
     api_post := λ _ _, ApiError "unreachable";
     browser_session := λ _ _ _ _ _,
       BrowserPage VALID "Email address exists (URL changed to password challenge)"
         "gmail.com" (Some [("browser", DStr "chrome")]);
     uuid4 := λ _, "task-1" |}.

(** A world in which nothing outside answers. *)
Definition silent_world : World :=
  {| latency := λ _, 0;
     dns_resolve := λ _ _, None;
     random_draw := λ _ _, 0%nat;
     smtp_session := λ _ _ _, SmtpFailure;
     api_post := λ _ _, ApiError "unreachable";
     browser_session := λ _ _ _ _ _, DriverError "no driver";
     uuid4 := λ _, "task-1" |}.

(** A world whose one mail host answers every RCPT with 550. *)
Definition rejecting_world : World :=
  {| latency := λ _, 0;
     dns_resolve := λ _ _, Some ["mx.corp.example."];
     random_draw := λ _ _, 0%nat;
     smtp_session := λ _ _ _, RcptReply 550 "5.1.1 user unknown";
     api_post := λ _ _, ApiError "unreachable";
     browser_session := λ _ _ _ _ _, DriverError "no driver";
     uuid4 := λ _, "task-1" |}.

(* ===================================================================== *)
(** ** The vocabulary of the properties *)
(* ===================================================================== *)

Definition in_backoff (rl : RateLimiter) (now : Z) (domain : string) : Prop :=
  ∃ until, backoff_times rl !! domain = Some until ∧ now < until.

Definition window_count (rl : RateLimiter) (now : Z) (domain : string) : Z :=
  Z.of_nat (List.length (filter (λ t, now - t < time_window rl * usec)
                           (default [] (request_history rl !! domain)))).

Definition preserves {A} (R : relation State) (m : M A) : Prop :=
  ∀ s, R s (res_state (m s)).

(** What a probe leaves alone: the persisted files, both caches and the
    tasks are untouched, the two stores only grow, and every event it
    appends to the trace satisfies [P]. *)
Definition probe_frame (P : Event → bool) (s s' : State) : Prop :=
  data_files s' = data_files s ∧ csv_files s' = csv_files s ∧
  result_cache s' = result_cache s ∧ service_cache s' = service_cache s ∧
  verification_tasks s' = verification_tasks s ∧
  objs s `prefix_of` objs s' ∧ dicts s `prefix_of` dicts s' ∧
  ∃ new, events s' = new ++ events s ∧ Forall (λ e, P e = true) new.

Definition any_event : Event → bool := λ _, true.

Definition engine_frame (s s' : State) : Prop :=
  service_cache s' = service_cache s ∧ verification_tasks s' = verification_tasks s ∧
  objs s `prefix_of` objs s' ∧ dicts s `prefix_of` dicts s'.

(** How one call may change the data files: not at all, or by one call
    of [add_email_to_data]. *)
Definition one_write (D D' : DataFiles) : Prop :=
  D' = D ∨ ∃ x c, D' = add_email_to_data x c D.

(** What a computation does to the data files, by what it returns. *)
Definition data_spec {A} (Q : A → relation DataFiles) (E : relation DataFiles)
    (m : M A) : Prop :=
  ∀ s, match m s with
       | Ok a s' => Q a (data_files s) (data_files s')
       | Raise _ s' => E (data_files s) (data_files s')
       end.

Abbreviation data_rel T := (data_spec (λ _, T) T).

(** A browser loop that ends without a [return] has written nothing. *)
Definition loop_write {A B} (r : A + B) : relation DataFiles :=
  match r with inl _ => one_write | inr _ => eq end.

Definition all_rows (D : DataFiles) : list string :=
  Valid_csv D ++ Invalid_csv D ++ Risky_csv D ++ Custom_csv D.

(** The number of rows for an address across the four data files. *)
Definition count_rows (a : string) (D : DataFiles) : nat :=
  List.length (filter (a =.) (all_rows D)).

(** From [D] to [D']: the address ends with at most one row if it had
    none, and nothing is written if it had one. *)
Definition rows_step (a : string) (D D' : DataFiles) : Prop :=
  (count_rows a D' ≤ Nat.max 1 (count_rows a D))%nat ∧
  (count_rows a D ≠ 0%nat → D' = D).

Definition rows_frame (a : string) (s s' : State) : Prop :=
  rows_step a (data_files s) (data_files s').

Definition same_core (o o' : EmailVerificationResult) : Prop :=
  email o' = email o ∧ category o' = category o ∧ reason o' = reason o ∧
  provider o' = provider o ∧ timestamp o' = timestamp o.

(** Every result object that exists keeps its place and its fields other
    than [details]. *)
Definition service_frame (s s' : State) : Prop :=
  ∀ l o, objs s !! l = Some o → ∃ o', objs s' !! l = Some o' ∧ same_core o o'.

(** What the bookkeeping of the service touches: the two stores and its
    own cache. *)
Definition touch_frame (s s' : State) : Prop :=
  data_files s' = data_files s ∧ events s' = events s ∧ service_frame s s'.

Definition verify_email_n (cfg : Settings) (w : World) (a : string) (n : nat)
    (s : State) : State :=
  Nat.iter n (λ s, res_state (verify_email cfg w a s)) s.

Definition service_verify_email_all (cfg : Settings) (w : World) (a : string)
    (methods : list string) (s : State) : State :=
  foldl (λ s m, res_state (service_verify_email cfg w a m s)) s methods.

(** A sequence of calls of [VerifierService.verify_email], each with its
    address and method. *)
Definition service_calls (cfg : Settings) (w : World) (calls : list (string * string))
    (s : State) : State :=
  foldl (λ s c, res_state (service_verify_email cfg w c.1 c.2 s)) s calls.

(** The contents of the [details] of the result at [l]. *)
Definition details_of (l : nat) (s : State) : option (gmap string DVal) :=
  (λ d, deref_dict d s) <$> details (deref l s).

Definition after_first_verify : State :=
  res_state (service_verify_email default_settings silent_world "foo@bar" "login"
               (initial_state 0)).

Definition after_second_verify : State :=
  res_state (service_verify_email default_settings silent_world "foo@bar" "auto"
               after_first_verify).

(** The probe events of a trace. *)
Definition probe_events (l : list Event) : list Event := List.filter is_probe l.

(** [verify_email] answers from a pre-check: it returns a fresh result
    with the given fields and runs no probe. *)
Definition answers_without_probe (cfg : Settings) (w : World) (a : string) (s : State)
    (c : Category) (why prov : string) : Prop :=
  ∃ s', verify_email cfg w a s = Ok (Some (List.length (objs s))) s' ∧
        objs s' = objs s ++ [{| email := a; category := c; reason := why; provider := prov;
                                details := None; timestamp := clock s `div` usec |}] ∧
        probe_events (events s') = probe_events (events s).

(** The order of the pre-checks as the specification has it would make
    the engine's result cache decide before anything else. *)
Definition cache_checked_first (cfg : Settings) (w : World) : Prop :=
  ∀ a s l, result_cache s !! a = Some l →
    ∃ s', verify_email cfg w a s = Ok (Some l) s'.

Definition after_engine_verify : State :=
  res_state (verify_email default_settings silent_world "foo@bar" (initial_state 0)).

(** A batch of one address, verified with the bounce verifier, on a
    service that has an SMTP account. *)
Definition smtp_batch : M (option (string * Z * Z * gmap string ResultDict)) :=
  let cfg := with_smtp_verifier true default_settings in
  task_id ← start_batch_verification silent_world ["user@corp.example"] "smtp";
  _background_verification cfg silent_world task_id;;
  get_task_results task_id.

(** What a finished batch reports: status, total, completed, and the
    category and reason recorded for an address. *)
Definition task_entry (address : string)
    (r : Res (option (string * Z * Z * gmap string ResultDict)))
    : option (string * Z * Z * option (string * string)) :=
  match r with
  | Ok (Some (st, t, c, res)) _ =>
      Some (st, t, c, (λ d, (rd_category d, rd_reason d)) <$> res !! address)
  | _ => None
  end.

Definition four_categories : list string := category_str <$> [VALID; INVALID; RISKY; CUSTOM].

(** The latest SMTP conversation of a trace (the trace is newest first). *)
Fixpoint last_smtp (l : list Event) : option (string * string * SmtpReply) :=
  match l with
  | [] => None
  | EvSmtp mx a r :: _ => Some (mx, a, r)
  | _ :: l' => last_smtp l'
  end.

Definition not_smtp (e : Event) : bool :=
  match e with EvSmtp _ _ _ => false | _ => true end.

Definition not_limit_check (e : Event) : bool :=
  match e with EvLimitCheck _ _ => false | _ => true end.

Definition not_history (msg : string) (e : Event) : bool :=
  match e with EvHistory _ m => negb (String.eqb m msg) | _ => true end.

(** What [verify_smtp] returns, by the reply that ended it. *)
Definition decided (rep : SmtpReply) (r : SmtpResult) : Prop :=
  match rep with
  | RcptReply code _ =>
      if code =? 250 then is_deliverable r = true
      else if code =? 550 then
        is_deliverable r = false ∧ smtp_reason r = Some "Mailbox unavailable"
      else is_deliverable r = false
  | _ => is_deliverable r = false
  end.

Definition undecided (rep : SmtpReply) : Prop :=
  match rep with
  | RcptReply code _ => (code =? 250) = false ∧ (code =? 550) = false
  | _ => True
  end.

Definition catch_all_detected : string := "SMTP verification detected catch-all domain".

(** The verdict [verify_email_smtp] builds from the answer of the catch-all
    check and the outcome of the SMTP probe. *)
Definition smtp_verdict (is_catch_all : bool) (sr : SmtpResult) : Category * string :=
  if is_deliverable sr then
    if is_catch_all then (RISKY, "Domain has catch-all configuration")
    else (VALID, "Email verified via SMTP")
  else if bool_decide (smtp_reason sr = Some "Mailbox unavailable") then
    (RISKY, "Mailbox unavailable (may not indicate invalid email)")
  else (INVALID, "Email verification failed: " +:+ default "None" (smtp_reason sr)).

Definition custom_catch_all_detected : string := "Catch-all domain detected".

Definition quiet (msg : string) (e : Event) : bool := not_smtp e && not_history msg e.

(** The events appended to the trace between [s] and a later [s']. *)
Definition new_events (s s' : State) : list Event :=
  take (List.length (events s') - List.length (events s)) (events s').

(** The domain is catch-all as the check sees it: whatever local part of
    sixteen characters it draws, every mail host accepts the recipient
    with 250. *)
Definition random_probe_accepted (w : World) (d : string) : Prop :=
  ∀ t mx rnd, String.length rnd = 16%nat →
    ∃ msg, smtp_session w t mx (rnd +:+ "@" +:+ d) = RcptReply 250 msg.

(** What the rate-limit block that opens a probe appends to the trace
    (newest first) when it starts in [s]: the one question to the limiter,
    then, when the answer is yes, the history entry and one sleep of
    [get_backoff_time] seconds, then the record of the request. *)
Definition block_events (probe address domain : string) (s : State) : list Event :=
  let r := is_rate_limited (clock s) domain (rate_limiter s) in
  EvRecord domain ::
  (if r.1 then
     let wait_time := get_backoff_time (clock s) domain r.2 in
     [EvSleep (wait_time * usec);
      EvHistory address (probe +:+ " rate limited for " +:+ domain +:+ ", waiting " +:+
                         pretty wait_time +:+ "s")]
   else []) ++ [EvLimitCheck domain r.1].

(** The questions put to the limiter in a trace, and the sleeps. *)
Definition limit_checks (l : list Event) : list (string * bool) :=
  omap (λ e, match e with EvLimitCheck d b => Some (d, b) | _ => None end) l.

Definition sleeps (l : list Event) : list Z :=
  omap (λ e, match e with EvSleep z => Some z | _ => None end) l.

(** A run from [s] to [s'] logged [started], went through the rate-limit
    block, and did not ask the limiter again. *)
Definition checks_limit_once (probe a d : string) (started : list Event)
    (s s' : State) : Prop :=
  ∃ later,
    new_events s s' = later ++ block_events probe a d s ++ started ∧
    Forall (λ e, not_limit_check e = true) later.

(** The reading of the specification: a probe that finds the domain
    limited asks the limiter a second time before it goes on. *)
Definition rechecks_after_sleep (cfg : Settings) (w : World) : Prop :=
  ∀ a loc d s,
    py_split "@" a = [loc; d] →
    (is_rate_limited (clock s) d (rate_limiter s)).1 = true →
    (2 ≤ List.length (limit_checks
           (new_events s (res_state (verify_email_smtp cfg w a s)))))%nat.

(** Ten requests to one domain within the last second, and no backoff. *)
Definition saturated_state : State :=
  set_rate_limiter
    (with_request_history {[ "corp.example" := replicate 10 0 ]})
    (initial_state usec).

Definition after_saturated_probe : State :=
  res_state (verify_email_smtp default_settings rejecting_world "u@corp.example"
               saturated_state).

(** The verdict and the reason of the result a run of [verify_email]
    returns. *)
Definition outcome_of (r : Res (option nat)) : option (Category * string) :=
  match r with
  | Ok (Some l) s => Some (category (deref l s), reason (deref l s))
  | _ => None
  end.

(** A history entry is in a trace. *)
Definition history_logged (a msg : string) (l : list Event) : bool :=
  existsb (λ e, match e with
                | EvHistory a' m => String.eqb a a' && String.eqb m msg
                | _ => false
                end) l.

(** Every mail host of the world accepts every recipient at [d]: the
    domain is catch-all whatever local part the check draws. *)
Definition accepts_every_recipient (w : World) (d : string) : Prop :=
  ∀ t mx loc, ∃ msg, smtp_session w t mx (loc +:+ "@" +:+ d) = RcptReply 250 msg.

(** The reading of the specification: on a catch-all domain no run of
    [verify_email] ends with the verdict VALID. *)
Definition downgrades_every_valid (cfg : Settings) (w : World) : Prop :=
  ∀ a loc d s l s',
    py_split "@" a = [loc; d] → accepts_every_recipient w d →
    verify_email cfg w a s = Ok (Some l) s' →
    category (deref l s') ≠ VALID.

(** A service on which an empty batch has been started. *)
Definition empty_batch_state : State :=
  res_state (start_batch_verification silent_world [] "auto" (initial_state 0)).

(** The place of a category in the order in which [check_email_in_data]
    reads the data files. *)
Definition file_order (c : Category) : nat :=
  match c with VALID => 0 | INVALID => 1 | RISKY => 2 | CUSTOM => 3 end.

(** The timestamps of a domain that the limiter holds. *)
Definition history_of (rl : RateLimiter) (d : string) : list Z :=
  default [] (request_history rl !! d).

(** A timestamp lies in the window that ends at [now]. *)
Definition in_window (rl : RateLimiter) (now t : Z) : Prop :=
  now - t < time_window rl * usec.

(** A sequence of requests to one domain, each recorded at its time. *)
Definition add_requests (d : string) (ts : list Z) (rl : RateLimiter) : RateLimiter :=
  foldl (λ r t, add_request t d r) rl ts.

(** The providers [identify_provider] can name for a domain that is not in
    the login table. *)
Definition mx_providers : list string :=
  ["gmail.com"; "customGoogle"; "outlook.com"; "yahoo.com"; "protonmail.com";
   "zoho.com"; "mail.ru"; "yandex.ru"; "custom"].

(** The SMTP conversations of a trace: the host and the recipient. *)
Definition smtp_sessions (l : list Event) : list (string * string) :=
  omap (λ e, match e with EvSmtp mx a _ => Some (mx, a) | _ => None end) l.

Definition sum_list (l : list Z) : Z := foldr Z.add 0 l.

(** What one run of [verify_smtp] for [a] on the hosts [mxs] may do:
    conversations about [a] with hosts of [mxs] only, [per_host] of them at
    most for each host, and [pause] microseconds of sleep at most for each
    host. *)
Definition smtp_budget (a : string) (mxs : list string) (per_host : nat) (pause : Z)
    (new : list Event) : Prop :=
  Forall (λ x, x.2 = a ∧ x.1 ∈ mxs) (smtp_sessions new) ∧
  (List.length (smtp_sessions new) ≤ per_host * List.length mxs)%nat ∧
  sum_list (sleeps new) ≤ pause * Z.of_nat (List.length mxs).

(** The requests to the Microsoft API of a trace, newest first: the
    address asked about and the reply. *)
Definition api_calls (l : list Event) : list (string * ApiReply) :=
  omap (λ e, match e with EvApi a r => Some (a, r) | _ => None end) l.

(** An API world that answers every request with a throttled 200. *)
Definition throttling_world : World :=
  {| latency := λ _, 0;
     dns_resolve := λ _ _, None;
     random_draw := λ _ _, 0%nat;
     smtp_session := λ _ _ _, SmtpFailure;
     api_post := λ _ _, ApiResponse 200 None (Some 1) "{}";
     browser_session := λ _ _ _ _ _, DriverError "no driver";
     uuid4 := λ _, "task-1" |}.

(** Partial correctness of a computation: from a state that satisfies
    [P], a run that returns ends in a state that satisfies [Q] of the
    value returned. *)
Definition hoare {A} (P : State → Prop) (m : M A) (Q : A → State → Prop) : Prop :=
  ∀ s, P s → match m s with Ok x s' => Q x s' | Raise _ _ => True end.

(** The object at [l] is a result for the address [a]. *)
Definition holds (a : string) (l : nat) (s : State) : Prop :=
  ∃ o, objs s !! l = Some o ∧ email o = a.

(** Before the verdict is saved: the data files have no row for [a], and
    the results in hand are results for [a]. *)
Definition unsaved (a : string) (held : list nat) (s : State) : Prop :=
  check_email_in_data a (data_files s) = None ∧ Forall (λ l, holds a l s) held.

Definition unsaved_opt (a : string) (last : option nat) (s : State) : Prop :=
  ∃ held, unsaved a held s ∧ ∀ l, last = Some l → l ∈ held.

(** After the verdict is saved: the result returned is a result for [a],
    it is in the result cache under [a], and the data files have [a] in
    the file of its category. *)
Definition saved (a : string) (r : option nat) (s : State) : Prop :=
  ∀ l, r = Some l →
    email (deref l s) = a ∧ result_cache s !! a = Some l ∧
    check_email_in_data a (data_files s) = Some (category (deref l s)).

(** A browser loop either returns, with the verdict saved, or ends with
    nothing saved. *)
Definition loop_post (a : string) (x : option nat + option nat) (s : State) : Prop :=
  match x with
  | inl v => saved a v s
  | inr last => unsaved_opt a last s
  end.

(** What a call of the service's [verify_email] does to the service's own
    tables: the tasks are as they were, and the cache is no longer than
    the longer of what it was and [max_cache_size]. *)
Definition service_keeps (s s' : State) : Prop :=
  verification_tasks s' = verification_tasks s ∧
  (List.length (service_cache s') ≤
     List.length (service_cache s) `max` max_cache_size)%nat.

(** The fields of a task that the loop of a batch leaves alone. *)
Definition same_task (t t' : Task) : Prop :=
  status t' = status t ∧ total t' = total t ∧ start_time t' = start_time t ∧
  end_time t' = end_time t ∧ emails t' = emails t ∧ method t' = method t.

(** [range(n)] *)
Definition py_range (n : Z) : list Z := Z.of_nat <$> seq 0 (Z.to_nat n).

(** A slice index of Python, brought into [0, len]: a negative index
    counts from the end. *)
Definition slice_index (len i : Z) : Z :=
  if i <? 0 then Z.max 0 (len + i) else Z.min i len.

(** [l[start:stop]] *)
Definition py_slice {A} (l : list A) (start stop : Z) : list A :=
  let len := Z.of_nat (List.length l) in
  let lo := slice_index len start in
  let hi := slice_index len stop in
  take (Z.to_nat (hi - lo)) (drop (Z.to_nat lo) l).

(** The split of [batch_verify] for real multiple terminals
    (verifier1.py, lines 2751-2758): the chunks of addresses handed to
    the terminal processes, or the [ZeroDivisionError]. *)
Definition email_chunks (self_terminal_count : Z) (emails : list string)
    : string + list (list string) :=
  let len := Z.of_nat (List.length emails) in
  let terminal_count := Z.min self_terminal_count len in
  if terminal_count =? 0 then inl "integer division or modulo by zero"
  else
    let chunk_size := len `div` terminal_count in
    inr ((λ i,
            let start_idx := i * chunk_size in
            let end_idx :=
              if i <? terminal_count - 1 then start_idx + chunk_size else len in
            py_slice emails start_idx end_idx) <$> py_range terminal_count).

(** What [get_batch_status] returns: the values of the dictionary
    [status_counts] under its three keys. *)
Record StatusCounts := {
  n_valid : Z;
  n_invalid : Z;
  n_pending : Z
}.

(** The batch files of [EmailBounceVerifier] (verifier2.py).  A file is
    the list of its rows, as [csv.reader] yields them and [csv.writer]
    writes them; [None] is a path that does not exist.  [inl] is the
    exception a function raises. *)
Module verifier2.
Definition VALID : string := "valid".
Definition INVALID : string := "invalid".
Definition PENDING : string := "pending".
(** [validate_email_format]: the pattern is that of [validate_format]. *)
Definition validate_email_format (email_address : string) : bool :=
  validate_format email_address.
(** The rows of the batch file that [start_verification] writes (lines
    427-434): one for each address of valid format, in order, pending;
    [now i] is the time printed for the address at position [i]. *)
Fixpoint batch_rows (now : nat → string) (i : nat) (emails : list string)
    : list (list string) :=
  match emails with
  | [] => []
  | email :: rest =>
      if validate_email_format email
      then [email; PENDING; now i; ""] :: batch_rows now (S i) rest
      else batch_rows now (S i) rest
  end.
Definition new_batch_file (now : nat → string) (emails : list string)
    : list (list string) :=
  ["Email"; "Status"; "Timestamp"; "Sender"] :: batch_rows now 0 emails.
(** [if row[0] == email: row[1] = status] *)
Definition update_row (email status : string) (row : list string)
    : string + list string :=
  match row with
  | [] => inl "list index out of range"
  | first :: fields =>
      if String.eqb first email then
        match fields with
        | [] => inl "list assignment index out of range"
        | _ :: others => inr (first :: status :: others)
        end
      else inr row
  end.
Fixpoint update_rows (email status : string) (rows : list (list string))
    : string + list (list string) :=
  match rows with
  | [] => inr []
  | row :: rest =>
      match update_row email status row with
      | inl e => inl e
      | inr row' =>
          match update_rows email status rest with
          | inl e => inl e
          | inr rest' => inr (row' :: rest')
          end
      end
  end.
(** [update_batch_status]: the file is read, then written. *)
Definition update_batch_status (batch_file : option (list (list string)))
    (email status : string) : string + option (list (list string)) :=
  match batch_file with
  | None => inr None
  | Some [] => inl "StopIteration"
  | Some (header :: rows) =>
      match update_rows email status rows with
      | inl e => inl e
      | inr rows' => inr (Some (header :: rows'))
      end
  end.
(** The body of the loop of [get_batch_status]. *)
Definition count_row (c : StatusCounts) (row : list string) : StatusCounts :=
  match row with
  | _ :: status :: _ =>
      if String.eqb status VALID then
        {| n_valid := n_valid c + 1; n_invalid := n_invalid c; n_pending := n_pending c |}
      else if String.eqb status INVALID then
        {| n_valid := n_valid c; n_invalid := n_invalid c + 1; n_pending := n_pending c |}
      else
        {| n_valid := n_valid c; n_invalid := n_invalid c; n_pending := n_pending c + 1 |}
  | _ => c
  end.
(** [get_batch_status] *)
Definition get_batch_status (batch_file : option (list (list string)))
    : string + StatusCounts :=
  let status_counts := {| n_valid := 0; n_invalid := 0; n_pending := 0 |} in
  match batch_file with
  | None => inr status_counts
  | Some [] => inl "StopIteration"
  | Some (_ :: rows) => inr (foldl count_row status_counts rows)
  end.
End verifier2.

(** How many addresses of a batch have a valid format, and how many of
    those are the address [e]. *)
Definition batch_size (emails : list string) : Z :=
  Z.of_nat (List.length (filter (λ a, verifier2.validate_email_format a = true) emails)).

Definition occurrences (e : string) (emails : list string) : Z :=
  Z.of_nat (List.length (filter (λ a, a = e)
              (filter (λ a, verifier2.validate_email_format a = true) emails))).

(* ===================================================================== *)
(** ** Properties *)
(* ===================================================================== *)

Lemma bind_run {A B} (m : M A) (k : A → M B) s :
  (m ≫= k) s = match m s with Ok a s' => k a s' | Raise e s' => Raise e s' end.
Proof. reflexivity. Qed.

Ltac state_simpl :=
  cbn [clock tick events objs dicts data_files csv_files result_cache mx_cache
       rate_limiter service_cache verification_tasks set_clock set_tick set_events
       set_objs set_dicts set_data_files set_csv_files set_result_cache set_mx_cache
       set_rate_limiter set_service_cache set_verification_tasks res_state] in *.

(** Run the primitive steps at the head of a computation. *)
Ltac mrun :=
  repeat first
    [ rewrite bind_run
    | progress cbv beta iota delta [mret M_ret add_to_history log modify gets
                                    datetime_now read raise try_except]
    | progress state_simpl ].

(** The same, through the primitives of the engine too. *)
Ltac mrun_all :=
  repeat first
    [ rewrite bind_run
    | progress cbv beta iota delta [mret M_ret add_to_history log modify gets
                                    datetime_now read raise try_except time_sleep
                                    interact new_result new_dict dict_set set_details
                                    limiter_is_rate_limited limiter_get_backoff_time
                                    limiter_add_request limiter_set_backoff]
    | progress state_simpl ].

Section preserves.
Context (R : relation State) `{!PreOrder R}.

Lemma preserves_ret {A} (a : A) : preserves R (mret a).
Proof. intros s. simpl. reflexivity. Qed.

Lemma preserves_raise {A} (e : string) : preserves R (raise (A:=A) e).
Proof. intros s. simpl. reflexivity. Qed.

Lemma preserves_gets {A} (f : State → A) : preserves R (gets f).
Proof. intros s. simpl. reflexivity. Qed.

Lemma preserves_bind {A B} (m : M A) (k : A → M B) :
  preserves R m → (∀ a, preserves R (k a)) → preserves R (m ≫= k).
Proof.
  intros Hm Hk s. rewrite bind_run. specialize (Hm s).
  destruct (m s) as [a s1|e s1]; simpl in *; [|done].
  etrans; [exact Hm|apply Hk].
Qed.

Lemma preserves_try {A} (m : M A) (h : string → M A) :
  preserves R m → (∀ e, preserves R (h e)) → preserves R (try_except m h).
Proof.
  intros Hm Hh s. unfold try_except. specialize (Hm s).
  destruct (m s) as [a s1|e s1]; simpl in *; [done|].
  etrans; [exact Hm|apply Hh].
Qed.

Lemma preserves_modify (f : State → State) :
  (∀ s, R s (f s)) → preserves R (modify f).
Proof. intros Hf s. apply Hf. Qed.
End preserves.

Lemma preserves_weaken {A} (R R' : relation State) (m : M A) :
  (∀ s s', R s s' → R' s s') → preserves R m → preserves R' m.
Proof. intros HR Hm s. apply HR, Hm. Qed.

#[global] Instance probe_frame_preorder P : PreOrder (probe_frame P).
Proof.
  split.
  - intros s. repeat split; try done. exists []. by split.
  - intros s1 s2 s3 (?&?&?&?&?&?&?&n1&?&?) (?&?&?&?&?&?&?&n2&?&?).
    repeat split; try congruence; try (by etrans).
    exists (n2 ++ n1). split; [|by apply Forall_app].
    rewrite <- app_assoc. congruence.
Qed.

Ltac frame_prim :=
  intros ?; repeat split; simpl; try done;
  try (by apply prefix_app_r);
  try (by exists []; split; [done|constructor]).

Section prims.
Context (P : Event → bool).

Lemma log_frame e : P e = true → preserves (probe_frame P) (log e).
Proof. intros HP. frame_prim. exists [e]. split; [done|by constructor]. Qed.

Lemma add_to_history_frame a m :
  P (EvHistory a m) = true → preserves (probe_frame P) (add_to_history a m).
Proof. apply log_frame. Qed.

Lemma time_sleep_frame us :
  P (EvSleep us) = true → preserves (probe_frame P) (time_sleep us).
Proof. intros HP. frame_prim. exists [EvSleep us]. split; [done|by constructor]. Qed.

Lemma interact_frame w : preserves (probe_frame P) (interact w).
Proof. frame_prim. Qed.

Lemma datetime_now_frame : preserves (probe_frame P) datetime_now.
Proof. frame_prim. Qed.

Lemma read_frame l : preserves (probe_frame P) (read l).
Proof. frame_prim. Qed.

Lemma new_result_frame e c why prov d :
  preserves (probe_frame P) (new_result e c why prov d).
Proof. frame_prim. Qed.

Lemma new_dict_frame items : preserves (probe_frame P) (new_dict items).
Proof. frame_prim. Qed.

Lemma split_email_frame a : preserves (probe_frame P) (split_email a).
Proof.
  unfold split_email. destruct (py_split _ a) as [|? [|? [|? ?]]]; frame_prim.
Qed.

Lemma limiter_is_rate_limited_frame d :
  (∀ b, P (EvLimitCheck d b) = true) →
  preserves (probe_frame P) (limiter_is_rate_limited d).
Proof. intros HP. frame_prim. eexists [_]. split; [done|by constructor]. Qed.

Lemma limiter_get_backoff_time_frame d :
  preserves (probe_frame P) (limiter_get_backoff_time d).
Proof. frame_prim. Qed.

Lemma limiter_add_request_frame d :
  P (EvRecord d) = true → preserves (probe_frame P) (limiter_add_request d).
Proof. intros HP. frame_prim. eexists [_]. split; [done|by constructor]. Qed.

Lemma limiter_set_backoff_frame d n :
  preserves (probe_frame P) (limiter_set_backoff d n).
Proof. frame_prim. Qed.

Lemma set_mx_cache_frame f : preserves (probe_frame P) (modify (set_mx_cache f)).
Proof. frame_prim. Qed.
End prims.

Create HintDb frame discriminated.
#[global] Hint Resolve log_frame add_to_history_frame time_sleep_frame interact_frame
  datetime_now_frame read_frame new_result_frame new_dict_frame split_email_frame
  limiter_is_rate_limited_frame limiter_get_backoff_time_frame
  limiter_add_request_frame limiter_set_backoff_frame set_mx_cache_frame : frame.

Ltac frame_step :=
  lazymatch goal with
  | |- preserves _ (mbind _ _) => apply preserves_bind; [tc_solve| |intros ?; cbv beta]
  | |- preserves _ (mret _) => apply preserves_ret; tc_solve
  | |- preserves _ (raise _) => apply preserves_raise; tc_solve
  | |- preserves _ (gets _) => apply preserves_gets; tc_solve
  | |- preserves _ (try_except _ _) => apply preserves_try; [tc_solve| |intros ?; cbv beta]
  | |- preserves _ (match ?x with _ => _ end) => destruct x
  end.

Ltac frame_side := intros; first [assumption | reflexivity | eauto].
Ltac frame :=
  repeat first [ frame_step | solve [eauto with frame] | solve [eauto 6 with frame; frame_side] ].

Section probes.
Context (cfg : Settings) (w : World) (P : Event → bool).

Lemma rate_limit_block_frame probe a d :
  (∀ b, P (EvLimitCheck d b) = true) →
  (∀ n : Z, P (EvHistory a (probe +:+ " rate limited for " +:+ d +:+ ", waiting " +:+
                        pretty n +:+ "s")) = true) →
  (∀ z, P (EvSleep z) = true) → P (EvRecord d) = true →
  preserves (probe_frame P) (rate_limit_block probe a d).
Proof. intros. unfold rate_limit_block. frame. Qed.

Lemma get_mx_records_frame d :
  P (EvDns d) = true → preserves (probe_frame P) (get_mx_records w d).
Proof. intros. unfold get_mx_records. frame. Qed.

Lemma login_url_of_frame k : preserves (probe_frame P) (login_url_of cfg k).
Proof. unfold login_url_of. frame. Qed.

Lemma identify_by_mx_frame d mxs : preserves (probe_frame P) (identify_by_mx cfg d mxs).
Proof.
  induction mxs as [|mx rest IH]; simpl; frame; eauto using login_url_of_frame.
Qed.

Lemma identify_provider_frame a :
  (∀ d, P (EvDns d) = true) → preserves (probe_frame P) (identify_provider cfg w a).
Proof.
  intros. unfold identify_provider. frame;
    eauto using get_mx_records_frame, identify_by_mx_frame.
Qed.

Section smtp.
Context (Hsmtp : ∀ mx a r, P (EvSmtp mx a r) = true) (Hsleep : ∀ z, P (EvSleep z) = true).

Lemma smtp_attempts_frame n a mx r :
  preserves (probe_frame P) (smtp_attempts w n a mx r).
Proof using Hsmtp Hsleep. revert r. induction n as [|n IH]; intros r; simpl; frame. Qed.

Lemma smtp_mx_loop_frame a mxs r :
  preserves (probe_frame P) (smtp_mx_loop w a mxs r).
Proof using Hsmtp Hsleep.
  revert r. induction mxs as [|mx rest IH]; intros r; simpl; frame;
    eauto using smtp_attempts_frame.
Qed.

Lemma verify_smtp_frame a mxs : preserves (probe_frame P) (verify_smtp w a mxs).
Proof using Hsmtp Hsleep.
  unfold verify_smtp. destruct mxs; frame; eauto using smtp_mx_loop_frame.
Qed.

Lemma check_catch_all_frame d :
  P (EvDns d) = true → preserves (probe_frame P) (check_catch_all cfg w d).
Proof using Hsmtp Hsleep.
  intros. unfold check_catch_all. frame;
    eauto using get_mx_records_frame, verify_smtp_frame.
Qed.
End smtp.

Section all_events.
Context (HP : ∀ e, P e = true).

Lemma verify_email_smtp_frame a : preserves (probe_frame P) (verify_email_smtp cfg w a).
Proof using HP.
  unfold verify_email_smtp. frame;
    eauto using rate_limit_block_frame, get_mx_records_frame, check_catch_all_frame,
      verify_smtp_frame.
Qed.

Lemma api_attempts_frame n a : preserves (probe_frame P) (api_attempts w n a).
Proof using HP. induction n as [|n IH]; simpl; frame. Qed.

Lemma verify_microsoft_api_frame a : preserves (probe_frame P) (verify_microsoft_api cfg w a).
Proof using HP.
  unfold verify_microsoft_api. frame;
    eauto using rate_limit_block_frame, api_attempts_frame.
Qed.

Lemma is_category_frame c r : preserves (probe_frame P) (is_category c r).
Proof. unfold is_category. frame. Qed.

Lemma check_microsoft_api_catch_all_frame d :
  preserves (probe_frame P) (check_microsoft_api_catch_all cfg w d).
Proof using HP.
  unfold check_microsoft_api_catch_all. frame;
    eauto using verify_microsoft_api_frame, is_category_frame.
Qed.

Lemma _verify_login_frame a p u b : preserves (probe_frame P) (_verify_login w a p u b).
Proof using HP. unfold _verify_login. frame; eauto using rate_limit_block_frame. Qed.
End all_events.
End probes.

#[global] Instance engine_frame_preorder : PreOrder engine_frame.
Proof.
  split.
  - intros s. by repeat split.
  - intros s1 s2 s3 (?&?&?&?) (?&?&?&?). repeat split; try congruence; by etrans.
Qed.

Lemma probe_frame_engine P s s' : probe_frame P s s' → engine_frame s s'.
Proof. intros (?&?&?&?&?&?&?&?). by repeat split. Qed.

Lemma probe_frame_data {A} P (m : M A) : preserves (probe_frame P) m → data_rel eq m.
Proof. intros H s. destruct (H s) as (Hd&_). by destruct (m s). Qed.

#[global] Hint Extern 1 (any_event _ = true) => reflexivity : frame.
#[global] Hint Extern 1 (∀ _, any_event _ = true) => intros; reflexivity : frame.

Section engine.
Context (cfg : Settings) (w : World).

Lemma any_rate_limit_block probe a d :
  preserves (probe_frame any_event) (rate_limit_block probe a d).
Proof. apply rate_limit_block_frame; done. Qed.
Lemma any_get_mx_records d : preserves (probe_frame any_event) (get_mx_records w d).
Proof. by apply get_mx_records_frame. Qed.
Lemma any_identify_provider a : preserves (probe_frame any_event) (identify_provider cfg w a).
Proof. by apply identify_provider_frame. Qed.
Lemma any_verify_smtp a mxs : preserves (probe_frame any_event) (verify_smtp w a mxs).
Proof. by apply verify_smtp_frame. Qed.
Lemma any_check_catch_all d : preserves (probe_frame any_event) (check_catch_all cfg w d).
Proof. by apply check_catch_all_frame. Qed.
Lemma any_verify_email_smtp a : preserves (probe_frame any_event) (verify_email_smtp cfg w a).
Proof. by apply verify_email_smtp_frame. Qed.
Lemma any_verify_microsoft_api a :
  preserves (probe_frame any_event) (verify_microsoft_api cfg w a).
Proof. by apply verify_microsoft_api_frame. Qed.
Lemma any_check_microsoft_api_catch_all d :
  preserves (probe_frame any_event) (check_microsoft_api_catch_all cfg w d).
Proof. by apply check_microsoft_api_catch_all_frame. Qed.
Lemma any__verify_login a p u b : preserves (probe_frame any_event) (_verify_login w a p u b).
Proof. by apply _verify_login_frame. Qed.
End engine.

#[global] Hint Resolve any_rate_limit_block any_get_mx_records any_identify_provider
  any_verify_smtp any_check_catch_all any_verify_email_smtp any_verify_microsoft_api
  any_check_microsoft_api_catch_all any__verify_login : frame.

(** A probe-level computation, for the weaker relations. *)
Ltac probe_frame_solve := solve [frame].

Lemma engine_of_probe {A} (m : M A) :
  preserves (probe_frame any_event) m → preserves engine_frame m.
Proof. apply preserves_weaken, probe_frame_engine. Qed.

Lemma set_result_cache_eframe f : preserves engine_frame (modify (set_result_cache f)).
Proof. by intros s; repeat split. Qed.
Lemma set_csv_files_eframe f : preserves engine_frame (modify (set_csv_files f)).
Proof. by intros s; repeat split. Qed.
Lemma set_data_files_eframe f : preserves engine_frame (modify (set_data_files f)).
Proof. by intros s; repeat split. Qed.

#[global] Hint Resolve set_result_cache_eframe set_csv_files_eframe set_data_files_eframe : frame.
#[global] Hint Extern 8 (preserves engine_frame _) =>
  apply engine_of_probe; probe_frame_solve : frame.

Section strategies.
Context (cfg : Settings) (w : World).

Lemma save_result_eframe l : preserves engine_frame (save_result l).
Proof. unfold save_result. frame. Qed.

Lemma cache_and_save_eframe a l : preserves engine_frame (cache_and_save a l).
Proof. unfold cache_and_save. frame. apply save_result_eframe. Qed.

Lemma cache_and_save_last_eframe a l : preserves engine_frame (cache_and_save_last a l).
Proof. unfold cache_and_save_last. frame. apply cache_and_save_eframe. Qed.

Hint Resolve cache_and_save_eframe cache_and_save_last_eframe : frame.

Lemma microsoft_browser_loop_eframe a p u all bs last :
  preserves engine_frame (microsoft_browser_loop w a p u all bs last).
Proof. revert last. induction bs as [|b rest IH]; intros last; simpl; frame. Qed.

Lemma _verify_microsoft_email_eframe a p u d mxs :
  preserves engine_frame (_verify_microsoft_email cfg w a p u d mxs).
Proof.
  unfold _verify_microsoft_email. frame; eauto using microsoft_browser_loop_eframe.
Qed.

Lemma google_browser_loop_eframe a p u bs last :
  preserves engine_frame (google_browser_loop w a p u bs last).
Proof. revert last. induction bs as [|b rest IH]; intros last; simpl; frame. Qed.

Lemma _verify_gmail_email_eframe a p u d mxs :
  preserves engine_frame (_verify_gmail_email cfg w a p u d mxs).
Proof. unfold _verify_gmail_email. frame; eauto using google_browser_loop_eframe. Qed.

Lemma _verify_custom_google_email_eframe a p u d mxs :
  preserves engine_frame (_verify_custom_google_email cfg w a p u d mxs).
Proof. unfold _verify_custom_google_email. frame; eauto using google_browser_loop_eframe. Qed.

Lemma _verify_custom_domain_email_eframe a p d mxs :
  preserves engine_frame (_verify_custom_domain_email cfg w a p d mxs).
Proof. unfold _verify_custom_domain_email. frame. Qed.

Lemma other_browser_loop_eframe a p u all bs :
  preserves engine_frame (other_browser_loop cfg w a p u all bs).
Proof. induction bs as [|b rest IH]; simpl; frame. Qed.

Lemma _verify_other_provider_email_eframe a p u d mxs :
  preserves engine_frame (_verify_other_provider_email cfg w a p u d mxs).
Proof.
  unfold _verify_other_provider_email. frame; eauto using other_browser_loop_eframe.
Qed.

Lemma verify_email_eframe a : preserves engine_frame (verify_email cfg w a).
Proof.
  unfold verify_email. frame;
    eauto using _verify_microsoft_email_eframe, _verify_gmail_email_eframe,
      _verify_custom_google_email_eframe, _verify_custom_domain_email_eframe,
      _verify_other_provider_email_eframe.
Qed.
End strategies.

Lemma data_spec_ret {A} (Q : A → relation DataFiles) E (a : A) :
  Reflexive (Q a) → data_spec Q E (mret a).
Proof. intros HQ s. simpl. reflexivity. Qed.

Lemma data_spec_raise {A} (Q : A → relation DataFiles) E `{!Reflexive E} e :
  data_spec Q E (raise e).
Proof. intros s. simpl. reflexivity. Qed.

(** Steps that leave the files alone may come first ... *)
Lemma data_spec_bind_pre {A B} (Q : B → relation DataFiles) E (m : M A) (k : A → M B) :
  Reflexive E → data_rel eq m → (∀ a, data_spec Q E (k a)) → data_spec Q E (m ≫= k).
Proof.
  intros HE Hm Hk s. rewrite bind_run. specialize (Hm s).
  destruct (m s) as [a s1|e s1]; simpl in *.
  - rewrite Hm. apply Hk.
  - rewrite <- Hm. reflexivity.
Qed.

(** ... or last ... *)
Lemma data_rel_bind_post {A B} T (m : M A) (k : A → M B) :
  data_rel T m → (∀ a, data_rel eq (k a)) → data_rel T (m ≫= k).
Proof.
  intros Hm Hk s. rewrite bind_run. specialize (Hm s).
  destruct (m s) as [a s1|e s1]; simpl in *; [|done].
  specialize (Hk a s1). by destruct (k a s1); simpl in *; rewrite <- Hk.
Qed.

(** ... and after a loop the files are written by the loop or by what
    follows it, not by both. *)
Lemma data_rel_bind_loop {A B C} (m : M (A + B)) (k : A + B → M C) :
  data_spec loop_write one_write m →
  (∀ a, data_rel eq (k (inl a))) → (∀ b, data_rel one_write (k (inr b))) →
  data_rel one_write (m ≫= k).
Proof.
  intros Hm Hl Hr s. rewrite bind_run. specialize (Hm s).
  destruct (m s) as [[a|b] s1|e s1]; simpl in *; [| |done].
  - specialize (Hl a s1). by destruct (k (inl a) s1); simpl in *; rewrite <- Hl.
  - specialize (Hr b s1). by destruct (k (inr b) s1); simpl in *; rewrite Hm.
Qed.

#[global] Instance one_write_refl : Reflexive one_write.
Proof. intros D. by left. Qed.

#[global] Instance loop_write_inr_refl {A B} (b : B) : Reflexive (loop_write (inr (A:=A) b)).
Proof. intros D. done. Qed.

Ltac data_eq_solve :=
  solve [ eapply probe_frame_data with (P := any_event); probe_frame_solve ].

Create HintDb saves discriminated.

Ltac saves_step :=
  lazymatch goal with
  | |- data_spec _ _ (mbind _ _) =>
      first [ apply data_spec_bind_pre; [tc_solve | data_eq_solve | intros ?; cbv beta]
            | apply data_rel_bind_post;
                [ solve [eauto with saves] | intros ?; cbv beta; data_eq_solve]
            | apply data_rel_bind_loop;
                [ solve [eauto with saves] | intros ?; cbv beta; data_eq_solve
                | intros ?; cbv beta ] ]
  | |- data_spec _ _ (mret _) => apply data_spec_ret; tc_solve
  | |- data_spec _ _ (raise _) => apply data_spec_raise; tc_solve
  | |- data_spec _ _ (match ?x with _ => _ end) => destruct x
  end.

Ltac saves := repeat first [ solve [eauto with saves] | saves_step ].

Section saves.
Context (cfg : Settings) (w : World).

Lemma cache_and_save_one_write a l : data_rel one_write (cache_and_save a l).
Proof.
  intros s. right. unfold cache_and_save, save_result. simpl.
  by eexists _, _.
Qed.

Lemma cache_and_save_last_one_write a l : data_rel one_write (cache_and_save_last a l).
Proof.
  unfold cache_and_save_last. destruct l; [apply cache_and_save_one_write|].
  apply data_spec_raise; tc_solve.
Qed.

Lemma cache_and_save_return {B} a l :
  data_spec (loop_write (A:=option nat) (B:=B)) one_write
    (v ← cache_and_save a l; mret (inl v)).
Proof.
  intros s. rewrite bind_run. pose proof (cache_and_save_one_write a l s) as H.
  destruct (cache_and_save a l s); simpl in *; done.
Qed.

Hint Resolve cache_and_save_one_write cache_and_save_last_one_write
  cache_and_save_return : saves.

Lemma microsoft_browser_loop_write a p u all bs last :
  data_spec loop_write one_write (microsoft_browser_loop w a p u all bs last).
Proof. revert last. induction bs as [|b rest IH]; intros last; simpl; saves. Qed.

Lemma google_browser_loop_write a p u bs last :
  data_spec loop_write one_write (google_browser_loop w a p u bs last).
Proof. revert last. induction bs as [|b rest IH]; intros last; simpl; saves. Qed.

Lemma other_browser_loop_one_write a p u all bs :
  data_rel one_write (other_browser_loop cfg w a p u all bs).
Proof. induction bs as [|b rest IH]; simpl; saves. Qed.

Hint Resolve microsoft_browser_loop_write google_browser_loop_write
  other_browser_loop_one_write : saves.

Lemma _verify_microsoft_email_one_write a p u d mxs :
  data_rel one_write (_verify_microsoft_email cfg w a p u d mxs).
Proof. unfold _verify_microsoft_email. saves. Qed.

Lemma _verify_gmail_email_one_write a p u d mxs :
  data_rel one_write (_verify_gmail_email cfg w a p u d mxs).
Proof. unfold _verify_gmail_email. saves. Qed.

Lemma _verify_custom_google_email_one_write a p u d mxs :
  data_rel one_write (_verify_custom_google_email cfg w a p u d mxs).
Proof. unfold _verify_custom_google_email. saves. Qed.

Lemma _verify_custom_domain_email_one_write a p d mxs :
  data_rel one_write (_verify_custom_domain_email cfg w a p d mxs).
Proof. unfold _verify_custom_domain_email. saves. Qed.

Lemma _verify_other_provider_email_one_write a p u d mxs :
  data_rel one_write (_verify_other_provider_email cfg w a p u d mxs).
Proof. unfold _verify_other_provider_email. saves. Qed.

Hint Resolve _verify_microsoft_email_one_write _verify_gmail_email_one_write
  _verify_custom_google_email_one_write _verify_custom_domain_email_one_write
  _verify_other_provider_email_one_write : saves.

Lemma verify_email_one_write a : data_rel one_write (verify_email cfg w a).
Proof. unfold verify_email. saves. Qed.
End saves.



#[global] Instance same_core_equiv : Equivalence same_core.
Proof.
  split.
  - intros o. by repeat split.
  - intros o o' (?&?&?&?&?). by repeat split.
  - intros o1 o2 o3 (?&?&?&?&?) (?&?&?&?&?). repeat split; congruence.
Qed.

#[global] Instance service_frame_preorder : PreOrder service_frame.
Proof.
  split.
  - intros s l o Hl. by exists o.
  - intros s1 s2 s3 H12 H23 l o Hl.
    destruct (H12 l o Hl) as (o2 & Hl2 & Hc2).
    destruct (H23 l o2 Hl2) as (o3 & Hl3 & Hc3).
    exists o3. split; [done|]. by etrans.
Qed.

#[global] Instance rows_step_preorder a : PreOrder (rows_step a).
Proof.
  split.
  - intros D. split; [lia|done].
  - intros D1 D2 D3 [H1 H1'] [H2 H2']. split.
    + lia.
    + intros Hn. pose proof (H1' Hn) as ->. auto.
Qed.

#[global] Instance rows_frame_preorder a : PreOrder (rows_frame a).
Proof.
  split; [intros s; unfold rows_frame; reflexivity|].
  intros s1 s2 s3 H1 H2. unfold rows_frame in *. by etrans.
Qed.

#[global] Instance touch_frame_preorder : PreOrder touch_frame.
Proof.
  split.
  - intros s. by repeat split.
  - intros s1 s2 s3 (?&?&?) (?&?&?). repeat split; try congruence. by etrans.
Qed.

Lemma prefix_service_frame s s' : objs s `prefix_of` objs s' → service_frame s s'.
Proof.
  intros [k Hk] l o Hl. exists o. split; [|done].
  rewrite Hk. by apply lookup_app_l_Some.
Qed.

Lemma engine_frame_service s s' : engine_frame s s' → service_frame s s'.
Proof. intros (_&_&?&_). by apply prefix_service_frame. Qed.

Lemma touch_frame_service s s' : touch_frame s s' → service_frame s s'.
Proof. by intros (_&_&?). Qed.

Lemma touch_frame_rows a s s' : touch_frame s s' → rows_frame a s s'.
Proof. intros (Hd&_&_). unfold rows_frame. rewrite Hd. reflexivity. Qed.

(** The bookkeeping of the service. *)
Lemma new_dict_touch items : preserves touch_frame (new_dict items).
Proof. intros s. repeat split; simpl; try done. intros l o Hl. by exists o. Qed.

Lemma datetime_now_touch : preserves touch_frame datetime_now.
Proof. intros s. reflexivity. Qed.

Lemma read_touch l : preserves touch_frame (read l).
Proof. intros s. reflexivity. Qed.

Lemma dict_set_touch d k v : preserves touch_frame (dict_set d k v).
Proof. intros s. repeat split; simpl; try done. intros l o Hl. by exists o. Qed.

Lemma set_details_touch l d : preserves touch_frame (set_details l d).
Proof.
  intros s. split; [done|]. split; [done|]. intros l' o Hl.
  unfold set_details, modify, res_state, set_objs, objs at 1.
  destruct (decide (l = l')) as [->|Hne].
  - rewrite list_lookup_alter_eq, Hl. eexists. split; [done|]. by repeat split.
  - rewrite list_lookup_alter_ne by done. by exists o.
Qed.

Lemma set_service_cache_touch f : preserves touch_frame (modify (set_service_cache f)).
Proof. intros s. repeat split; simpl; try done. intros l o Hl. by exists o. Qed.

#[global] Hint Resolve new_dict_touch datetime_now_touch read_touch dict_set_touch
  set_details_touch set_service_cache_touch : frame.

Lemma update_details_touch l items : preserves touch_frame (update_details l items).
Proof.
  unfold update_details. frame.
  induction items as [|[k v] rest IH]; simpl; frame.
Qed.

Lemma _add_to_cache_touch a l : preserves touch_frame (_add_to_cache a l).
Proof. unfold _add_to_cache. frame. Qed.

#[global] Hint Resolve update_details_touch _add_to_cache_touch : frame.

Lemma service_of_touch {A} (m : M A) : preserves touch_frame m → preserves service_frame m.
Proof. apply preserves_weaken, touch_frame_service. Qed.

Lemma rows_of_touch {A} a (m : M A) : preserves touch_frame m → preserves (rows_frame a) m.
Proof. apply preserves_weaken, touch_frame_rows. Qed.

#[global] Hint Extern 8 (preserves service_frame _) =>
  apply service_of_touch; solve [frame] : frame.
#[global] Hint Extern 8 (preserves (rows_frame _) _) =>
  apply rows_of_touch; solve [frame] : frame.

(** Rows. *)
Lemma filter_eq_length_0 (a : string) (l : list string) :
  List.length (filter (a =.) l) = 0%nat ↔ a ∉ l.
Proof.
  rewrite length_zero_iff_nil. split.
  - intros Hnil Hin. assert (a ∈ filter (a =.) l) as H by by apply list_elem_of_filter.
    rewrite Hnil in H. by apply not_elem_of_nil in H.
  - intros Hnin. apply elem_of_nil_inv. intros x [Hx ?]%list_elem_of_filter. by subst.
Qed.

Lemma count_rows_0 a D : count_rows a D = 0%nat ↔ check_email_in_data a D = None.
Proof.
  unfold count_rows, all_rows, check_email_in_data. rewrite filter_eq_length_0.
  rewrite !not_elem_of_app. simpl.
  repeat case_bool_decide; try done; (split; [intros (?&?&?&?); done|done]).
Qed.

Lemma count_rows_append a c x D :
  count_rows a (append_row c x D) = (count_rows a D + (if decide (a = x) then 1 else 0))%nat.
Proof.
  unfold count_rows, all_rows.
  destruct c; simpl; rewrite !filter_app, !length_app; simpl;
    rewrite filter_cons, filter_nil; case_decide; simpl; lia.
Qed.

Lemma count_rows_add a x c D :
  (count_rows a (add_email_to_data x c D) ≤ S (count_rows a D))%nat.
Proof.
  unfold add_email_to_data. case_bool_decide; simpl; [lia|].
  rewrite count_rows_append. case_decide; lia.
Qed.

Section rows.
Context (cfg : Settings) (w : World).

Lemma verify_email_found a c s :
  check_email_in_data a (data_files s) = Some c →
  data_files (res_state (verify_email cfg w a s)) = data_files s.
Proof.
  intros Hc. unfold verify_email. mrun. rewrite Hc. by mrun.
Qed.

Lemma verify_email_rows a : preserves (rows_frame a) (verify_email cfg w a).
Proof.
  intros s. unfold rows_frame. split.
  - destruct (check_email_in_data a (data_files s)) as [c|] eqn:Hc.
    + rewrite (verify_email_found a c s Hc). lia.
    + apply count_rows_0 in Hc. rewrite Hc.
      pose proof (verify_email_one_write cfg w a s) as H.
      destruct (verify_email cfg w a s) as [r s'|e s']; simpl in *;
        destruct H as [->|(x & c & ->)]; try lia;
        pose proof (count_rows_add a x c (data_files s)); lia.
  - intros Hn.
    destruct (check_email_in_data a (data_files s)) as [c|] eqn:Hc.
    + by apply verify_email_found with c.
    + by apply count_rows_0 in Hc.
Qed.

Hint Resolve verify_email_rows : frame.

Lemma verify_with_login_verifier_rows a :
  preserves (rows_frame a) (verify_with_login_verifier cfg w a).
Proof. unfold verify_with_login_verifier. frame. Qed.

Lemma service_verify_email_rows a m :
  preserves (rows_frame a) (service_verify_email cfg w a m).
Proof.
  unfold service_verify_email. frame; eauto using verify_with_login_verifier_rows.
Qed.

Lemma verify_email_service_frame a : preserves service_frame (verify_email cfg w a).
Proof.
  eapply preserves_weaken; [apply engine_frame_service|apply verify_email_eframe].
Qed.

Hint Resolve verify_email_service_frame : frame.

Lemma verify_with_login_verifier_service_frame a :
  preserves service_frame (verify_with_login_verifier cfg w a).
Proof. unfold verify_with_login_verifier. frame. Qed.

Lemma service_verify_email_service_frame a m :
  preserves service_frame (service_verify_email cfg w a m).
Proof.
  unfold service_verify_email. frame; eauto using verify_with_login_verifier_service_frame.
Qed.

Lemma verify_email_n_rows a n s : rows_frame a s (verify_email_n cfg w a n s).
Proof.
  induction n as [|n IH]; simpl; [reflexivity|].
  etrans; [exact IH|apply verify_email_rows].
Qed.

Lemma service_verify_email_all_rows a ms s :
  rows_frame a s (service_verify_email_all cfg w a ms s).
Proof.
  revert s. induction ms as [|m ms IH]; intros s; simpl; [reflexivity|].
  etrans; [apply (service_verify_email_rows a m)|apply IH].
Qed.

End rows.

Lemma py_dict_get_set a l d : py_dict_get a (py_dict_set a l d) = Some l.
Proof.
  induction d as [|[k v] d IH]; simpl.
  - by rewrite String.eqb_refl.
  - destruct (String.eqb a k) eqn:E; simpl; rewrite ?String.eqb_refl, ?E; done.
Qed.

Lemma dict_sets_ok d items s :
  ∃ s', foldr (λ kv rest, dict_set d kv.1 kv.2 ≫= λ _, rest) (mret tt) items s = Ok tt s' ∧
        objs s' = objs s ∧ service_cache s' = service_cache s ∧ events s' = events s.
Proof.
  revert s. induction items as [|[k v] rest IH]; intros s; simpl.
  - by exists s.
  - destruct (IH (set_dicts (λ l, alter (insert k v) d l) s)) as (s' & Hs' & ? & ? & ?).
    exists s'. split; [exact Hs'|done].
Qed.

Lemma update_details_ok l items s :
  ∃ s', update_details l items s = Ok tt s' ∧
        service_cache s' = service_cache s ∧ events s' = events s ∧
        List.length (objs s') = List.length (objs s) ∧
        category (deref l s') = category (deref l s).
Proof.
  unfold update_details. mrun.
  destruct (details (deref l s)) as [d|] eqn:Hd.
  - destruct (dict_sets_ok d items s) as (s' & Hs' & Ho & Hc & He).
    exists s'. split; [exact Hs'|]. repeat split; try done; unfold deref; by rewrite Ho.
  - unfold new_dict, set_details. mrun.
    match goal with |- context [foldr _ _ _ ?s0] =>
      destruct (dict_sets_ok (List.length (dicts s)) items s0) as (s' & Hs' & Ho & Hc & He)
    end.
    exists s'. split; [exact Hs'|]. state_simpl. repeat split; try done.
    + rewrite Ho. apply length_alter.
    + unfold deref. rewrite Ho. rewrite list_lookup_alter_eq.
      by destruct (objs s !! l).
Qed.

Section service.
Context (cfg : Settings) (w : World).

Lemma service_calls_frame calls s : service_frame s (service_calls cfg w calls s).
Proof.
  revert s. induction calls as [|[b m] calls IH]; intros s; simpl; [reflexivity|].
  etrans; [apply (service_verify_email_service_frame cfg w b m)|apply IH].
Qed.

Lemma service_frame_category l s s' :
  service_frame s s' → (l < List.length (objs s))%nat →
  category (deref l s') = category (deref l s) ∧ (l < List.length (objs s'))%nat.
Proof.
  intros Hf Hl. destruct (lookup_lt_is_Some_2 _ _ Hl) as [o Ho].
  destruct (Hf l o Ho) as (o' & Ho' & _ & Hc & _).
  unfold deref. rewrite Ho, Ho'. split; [done|]. by eapply lookup_lt_Some.
Qed.

(** A call that finds the address in the cache. *)
Lemma service_verify_email_hit a m l s :
  py_dict_get a (service_cache s) = Some l →
  ∃ r s', service_verify_email cfg w a m s = Ok r s' ∧
          rd_category r = category_str (category (deref l s)) ∧
          events s' = events s ∧ service_cache s' = service_cache s.
Proof.
  intros Hhit. unfold service_verify_email. mrun. rewrite Hhit.
  destruct (update_details_ok l [("method", DStr m)] s) as (s' & Hu & Hc & He & _ & Hcat).
  mrun. rewrite Hu. mrun. eexists _, s'. split; [reflexivity|]. simpl. by rewrite Hcat.
Qed.


(** C4: when the service's [verify_email] returns a result for an
    address, the address is in the service's cache with that verdict;
    and after any further calls, as long as the cache still holds the
    entry, a call for the address returns the same verdict and appends
    nothing to the trace: no DNS, SMTP, HTTP-API or browser interaction,
    and no history entry.  The cached result is taken to be an object of
    the store, as it is in every state the service reaches. *)
Theorem verify_cached_verdict (a m : string) (s s1 : State) (r : ResultDict) :
  service_verify_email cfg w a m s = Ok r s1 →
  ∃ l, py_dict_get a (service_cache s1) = Some l ∧
       rd_category r = category_str (category (deref l s1)) ∧
       ∀ calls m2,
         let s2 := service_calls cfg w calls s1 in
         (l < List.length (objs s1))%nat →
         py_dict_get a (service_cache s2) = Some l →
         ∃ r2 s3, service_verify_email cfg w a m2 s2 = Ok r2 s3 ∧
                  rd_category r2 = rd_category r ∧ events s3 = events s2.
Proof.
  intros Hrun.
  assert (∃ l, py_dict_get a (service_cache s1) = Some l ∧
               rd_category r = category_str (category (deref l s1))) as (l & Hl & Hcat).
  { unfold service_verify_email in Hrun. revert Hrun. mrun.
    destruct (py_dict_get a (service_cache s)) as [l|] eqn:Hhit.
    - mrun. destruct (update_details_ok l [("method", DStr m)] s) as (s' & -> & Hc & _).
      mrun. intros [= <- <-]. exists l. simpl. by rewrite Hc.
    - mrun.
      match goal with |- context [match ?c s with _ => _ end] => destruct (c s) as [l s'|] end;
        [|done].
      unfold _add_to_cache. mrun. intros [= <- <-]. exists l. state_simpl. simpl.
      by rewrite py_dict_get_set. }
  exists l. split; [done|]. split; [done|].
  intros calls m2 s2 Hvalid Hlive.
  destruct (service_verify_email_hit a m2 l s2 Hlive) as (r2 & s3 & Hrun2 & Hcat2 & He & _).
  exists r2, s3. split; [done|]. split; [|done].
  rewrite Hcat2, Hcat. f_equal.
  by apply service_frame_category; [apply service_calls_frame|].
Qed.
End service.

(** The property on a service that has just started: the second call
    for the address, made after a call for another address, repeats the
    verdict of the first and leaves the trace alone. *)
Lemma verify_cached_verdict_witness :
  ∃ r s1 r2 s3,
    service_verify_email default_settings silent_world "foo@bar" "login"
      (initial_state 0) = Ok r s1 ∧
    service_verify_email default_settings silent_world "foo@bar" "auto"
      (service_calls default_settings silent_world [("other@bar", "auto")] s1) =
      Ok r2 s3 ∧
    rd_category r2 = rd_category r ∧
    events s3 =
      events (service_calls default_settings silent_world [("other@bar", "auto")] s1).
Proof.
  edestruct (verify_cached_verdict default_settings silent_world "foo@bar" "login"
               (initial_state 0)) as (l & Hl & _ & H); [vm_compute; reflexivity|].
  vm_compute in Hl. injection Hl as <-.
  specialize (H [("other@bar", "auto")] "auto"). cbv zeta in H.
  destruct H as (r2 & s3 & Hrun2 & Hcat & Hev);
    [vm_compute; lia|vm_compute; reflexivity|].
  eexists _, _, r2, s3. split; [vm_compute; reflexivity|].
  split; [exact Hrun2|]. split; [exact Hcat|exact Hev].
Defined.


Section prechecks.
Context (cfg : Settings) (w : World).

End prechecks.


(** C1, the failing input: a batch of one address, verified with the
    method "smtp" on a service that has an SMTP account, ends completed
    with the address recorded under the category "error" and the bare
    text of the exception as reason: not RISKY with "Verification error:
    ...", and not one of the four categories. *)
Theorem smtp_batch_error_category :
  task_entry "user@corp.example" (smtp_batch (initial_state 0)) =
    Some ("completed", 1, 1,
          Some ("error", "'EmailBounceVerifier' object has no attribute 'verify_email'")) ∧
  "error" ∉ four_categories.
Proof.
  split; [vm_compute; reflexivity|].
  unfold four_categories. simpl. rewrite !elem_of_cons, elem_of_nil.
  intros [?|[?|[?|[?|[]]]]]; discriminate.
Qed.

Section worker.
Context (cfg : Settings) (w : World).


(** C10: [get_task_status] never raises and leaves the state alone; for
    an unknown task id it returns [None], and for a task with no address
    ([total = 0]) the progress it reports is the integer 0: the division
    is made only when [total > 0]. *)
Theorem get_task_status_total (task_id : string) (s : State) :
  ∃ r, get_task_status task_id s = Ok r s ∧
       (verification_tasks s !! task_id = None → r = None) ∧
       (∀ task, verification_tasks s !! task_id = Some task → total task = 0 →
          ∃ st, r = Some st ∧ ts_progress st = PyInt 0).
Proof.
  unfold get_task_status. mrun.
  destruct (verification_tasks s !! task_id) as [task|] eqn:Ht.
  - destruct (total task >? 0) eqn:Hpos.
    + unfold py_truediv. destruct (total task =? 0) eqn:Hz; [lia|]. mrun.
      eexists. split; [reflexivity|]. split; [done|].
      intros task' [= <-] H0. lia.
    + mrun. eexists. split; [reflexivity|]. split; [done|].
      intros task' [= <-] H0. eexists. split; [reflexivity|done].
  - mrun. exists None. split; [done|]. split; [done|]. done.
Qed.
End worker.

Lemma last_smtp_app l1 l2 :
  last_smtp (l1 ++ l2) =
  match last_smtp l1 with Some x => Some x | None => last_smtp l2 end.
Proof. induction l1 as [|[] l1 IH]; simpl; done. Qed.

Lemma last_smtp_not_smtp l : Forall (λ e, not_smtp e = true) l → last_smtp l = None.
Proof. induction 1 as [|[] l H HF IH]; simpl in *; done. Qed.

Lemma probe_frame_events P s s' :
  probe_frame P s s' → ∃ new, events s' = new ++ events s ∧ Forall (λ e, P e = true) new.
Proof. by intros (_&_&_&_&_&_&_&?). Qed.

Lemma decided_undecided rep r :
  undecided rep → decided rep r ↔ is_deliverable r = false.
Proof. destruct rep; simpl; [|done..]. by intros [-> ->]. Qed.

Section smtp.
Context (cfg : Settings) (w : World).

Lemma smtp_attempts_spec n a mx r0 s ret r s' :
  n ≠ O → is_deliverable r0 = false →
  smtp_attempts w n a mx r0 s = Ok (ret, r) s' →
  ∃ new rep, events s' = new ++ events s ∧ last_smtp new = Some (mx, a, rep) ∧
             decided rep r ∧ (ret = false → undecided rep).
Proof.
  revert s r0. induction n as [|n IH]; [done|]. intros s r0 _ Hd. simpl. mrun_all.
  destruct (smtp_session w (tick s) mx a) as [code msg| | |e] eqn:Hrep; mrun_all.
  - destruct (code =? 250) eqn:H250; [|destruct (code =? 550) eqn:H550];
      intros [= <- <- <-]; eexists [_], _; simpl;
      (split; [done|]); (split; [done|]); simpl; rewrite ?H250, ?H550; done.
  - destruct n as [|n'].
    + change ((max_retries - 0 <? max_retries)%nat) with false. mrun_all.
      intros [= <- <- <-]. eexists [_], _. simpl. done.
    + replace ((max_retries - S n' <? max_retries)%nat) with true
        by (symmetry; apply Nat.ltb_lt; unfold max_retries; lia).
      mrun_all. intros Hrun. apply IH in Hrun as (new & rep & He & Hl & Hdec & Hun);
        [|done|done].
      revert He. state_simpl. intros He.
      exists (new ++ [EvSleep (2 ^ Z.of_nat (max_retries - S n') * usec);
                      EvSmtp mx a NetTimeout]), rep.
      split; [by rewrite <- app_assoc|]. split; [|done].
      by rewrite last_smtp_app, Hl.
  - intros [= <- <- <-]. eexists [_], _. simpl. done.
  - done.
Qed.

Lemma smtp_mx_loop_spec a mxs r0 s r s' :
  is_deliverable r0 = false →
  smtp_mx_loop w a mxs r0 s = Ok r s' →
  ∃ new, events s' = new ++ events s ∧
    match last_smtp new with
    | Some (_, a', rep) => a' = a ∧ decided rep r
    | None => mxs = [] ∧ is_deliverable r = false
    end.
Proof.
  revert r0 s. induction mxs as [|mx rest IH]; intros r0 s Hd; cbn [smtp_mx_loop].
  - intros Hrun. exists []. split; [|split; [done|]].
    + by destruct (smtp_reason r0) as [[]|]; injection Hrun as <- <-.
    + by destruct (smtp_reason r0) as [[]|]; injection Hrun as <- <-.
  - rewrite bind_run.
    destruct (smtp_attempts w max_retries a mx r0 s) as [[ret r1] s1|] eqn:Hatt; [|done].
    apply smtp_attempts_spec in Hatt as (new1 & rep1 & He1 & Hl1 & Hdec1 & Hun1);
      [|by unfold max_retries|done].
    destruct ret; mrun.
    + intros [= <- <-]. exists new1. by rewrite Hl1.
    + specialize (Hun1 eq_refl). pose proof Hdec1 as Hd1.
      apply decided_undecided in Hd1; [|done].
      intros Hrun. apply IH in Hrun as (new2 & He2 & Hpost); [|done].
      exists (new2 ++ new1). split; [by rewrite <- app_assoc, <- He1|].
      rewrite last_smtp_app. destruct (last_smtp new2) as [[[? ?] ?]|]; [done|].
      rewrite Hl1. split; [done|]. apply decided_undecided; [done|]. by destruct Hpost.
Qed.

Lemma verify_smtp_spec a mxs s r s' :
  mxs ≠ [] →
  verify_smtp w a mxs s = Ok r s' →
  ∃ new mx rep, events s' = new ++ events s ∧ last_smtp new = Some (mx, a, rep) ∧
                decided rep r.
Proof.
  intros Hne Hrun. unfold verify_smtp in Hrun. destruct mxs as [|mx rest]; [done|].
  apply smtp_mx_loop_spec in Hrun as (new & He & Hpost); [|done].
  destruct (last_smtp new) as [[[mx' a'] rep]|] eqn:Hl.
  - destruct Hpost as [-> Hdec]. by exists new, mx', rep.
  - by destruct Hpost.
Qed.
End smtp.

Lemma Forall_weaken_bool (P Q : Event → bool) l :
  (∀ e, P e = true → Q e = true) →
  Forall (λ e, P e = true) l → Forall (λ e, Q e = true) l.
Proof. intros H HF. eapply Forall_impl; [exact HF|]. auto. Qed.

Section smtp_run.
Context (cfg : Settings) (w : World).

Lemma get_mx_records_cached d s mxs s' :
  get_mx_records w d s = Ok mxs s' → mxs ≠ [] → mx_cache s' !! d = Some mxs.
Proof.
  unfold get_mx_records. mrun. destruct (mx_cache s !! d) as [c|] eqn:Hc; mrun.
  - by intros [= <- <-].
  - unfold interact. mrun. destruct (dns_resolve w (tick s) d); mrun.
    + intros [= <- <-] _. state_simpl. by rewrite lookup_insert_eq.
    + by intros [= <- <-].
Qed.

(** How a run of [verify_email_smtp] that returns is made up. *)
Lemma verify_email_smtp_run a s l s' :
  verify_email_smtp cfg w a s = Ok l s' →
  ∃ older,
    Forall (λ e, quiet catch_all_detected e = true) older ∧
    ((events s' = older ++ events s ∧ category (deref l s') = INVALID) ∨
     ∃ (b : bool) mid new_v sr mx rep hist,
       events s' = hist :: new_v ++ (if b then [EvHistory a catch_all_detected] else [])
                     ++ mid ++ older ++ events s ∧
       quiet catch_all_detected hist = true ∧
       Forall (λ e, not_history catch_all_detected e = true) new_v ∧
       Forall (λ e, not_history catch_all_detected e = true) mid ∧
       last_smtp new_v = Some (mx, a, rep) ∧ decided rep sr ∧
       (∃ loc d m0 mxs s2 s3,
          py_split "@" a = [loc; d] ∧ mx_cache s2 !! d = Some (m0 :: mxs) ∧
          check_catch_all cfg w d s2 = Ok b s3) ∧
       (category (deref l s'), reason (deref l s')) = smtp_verdict b sr ∧
       (is_deliverable sr = false →
        ∃ d, details (deref l s') = Some d ∧
             deref_dict d s' !! "reason" = Some (dval_of_option (smtp_reason sr)))).
Proof.
  unfold verify_email_smtp. mrun. unfold split_email.
  destruct (py_split "@" a) as [|loc [|d [|? ?]]] eqn:Hsplit; try (mrun; done). mrun.
  match goal with |- context [rate_limit_block ?p a d ?s0] =>
    pose proof (rate_limit_block_frame (quiet catch_all_detected) p a d
                  ltac:(done) ltac:(done) ltac:(done) ltac:(done) s0) as Hb;
    destruct (rate_limit_block p a d s0) as [[] s1|]; [|mrun; done]
  end.
  apply probe_frame_events in Hb as (n1 & He1 & HF1). revert He1. mrun. intros He1.
  pose proof (get_mx_records_frame w (quiet catch_all_detected) d eq_refl s1) as Hm.
  destruct (get_mx_records w d s1) as [mxs s2|] eqn:Hmx; [|mrun; done].
  apply probe_frame_events in Hm as (n2 & He2 & HF2). revert He2. mrun. intros He2.
  destruct mxs as [|m0 mxs].
  { mrun_all. intros [= <- <-]. state_simpl.
    exists (EvHistory a "SMTP verification result: INVALID (Domain has no mail servers)"
              :: n2 ++ n1 ++ [EvHistory a "SMTP verification started"]). split.
    - constructor; [done|]. rewrite !Forall_app. repeat split; try done. by constructor.
    - left. split.
      + rewrite He2, He1. simpl. by rewrite <- ?app_assoc.
      + unfold deref. state_simpl. by rewrite list_lookup_middle. }
  exists (n2 ++ n1 ++ [EvHistory a "SMTP verification started"]). split.
  { rewrite !Forall_app. repeat split; try done. by constructor. }
  right. revert H. mrun.
  pose proof (check_catch_all_frame cfg w (not_history catch_all_detected)
                ltac:(done) ltac:(done) d eq_refl s2) as Hc.
  destruct (check_catch_all cfg w d s2) as [b s3|] eqn:Hcc; [|done].
  apply probe_frame_events in Hc as (mid & He3 & HF3). revert He3. mrun. intros He3.
  assert (∃ loc d m0 mxs s2 s3,
            py_split "@" a = [loc; d] ∧ mx_cache s2 !! d = Some (m0 :: mxs) ∧
            check_catch_all cfg w d s2 = Ok b s3) as Hextra.
  { exists loc, d, m0, mxs, s2, s3. split; [done|]. split; [|done].
    by eapply get_mx_records_cached. }
  set (s4 := if b then set_events (cons (EvHistory a catch_all_detected)) s3 else s3).
  assert (events s4 = (if b then [EvHistory a catch_all_detected] else []) ++ events s3)
    as He4 by by destruct b.
  intros Hrun.
  assert ((verify_smtp w a (m0 :: mxs) ≫= λ smtp_result,
             if is_deliverable smtp_result then
               if b then
                 add_to_history a
                   "SMTP verification result: RISKY (Domain has catch-all configuration)";;
                 d0 ← new_dict [("smtp_result", DDict (smtp_result_items smtp_result));
                                ("is_catch_all", DBool true)];
                 new_result a RISKY "Domain has catch-all configuration" d (Some d0)
               else
                 add_to_history a
                   "SMTP verification result: VALID (Email verified via SMTP)";;
                 d0 ← new_dict (smtp_result_items smtp_result);
                 new_result a VALID "Email verified via SMTP" d (Some d0)
             else if bool_decide (smtp_reason smtp_result = Some "Mailbox unavailable") then
               add_to_history a "SMTP verification result: RISKY (Mailbox unavailable)";;
               d0 ← new_dict (smtp_result_items smtp_result);
               new_result a RISKY "Mailbox unavailable (may not indicate invalid email)"
                 d (Some d0)
             else
               add_to_history a
                 ("SMTP verification result: INVALID (" +:+
                  default "None" (smtp_reason smtp_result) +:+ ")");;
               d0 ← new_dict (smtp_result_items smtp_result);
               new_result a INVALID
                 ("Email verification failed: " +:+ default "None" (smtp_reason smtp_result))
                 d (Some d0)) s4 = Ok l s') as Hrun'.
  { destruct b; exact Hrun. }
  clear Hrun. revert Hrun'. rewrite bind_run.
  pose proof (verify_smtp_frame w (not_history catch_all_detected)
                ltac:(done) ltac:(done) a (m0 :: mxs) s4) as Hv.
  destruct (verify_smtp w a (m0 :: mxs) s4) as [sr s5|] eqn:Hvs; [|done].
  apply probe_frame_events in Hv as (new_v & He5 & HF5). revert He5. mrun. intros He5.
  apply verify_smtp_spec in Hvs as (new_v' & mx & rep & He5' & Hl & Hdec); [|done].
  assert (new_v' = new_v) as -> by (apply (app_inv_tail (events s4)); congruence).
  assert (∀ hist, events s5 ++ [] = events s5 →
            hist :: events s5 =
            hist :: new_v ++ (if b then [EvHistory a catch_all_detected] else []) ++
              mid ++ (n2 ++ n1 ++ [EvHistory a "SMTP verification started"]) ++ events s)
    as Hev.
  { intros hist _. rewrite He5, He4, He3, He2, He1. simpl. by rewrite <- ?app_assoc. }
  destruct (is_deliverable sr) eqn:Hdel; [destruct b|case_bool_decide as Hmu];
    mrun_all; intros [= <- <-]; state_simpl;
    [exists true|exists false|exists b|exists b];
    eexists mid, new_v, sr, mx, rep, _;
    (split; [apply Hev, app_nil_r|]); (split; [done|]); (split; [done|]);
    (split; [done|]); (split; [done|]); (split; [done|]); (split; [rewrite <- Hsplit; exact Hextra|]);
    unfold deref, deref_dict, smtp_verdict; state_simpl;
    rewrite !list_lookup_middle by done; rewrite Hdel;
    rewrite ?(bool_decide_eq_true_2 _ Hmu), ?(bool_decide_eq_false_2 _ Hmu);
    (split; [done|]); intros; try done;
    eexists; (split; [reflexivity|]); rewrite list_lookup_middle by done;
    cbn [default from_option id];
    by rewrite !lookup_insert_ne, lookup_insert_eq by done.
Qed.

(** The same for [_verify_custom_domain_email]. *)
Lemma _verify_custom_domain_email_run a p d mxs s r s' :
  mxs ≠ [] →
  _verify_custom_domain_email cfg w a p d mxs s = Ok r s' →
  ∃ l (b : bool) mid new_v sr mx rep hist,
    r = Some l ∧
    events s' = hist :: new_v ++ (if b then [EvHistory a custom_catch_all_detected] else [])
                  ++ mid ++
                  EvHistory a "Using generic verification order for unknown provider"
                  :: events s ∧
    quiet custom_catch_all_detected hist = true ∧
    Forall (λ e, not_history custom_catch_all_detected e = true) new_v ∧
    Forall (λ e, not_history custom_catch_all_detected e = true) mid ∧
    last_smtp new_v = Some (mx, a, rep) ∧ decided rep sr ∧
    (category (deref l s'), reason (deref l s')) = smtp_verdict b sr ∧
    ∃ s3, check_catch_all cfg w d
            (set_events
               (cons (EvHistory a "Using generic verification order for unknown provider"))
               s) = Ok b s3.
Proof.
  intros Hne. unfold _verify_custom_domain_email. mrun.
  match goal with |- context [check_catch_all cfg w d ?s0] =>
    pose proof (check_catch_all_frame cfg w (not_history custom_catch_all_detected)
                  ltac:(done) ltac:(done) d eq_refl s0) as Hc;
    destruct (check_catch_all cfg w d s0) as [b s3|] eqn:Hcc; [|done]
  end.
  apply probe_frame_events in Hc as (mid & He3 & HF3). revert He3. mrun. intros He3.
  assert (∃ b0, b0 = b) as [b0 Hb0] by eauto.
  destruct b; mrun;
       match goal with |- context [verify_smtp w a mxs ?s4] =>
         pose proof (verify_smtp_frame w (not_history custom_catch_all_detected)
                       ltac:(done) ltac:(done) a mxs s4) as Hv;
         destruct (verify_smtp w a mxs s4) as [sr s5|] eqn:Hvs; [|done]
       end;
       apply probe_frame_events in Hv as (new_v & He5 & HF5); revert He5; mrun; intros He5;
       (apply verify_smtp_spec in Hvs as (new_v' & mx & rep & He5' & Hl & Hdec); [|done]);
       assert (new_v' = new_v) as ->
         by (eapply app_inv_tail; etrans; [symmetry; exact He5'|exact He5]);
       unfold cache_and_save, save_result, smtp_verdict;
       (destruct (is_deliverable sr) eqn:Hdel; [|case_bool_decide as Hmu]);
       mrun_all; intros [= <- <-];
       eexists _, b0, mid, new_v, sr, mx, rep, _; subst b0;
       (split; [reflexivity|]); state_simpl;
       (split; [rewrite He5, He3; simpl; by rewrite <- ?app_assoc|]);
       repeat (split; [done|]);
       unfold deref; state_simpl; rewrite list_lookup_middle by done; rewrite Hdel;
       rewrite ?(bool_decide_eq_true_2 _ Hmu), ?(bool_decide_eq_false_2 _ Hmu);
       repeat split; try done; eexists; reflexivity.
Qed.
End smtp_run.

Lemma new_events_app s s' new : events s' = new ++ events s → new_events s s' = new.
Proof.
  intros He. unfold new_events. rewrite He, length_app.
  replace (List.length new + List.length (events s) - List.length (events s))%nat
    with (List.length new) by lia.
  by rewrite take_app_length.
Qed.

Lemma quiet_not_smtp msg e : quiet msg e = true → not_smtp e = true.
Proof. unfold quiet. by intros [? ?]%andb_true_iff. Qed.

Lemma last_smtp_cons_quiet msg e l : quiet msg e = true → last_smtp (e :: l) = last_smtp l.
Proof. by destruct e. Qed.

Lemma string_get_lt n s : (n < String.length s)%nat → ∃ c, String.get n s = Some c.
Proof.
  revert n. induction s as [|c s IH]; intros [|n]; simpl; intros Hn; try lia; eauto.
  apply IH. lia.
Qed.

Lemma random_choices_length draw pop k :
  pop ≠ EmptyString → String.length (random_choices draw pop k) = k.
Proof.
  intros Hpop. unfold random_choices. generalize 0%nat.
  induction k as [|k IH]; intros st; simpl; [done|].
  destruct (string_get_lt (draw st `mod` String.length pop) pop) as [c ->].
  { apply Nat.mod_upper_bound. destruct pop; simpl; [done|lia]. }
  simpl. by rewrite IH.
Qed.

Section smtp_claims.
Context (cfg : Settings) (w : World).

(** On a domain that accepts the random probe, with the detection on and
    the mail hosts in the cache, [check_catch_all] answers yes. *)
Lemma check_catch_all_accepting d m0 mxs s b s' :
  catch_all_detection cfg = true → random_probe_accepted w d →
  mx_cache s !! d = Some (m0 :: mxs) →
  check_catch_all cfg w d s = Ok b s' → b = true.
Proof.
  intros Hdet Hacc Hc. unfold check_catch_all. rewrite Hdet. cbn [negb].
  unfold get_mx_records. cbv zeta. mrun_all. rewrite Hc. mrun_all.
  unfold verify_smtp. cbn [smtp_mx_loop]. unfold max_retries. cbn [smtp_attempts].
  cbv zeta. mrun_all.
  match goal with |- context [smtp_session w ?t m0 (?rnd +:+ "@" +:+ d)] =>
    destruct (Hacc t m0 rnd) as [msg ->]; [by apply random_choices_length|]
  end.
  simpl. mrun. by intros [= <- _].
Qed.


End smtp_claims.

Lemma run_history_then {A} a m (k : unit → M A) s :
  (add_to_history a m ≫= k) s = k tt (set_events (cons (EvHistory a m)) s).
Proof. reflexivity. Qed.

Lemma run_ret_then {A B} (x : A) (k : A → M B) s : (mret x ≫= k) s = k x s.
Proof. reflexivity. Qed.

Lemma rate_limit_block_then {A} probe a d (k : unit → M A) s :
  (∀ u, preserves (probe_frame not_limit_check) (k u)) →
  ∃ later,
    events (res_state ((rate_limit_block probe a d ≫= k) s)) =
      later ++ block_events probe a d s ++ events s ∧
    Forall (λ e, not_limit_check e = true) later.
Proof.
  intros Hk. unfold rate_limit_block, block_events, limiter_is_rate_limited.
  rewrite !bind_run. cbv zeta.
  destruct (is_rate_limited (clock s) d (rate_limiter s)) as [[] rl'] eqn:Hr;
    cbn [fst snd]; mrun_all;
    match goal with |- context [k tt ?s1] =>
      destruct (probe_frame_events _ _ _ (Hk tt s1)) as (later & He & HF);
      exists later; rewrite He; state_simpl; split; [|done]
    end.
  - reflexivity.
  - reflexivity.
Qed.

Section blocks.
Context (cfg : Settings) (w : World).

Lemma get_mx_records_no_check d :
  preserves (probe_frame not_limit_check) (get_mx_records w d).
Proof. by apply get_mx_records_frame. Qed.

Lemma check_catch_all_no_check d :
  preserves (probe_frame not_limit_check) (check_catch_all cfg w d).
Proof. by apply check_catch_all_frame. Qed.

Lemma verify_smtp_no_check a mxs :
  preserves (probe_frame not_limit_check) (verify_smtp w a mxs).
Proof. by apply verify_smtp_frame. Qed.

Lemma api_attempts_no_check n a :
  preserves (probe_frame not_limit_check) (api_attempts w n a).
Proof. induction n as [|n IH]; simpl; frame. Qed.

Lemma verify_email_smtp_block a loc d s :
  py_split "@" a = [loc; d] →
  checks_limit_once "SMTP verification" a d [EvHistory a "SMTP verification started"] s
    (res_state (verify_email_smtp cfg w a s)).
Proof.
  intros Hs. unfold checks_limit_once, verify_email_smtp, split_email. rewrite Hs.
  cbv beta iota. rewrite run_history_then. cbv beta. rewrite run_ret_then. cbv beta iota.
  match goal with |- context [(rate_limit_block ?p a d ≫= ?k) ?s0] =>
    destruct (rate_limit_block_then p a d k s0) as (later & He & HF)
  end.
  { intros _. frame;
      eauto using get_mx_records_no_check, check_catch_all_no_check, verify_smtp_no_check. }
  exists later. split; [|done]. apply new_events_app. rewrite He. state_simpl.
  by rewrite <- ?app_assoc.
Qed.

Lemma verify_microsoft_api_block a loc d s :
  py_split "@" a = [loc; d] → microsoft_api cfg = true →
  checks_limit_once "Microsoft API verification" a d
    [EvHistory a "Microsoft API verification started"] s
    (res_state (verify_microsoft_api cfg w a s)).
Proof.
  intros Hs Hapi. unfold checks_limit_once, verify_microsoft_api, split_email.
  rewrite Hs, Hapi. cbn [negb].
  cbv beta iota. rewrite run_history_then. cbv beta. rewrite run_ret_then. cbv beta iota.
  match goal with |- context [(rate_limit_block ?p a d ≫= ?k) ?s0] =>
    destruct (rate_limit_block_then p a d k s0) as (later & He & HF)
  end.
  { intros _. frame; eauto using api_attempts_no_check. }
  exists later. split; [|done]. apply new_events_app. rewrite He. state_simpl.
  by rewrite <- ?app_assoc.
Qed.

Lemma _verify_login_block a loc d prov url browser s :
  py_split "@" a = [loc; d] →
  checks_limit_once "Login verification" a d [] s
    (res_state (_verify_login w a prov url browser s)).
Proof.
  intros Hs. unfold checks_limit_once, _verify_login, split_email. rewrite Hs.
  cbv beta iota. rewrite run_ret_then. cbv beta iota.
  match goal with |- context [(rate_limit_block ?p a d ≫= ?k) ?s0] =>
    destruct (rate_limit_block_then p a d k s0) as (later & He & HF)
  end.
  { intros _. frame. }
  exists later. split; [|done]. apply new_events_app. rewrite He.
  by rewrite app_nil_r, <- ?app_assoc.
Qed.

Lemma limit_checks_app l1 l2 : limit_checks (l1 ++ l2) = limit_checks l1 ++ limit_checks l2.
Proof. apply omap_app. Qed.

Lemma limit_checks_none l :
  Forall (λ e, not_limit_check e = true) l → limit_checks l = [].
Proof. induction 1 as [|[] l H HF IH]; simpl in *; done. Qed.

Lemma checks_limit_once_count probe a d started s s' :
  checks_limit_once probe a d started s s' →
  Forall (λ e, not_limit_check e = true) started →
  limit_checks (new_events s s') =
    [(d, (is_rate_limited (clock s) d (rate_limiter s)).1)].
Proof.
  intros (later & -> & HF) Hst. unfold block_events.
  rewrite !limit_checks_app, (limit_checks_none later), (limit_checks_none started) by done.
  simpl. rewrite limit_checks_app.
  destruct (is_rate_limited (clock s) d (rate_limiter s)).1; done.
Qed.

(** C7, amended: each of the three probes ([verify_email_smtp],
    [verify_microsoft_api] when the API is enabled, [_verify_login]), run
    on an address [loc@d], asks the limiter about [d] once, at its start;
    when the answer is yes it writes a history entry and sleeps
    [get_backoff_time d] seconds, once; then it records the request; and
    nothing later in the run asks the limiter again. *)
Theorem probe_sleeps_without_recheck (a loc d : string) (s : State) :
  py_split "@" a = [loc; d] →
  checks_limit_once "SMTP verification" a d [EvHistory a "SMTP verification started"] s
    (res_state (verify_email_smtp cfg w a s)) ∧
  (microsoft_api cfg = true →
   checks_limit_once "Microsoft API verification" a d
     [EvHistory a "Microsoft API verification started"] s
     (res_state (verify_microsoft_api cfg w a s))) ∧
  (∀ prov url browser,
     checks_limit_once "Login verification" a d [] s
       (res_state (_verify_login w a prov url browser s))) ∧
  limit_checks (new_events s (res_state (verify_email_smtp cfg w a s))) =
    [(d, (is_rate_limited (clock s) d (rate_limiter s)).1)].
Proof.
  intros Hs. split; [by eapply verify_email_smtp_block|].
  split; [intros; by eapply verify_microsoft_api_block|].
  split; [intros; by eapply _verify_login_block|].
  eapply checks_limit_once_count; [by eapply verify_email_smtp_block|].
  by constructor.
Qed.
End blocks.

(** The property on a domain whose window is full. *)
Lemma probe_sleeps_without_recheck_witness :
  checks_limit_once "SMTP verification" "u@corp.example" "corp.example"
    [EvHistory "u@corp.example" "SMTP verification started"] saturated_state
    (res_state (verify_email_smtp default_settings rejecting_world "u@corp.example"
                  saturated_state)).
Proof.
  refine (proj1 (probe_sleeps_without_recheck default_settings rejecting_world
                   "u@corp.example" "u" "corp.example" saturated_state _)).
  vm_compute. reflexivity.
Defined.

(** Counterexample to C7 as the specification states it: with ten
    requests in the window and no backoff the limiter says yes, the
    probe sleeps for 0 seconds, does not ask again, and goes on to talk
    to the mail host. *)
Lemma saturated_window_no_recheck :
  ¬ rechecks_after_sleep default_settings rejecting_world ∧
  limit_checks (new_events saturated_state after_saturated_probe) =
    [("corp.example", true)] ∧
  sleeps (new_events saturated_state after_saturated_probe) = [0] ∧
  last_smtp (new_events saturated_state after_saturated_probe) =
    Some ("mx.corp.example", "u@corp.example", RcptReply 550 "5.1.1 user unknown").
Proof.
  split.
  { intros H.
    specialize (H "u@corp.example" "u" "corp.example" saturated_state).
    vm_compute in H. specialize (H eq_refl eq_refl). lia. }
  split; [vm_compute; reflexivity|]. split; vm_compute; reflexivity.
Qed.






(** The property on an empty batch. *)
Lemma get_task_status_total_witness :
  ∃ st, get_task_status "task-1" empty_batch_state = Ok (Some st) empty_batch_state ∧
        ts_progress st = PyInt 0.
Proof.
  destruct (get_task_status_total "task-1" empty_batch_state) as (r & Hr & _ & H0).
  edestruct H0 as (st & Hst & Hp); [vm_compute; reflexivity|vm_compute; reflexivity|].
  exists st. split; [|exact Hp]. rewrite <- Hst. exact Hr.
Defined.


Lemma usec_pos : 0 < usec.
Proof. by unfold usec. Qed.



(** X3: a query made when the domain is not in backoff cleans the
    limiter up: an expired backoff is forgotten, the timestamps kept for
    the domain are those of the old ones that lie in the window, in their
    order, and the configuration is as it was.  A query made in backoff
    changes nothing. *)
Theorem is_rate_limited_cleans (rl : RateLimiter) (now : Z) (d : string) :
  (in_backoff rl now d → is_rate_limited now d rl = (true, rl)) ∧
  (¬ in_backoff rl now d →
   let rl' := (is_rate_limited now d rl).2 in
   backoff_times rl' !! d = None ∧ get_backoff_time now d rl' = 0 ∧
   is_Some (request_history rl' !! d) ∧
   history_of rl' d `sublist_of` history_of rl d ∧
   (∀ t, t ∈ history_of rl' d ↔ t ∈ history_of rl d ∧ in_window rl now t) ∧
   max_requests rl' = max_requests rl ∧ time_window rl' = time_window rl).
Proof.
  unfold in_backoff, is_rate_limited, history_of, in_window, get_backoff_time. split.
  - intros (until & -> & Hlt). by rewrite bool_decide_eq_true_2.
  - intros Hnb.
    assert (match backoff_times rl !! d with
            | Some until => bool_decide (now < until)
            | None => false
            end = false) as ->.
    { destruct (backoff_times rl !! d) as [until|] eqn:Hb; [|done].
      apply bool_decide_eq_false_2. intros Hlt. apply Hnb. eauto. }
    destruct (request_history rl !! d) as [hist|] eqn:Hh; simpl;
      rewrite ?Hh; simpl; rewrite !lookup_delete_eq, !lookup_insert_eq; simpl.
    + split; [done|]. split; [done|]. split; [done|]. split; [apply sublist_filter|].
      split; [|done]. intros t. rewrite list_elem_of_filter. tauto.
    + split; [done|]. split; [done|]. split; [done|]. split; [done|].
      split; [|done]. intros t. split; [by intros ?%elem_of_nil|by intros [?%elem_of_nil _]].
Qed.

(** The property on the limiter the engine starts with. *)
Lemma is_rate_limited_cleans_witness :
  backoff_times (is_rate_limited 0 "gmail.com" default_rate_limiter).2 !! "gmail.com" = None ∧
  is_Some (request_history (is_rate_limited 0 "gmail.com" default_rate_limiter).2
             !! "gmail.com").
Proof.
  destruct (proj2 (is_rate_limited_cleans default_rate_limiter 0 "gmail.com"))
    as (H1 & _ & H2 & _).
  { intros (until & Hu & _). vm_compute in Hu. discriminate Hu. }
  split; [exact H1|exact H2].
Defined.

(** X4: the limiter keeps its domains apart: a query, a recorded request
    or a backoff for one domain changes neither the verdict nor the
    remaining backoff of another. *)
Theorem limiter_domains_independent (rl : RateLimiter) (now t seconds : Z)
    (d d' : string) :
  d ≠ d' →
  (is_rate_limited t d' (is_rate_limited now d rl).2).1 = (is_rate_limited t d' rl).1 ∧
  (is_rate_limited t d' (add_request now d rl)).1 = (is_rate_limited t d' rl).1 ∧
  (is_rate_limited t d' (set_backoff now d seconds rl)).1 = (is_rate_limited t d' rl).1 ∧
  get_backoff_time t d' (is_rate_limited now d rl).2 = get_backoff_time t d' rl ∧
  get_backoff_time t d' (add_request now d rl) = get_backoff_time t d' rl ∧
  get_backoff_time t d' (set_backoff now d seconds rl) = get_backoff_time t d' rl.
Proof.
  intros Hne.
  assert (∀ rl', backoff_times rl' !! d' = backoff_times rl !! d' →
                 request_history rl' !! d' = request_history rl !! d' →
                 max_requests rl' = max_requests rl → time_window rl' = time_window rl →
                 (is_rate_limited t d' rl').1 = (is_rate_limited t d' rl).1 ∧
                 get_backoff_time t d' rl' = get_backoff_time t d' rl) as Hsame.
  { intros rl' Hb Hh Hm Hw. unfold is_rate_limited, get_backoff_time.
    rewrite Hb. split; [|done].
    destruct (backoff_times rl !! d') as [until|]; simpl.
    - case_bool_decide; [done|]. simpl. rewrite Hh.
      destruct (request_history rl !! d'); simpl; [|done]. by rewrite Hm, Hw.
    - simpl. rewrite Hh. destruct (request_history rl !! d'); simpl; [|done].
      by rewrite Hm, Hw. }
  assert (backoff_times (is_rate_limited now d rl).2 !! d' = backoff_times rl !! d' ∧
          request_history (is_rate_limited now d rl).2 !! d' = request_history rl !! d' ∧
          max_requests (is_rate_limited now d rl).2 = max_requests rl ∧
          time_window (is_rate_limited now d rl).2 = time_window rl) as (Hq1 & Hq2 & Hq3 & Hq4).
  { unfold is_rate_limited.
    destruct (match backoff_times rl !! d with
              | Some until => bool_decide (now < until) | None => false end); [done|].
    destruct (request_history _ !! d) eqn:Hh; simpl in *; rewrite ?Hh; simpl;
      by rewrite lookup_delete_ne, lookup_insert_ne by done. }
  destruct (Hsame _ Hq1 Hq2 Hq3 Hq4) as [-> ->].
  destruct (Hsame (add_request now d rl)) as [-> ->];
    [done|by unfold add_request; simpl; rewrite lookup_insert_ne|done|done|].
  destruct (Hsame (set_backoff now d seconds rl)) as [-> ->];
    [by unfold set_backoff; simpl; rewrite lookup_insert_ne|done|done|done|].
  done.
Qed.

(** The property on two mail domains. *)
Lemma limiter_domains_independent_witness :
  (is_rate_limited 0 "gmail.com" (set_backoff 0 "outlook.com" 60 default_rate_limiter)).1 =
    (is_rate_limited 0 "gmail.com" default_rate_limiter).1.
Proof.
  refine (proj1 (proj2 (proj2 (limiter_domains_independent default_rate_limiter 0 0 60
                                "outlook.com" "gmail.com" _)))).
  discriminate.
Defined.

Lemma add_requests_spec d ts rl :
  history_of (add_requests d ts rl) d = history_of rl d ++ ts ∧
  backoff_times (add_requests d ts rl) = backoff_times rl ∧
  max_requests (add_requests d ts rl) = max_requests rl ∧
  time_window (add_requests d ts rl) = time_window rl ∧
  (ts ≠ [] → is_Some (request_history (add_requests d ts rl) !! d)).
Proof.
  unfold add_requests, history_of. revert rl.
  induction ts as [|t ts IH]; intros rl; simpl.
  - by rewrite app_nil_r.
  - destruct (IH (add_request t d rl)) as (Hh & Hb & Hm & Hw & Hs).
    rewrite Hh, Hb, Hm, Hw. unfold add_request at 2 3 4 5. simpl.
    rewrite lookup_insert_eq. simpl. rewrite <- app_assoc. repeat split; try done.
    intros _. destruct ts as [|t' ts]; [|by apply Hs].
    simpl. unfold add_request. simpl. by rewrite lookup_insert_eq.
Qed.

(** X5: the limiter counts what [add_request] records: after requests to
    a domain that all lie in the window, and outside a backoff, the domain
    is limited exactly when the requests in the window, old and new, are
    [max_requests] or more. *)
Theorem requests_fill_window (rl : RateLimiter) (now : Z) (d : string) (ts : list Z) :
  ¬ in_backoff rl now d → ts ≠ [] → Forall (in_window rl now) ts →
  (is_rate_limited now d (add_requests d ts rl)).1 =
    bool_decide (max_requests rl ≤ window_count rl now d + Z.of_nat (List.length ts)).
Proof.
  intros Hnb Hne Hin.
  destruct (add_requests_spec d ts rl) as (Hh & Hb & Hm & Hw & Hs).
  destruct (Hs Hne) as [hist Hhist].
  unfold history_of in Hh. rewrite Hhist in Hh. simpl in Hh.
  unfold is_rate_limited, window_count. rewrite Hb.
  assert (match backoff_times rl !! d with
          | Some until => bool_decide (now < until)
          | None => false
          end = false) as ->.
  { destruct (backoff_times rl !! d) as [until|] eqn:Hbk; [|done].
    apply bool_decide_eq_false_2. intros Hlt. apply Hnb. exists until. eauto. }
  simpl. rewrite Hhist. simpl. rewrite Hm, Hw, Hh, filter_app, length_app.
  assert (filter (λ t, now - t < time_window rl * usec) ts = ts) as ->.
  { clear -Hin. induction Hin as [|t ts Ht _ IH]; [done|].
    rewrite filter_cons_True by exact Ht. by rewrite IH. }
  by rewrite Nat2Z.inj_add.
Qed.

(** The property on the tenth request of a second. *)
Lemma requests_fill_window_witness :
  (is_rate_limited usec "corp.example"
     (add_requests "corp.example" (replicate 10 0) default_rate_limiter)).1 =
    bool_decide (max_requests default_rate_limiter ≤
                 window_count default_rate_limiter usec "corp.example" +
                 Z.of_nat (List.length (replicate 10 0))).
Proof.
  refine (requests_fill_window default_rate_limiter usec "corp.example" (replicate 10 0)
            _ _ _).
  - intros (until & Hu & _). vm_compute in Hu. discriminate Hu.
  - discriminate.
  - apply Forall_replicate. unfold in_window, usec. simpl. lia.
Defined.

Lemma find_file_order (e : string) (D : DataFiles) (c : Category) :
  check_email_in_data e D = Some c ↔
  e ∈ data_file c D ∧ ∀ c', (file_order c' < file_order c)%nat → e ∉ data_file c' D.
Proof.
  unfold check_email_in_data. simpl.
  repeat case_bool_decide; split.
  all: try (intros [= <-]; split; [done|]; intros [] Hlt; simpl in Hlt; try lia; done).
  all: try discriminate.
  all: try (intros [Hin Hfirst]; destruct c; try done; exfalso;
            first [ by apply (Hfirst VALID); simpl; [lia|]
                  | by apply (Hfirst INVALID); simpl; [lia|]
                  | by apply (Hfirst RISKY); simpl; [lia|] ]).
Qed.

Lemma check_email_in_data_None (e : string) (D : DataFiles) :
  check_email_in_data e D = None ↔ ∀ c, e ∉ data_file c D.
Proof.
  unfold check_email_in_data. simpl.
  repeat case_bool_decide; split; try done.
  all: try (intros Hall; exfalso;
            first [ by apply (Hall VALID) | by apply (Hall INVALID)
                  | by apply (Hall RISKY) | by apply (Hall CUSTOM) ]).
  intros _ []; done.
Qed.

Lemma data_file_add (e x : string) (c c' : Category) (D : DataFiles) :
  e ∈ data_file c' (add_email_to_data x c D) ↔
  e ∈ data_file c' D ∨ (e = x ∧ c' = c).
Proof.
  unfold add_email_to_data. case_bool_decide as Hx; simpl.
  - split; [by left|]. intros [?|[-> ->]]; done.
  - destruct c, c'; simpl; rewrite ?elem_of_app, ?list_elem_of_singleton;
      split; try (intros [?|?]; eauto; fail); try (intros [?|[? ?]]; eauto; done);
      try (by left).
Qed.



Lemma py_split_nonempty sep s : py_split sep s ≠ [].
Proof.
  destruct s as [|x r]; simpl; [done|].
  destruct (Ascii.eqb x sep); [done|]. by destruct (py_split sep r).
Qed.

Lemma py_split_snoc sep c s l0 x :
  c ≠ sep → py_split sep s = l0 ++ [x] →
  py_split sep (s +:+ String c EmptyString) = l0 ++ [x +:+ String c EmptyString].
Proof.
  intros Hc. revert l0 x. induction s as [|y r IH]; intros l0 x; simpl.
  - destruct l0 as [|? [|? ?]]; intros [= <-]; simpl.
    by rewrite (proj2 (Ascii.eqb_neq c sep) Hc).
  - destruct (Ascii.eqb y sep).
    + destruct l0 as [|h l0]; simpl.
      { intros [= _ Hr]. by apply py_split_nonempty in Hr. }
      intros [= <- Hr]. by rewrite (IH _ _ Hr).
    + destruct (py_split sep r) as [|h t] eqn:Hr; [by apply py_split_nonempty in Hr|].
      destruct t as [|h' t'].
      * intros Heq. destruct l0 as [|? [|? ?]]; simplify_eq/=.
        by rewrite (IH [] h eq_refl).
      * intros Heq. destruct l0 as [|h0 l0]; simplify_eq/=.
        by rewrite (IH (h :: l0) x) by (simpl; by f_equal).
Qed.

Lemma strip_final_newline_Some s body :
  strip_final_newline s = Some body → s = body +:+ String "010" EmptyString.
Proof.
  revert body. induction s as [|x r IH]; intros body; simpl; [done|].
  destruct r as [|y r'].
  - destruct (Ascii.eqb x "010") eqn:Hx; [|done].
    apply Ascii.eqb_eq in Hx as ->. by intros [= <-].
  - destruct (strip_final_newline (String y r')) as [b|]; simpl; [|done].
    intros [= <-]. rewrite (IH b eq_refl). reflexivity.
Qed.

Lemma rsplit_dot_mem s a b : rsplit_dot s = Some (a, b) → string_mem "." s = true.
Proof.
  revert a b. induction s as [|x r IH]; intros a b; simpl; [done|].
  destruct (rsplit_dot r) as [[a' b']|].
  - intros _. rewrite (IH a' b' eq_refl). by rewrite orb_true_r.
  - destruct (Ascii.eqb x ".") eqn:Hx; [|done]. by intros _.
Qed.

Lemma string_mem_app c s t : string_mem c s = true → string_mem c (s +:+ t) = true.
Proof.
  induction s as [|x r IH]; simpl; [done|].
  intros [->|Hr]%orb_true_iff; [done|]. rewrite IH by done. by rewrite orb_true_r.
Qed.

Lemma fullmatch_address_split s :
  fullmatch_address s = true →
  ∃ loc d, py_split "@" s = [loc; d] ∧ loc ≠ EmptyString ∧ string_mem "." d = true.
Proof.
  unfold fullmatch_address.
  destruct (py_split "@" s) as [|loc [|d [|? ?]]]; try done.
  intros [[Hne _]%andb_true_iff Hd]%andb_true_iff. exists loc, d.
  split; [done|]. split; [by destruct loc|].
  destruct (rsplit_dot d) as [[dom tld]|] eqn:Hr; [|done]. by eapply rsplit_dot_mem.
Qed.

(** X7: an address that [validate_format] accepts has one ['@']: [split('@')]
    gives exactly two parts, so the unpacking
    [_, domain = email.split('@')] that follows it in [verify_email]
    cannot raise; the local part is not empty and the domain has a dot. *)
Theorem validate_format_splits (a : string) :
  validate_format a = true →
  ∃ loc d, py_split "@" a = [loc; d] ∧ split_email a = mret (loc, d) ∧
           loc ≠ EmptyString ∧ string_mem "." d = true.
Proof.
  unfold validate_format. intros [Hf|Hn]%orb_true_iff.
  - destruct (fullmatch_address_split a Hf) as (loc & d & Hs & Hl & Hd).
    exists loc, d. unfold split_email. by rewrite Hs.
  - destruct (strip_final_newline a) as [body|] eqn:Hb; [|done].
    destruct (fullmatch_address_split body Hn) as (loc & d & Hs & Hl & Hd).
    apply strip_final_newline_Some in Hb as ->.
    exists loc, (d +:+ String "010" EmptyString).
    assert (py_split "@" (body +:+ String "010" EmptyString) =
            [loc; d +:+ String "010" EmptyString]) as Hs'
      by (by apply (py_split_snoc "@" "010" body [loc] d)).
    unfold split_email. rewrite Hs'. repeat split; try done. by apply string_mem_app.
Qed.

(** The property on an address with a newline after it, which the
    pattern accepts. *)
Lemma validate_format_splits_witness :
  ∃ loc d, py_split "@" (String.append "user@corp.example" (String "010" EmptyString)) =
             [loc; d] ∧
           string_mem "." d = true.
Proof.
  destruct (validate_format_splits
              (String.append "user@corp.example" (String "010" EmptyString)))
    as (loc & d & Hs & _ & _ & Hd).
  { vm_compute. reflexivity. }
  exists loc, d. split; [exact Hs|exact Hd].
Defined.

Section lookups.
Context (cfg : Settings) (w : World).

Lemma get_mx_records_hit d s c :
  mx_cache s !! d = Some c → get_mx_records w d s = Ok c s.
Proof. intros Hc. unfold get_mx_records. mrun. by rewrite Hc. Qed.

Lemma get_mx_records_miss d s :
  mx_cache s !! d = None →
  ∃ s', get_mx_records w d s =
          Ok (default [] (map (λ x, py_lower (py_rstrip_dot x)) <$>
                            dns_resolve w (tick s) d)) s' ∧
        mx_cache s' = match dns_resolve w (tick s) d with
                      | Some recs =>
                          <[d := map (λ x, py_lower (py_rstrip_dot x)) recs]> (mx_cache s)
                      | None => mx_cache s
                      end.
Proof.
  intros Hc. unfold get_mx_records, interact. mrun. rewrite Hc. mrun.
  destruct (dns_resolve w (tick s) d) as [recs|]; mrun; by eexists.
Qed.

(** X8: [get_mx_records] never raises, and what DNS answered is remembered:
    when the call returns mail hosts, the next call for the domain returns
    the same hosts and changes nothing, so no second DNS query is made.  A
    failed resolution returns no host and is not remembered. *)
Theorem get_mx_records_caches (d : string) (s : State) :
  ∃ mxs s',
    get_mx_records w d s = Ok mxs s' ∧
    (mxs ≠ [] → get_mx_records w d s' = Ok mxs s') ∧
    (mx_cache s !! d = None → dns_resolve w (tick s) d = None →
     mxs = [] ∧ mx_cache s' = mx_cache s) ∧
    (∀ d', d' ≠ d → mx_cache s' !! d' = mx_cache s !! d').
Proof.
  destruct (mx_cache s !! d) as [c|] eqn:Hc.
  - exists c, s. rewrite (get_mx_records_hit d s c Hc). by repeat split.
  - destruct (get_mx_records_miss d s Hc) as (s' & Hrun & Hcache).
    eexists _, s'. split; [exact Hrun|].
    destruct (dns_resolve w (tick s) d) as [recs|]; simpl in *.
    + split; [|split; [done|]].
      * intros _. apply get_mx_records_hit. by rewrite Hcache, lookup_insert_eq.
      * intros d' Hne. by rewrite Hcache, lookup_insert_ne.
    + split; [done|]. split; [done|]. intros d' _. by rewrite Hcache.
Qed.

Lemma identify_by_mx_spec d mxs p u s s' :
  identify_by_mx cfg d mxs s = Ok (p, u) s' →
  s' = s ∧ p ∈ mx_providers ∧ (u = None ↔ p = "custom").
Proof.
  unfold mx_providers.
  induction mxs as [|mx rest IH]; simpl.
  - intros [= <- <- <-]. split; [done|]. split; [repeat constructor|done].
  - unfold login_url_of.
    repeat match goal with
           | |- context [if ?b then _ else _] => destruct b
           | |- context [provider_login_urls cfg !! ?k] =>
               destruct (provider_login_urls cfg !! k)
           end; mrun; try done;
      try (intros [= <- <- <-]; split; [done|]; split; [repeat constructor|done]).
Qed.

(** X9: what [identify_provider] returns: for a domain of the login table,
    the domain itself with its URL, without a DNS query or any other
    effect; otherwise one of eight providers read off the MX hosts, or
    ["custom"]; and the login URL is missing exactly for ["custom"]. *)
Theorem identify_provider_result (a loc d p : string) (u : option string) (s s' : State) :
  py_split "@" a = [loc; d] →
  identify_provider cfg w a s = Ok (p, u) s' →
  match provider_login_urls cfg !! d with
  | Some url => p = d ∧ u = Some url ∧ s' = s
  | None => p ∈ mx_providers ∧ (u = None ↔ p = "custom")
  end.
Proof.
  intros Hs. unfold identify_provider, split_email. rewrite Hs. mrun.
  destruct (provider_login_urls cfg !! d) as [url|]; mrun.
  - by intros [= <- <- <-].
  - destruct (get_mx_records w d s) as [mxs s1|]; [|done].
    intros Hrun. by apply identify_by_mx_spec in Hrun as (_ & ? & ?).
Qed.
End lookups.

(** The property on a domain hosted by Google. *)
Lemma identify_provider_result_witness :
  ∃ p u s',
    identify_provider default_settings gmail_world "someone@corp.example"
      (initial_state 0) = Ok (p, u) s' ∧
    p ∈ mx_providers ∧ (u = None ↔ p = "custom").
Proof.
  eexists _, _, _. split; [vm_compute; reflexivity|].
  refine (identify_provider_result default_settings gmail_world "someone@corp.example"
            "someone" "corp.example" _ _ (initial_state 0) _ _ _).
  - vm_compute. reflexivity.
  - vm_compute. reflexivity.
Defined.

Lemma smtp_sessions_app l1 l2 :
  smtp_sessions (l1 ++ l2) = smtp_sessions l1 ++ smtp_sessions l2.
Proof. apply omap_app. Qed.

Lemma sleeps_app l1 l2 : sleeps (l1 ++ l2) = sleeps l1 ++ sleeps l2.
Proof. apply omap_app. Qed.

Lemma sum_list_app l1 l2 : sum_list (l1 ++ l2) = sum_list l1 + sum_list l2.
Proof. unfold sum_list. induction l1 as [|x l1 IH]; simpl; [done|]. rewrite IH. lia. Qed.

Ltac prefix_of l base :=
  match l with
  | base => constr:(@nil Event)
  | ?e :: ?l' => let p := prefix_of l' base in constr:(e :: p)
  end.

Section smtp_more.
Context (cfg : Settings) (w : World).

(** One host: at most three conversations, all with this host about this
    address, and six seconds of sleep at most. *)
Lemma smtp_attempts_budget a mx r0 s :
  ∃ new, events (res_state (smtp_attempts w max_retries a mx r0 s)) = new ++ events s ∧
         Forall (λ x, x = (mx, a)) (smtp_sessions new) ∧
         (List.length (smtp_sessions new) ≤ 3)%nat ∧
         sum_list (sleeps new) ≤ 6 * usec.
Proof.
  unfold max_retries. cbn [smtp_attempts]. mrun_all.
  repeat match goal with
         | |- context [match smtp_session w ?t mx a with _ => _ end] =>
             destruct (smtp_session w t mx a) as [code msg| | |e]; mrun_all
         | |- context [if ?c =? ?k then _ else _] => destruct (c =? k); mrun_all
         | |- context [(?x <? ?y)%nat] =>
             let b := eval vm_compute in (x <? y)%nat in
             change (x <? y)%nat with b; mrun_all
         end;
    match goal with |- ∃ new, ?l = new ++ ?b ∧ _ =>
      let p := prefix_of l b in exists p; split; [reflexivity|]
    end;
    simpl; (split; [repeat constructor|]); (split; [lia|]); unfold usec; lia.
Qed.

Lemma smtp_mx_loop_budget a mxs r0 s :
  ∃ new, events (res_state (smtp_mx_loop w a mxs r0 s)) = new ++ events s ∧
         smtp_budget a mxs 3 (6 * usec) new.
Proof.
  unfold smtp_budget. revert r0 s.
  induction mxs as [|mx rest IH]; intros r0 s; cbn [smtp_mx_loop].
  - exists []. split; [by destruct (smtp_reason r0) as [[]|]|].
    simpl. split; [constructor|]. split; [lia|]. unfold sum_list, usec. simpl. lia.
  - rewrite bind_run.
    destruct (smtp_attempts_budget a mx r0 s) as (n1 & He1 & HF1 & Hl1 & Hs1).
    destruct (smtp_attempts w max_retries a mx r0 s) as [[ret r1] s1|e s1];
      simpl in He1.
    + destruct ret; mrun.
      * exists n1. split; [done|]. split.
        { eapply Forall_impl; [exact HF1|]. intros [? ?] [= -> ->]. simpl.
          split; [done|]. apply list_elem_of_here. }
        simpl. split; [lia|]. unfold usec in *. lia.
      * destruct (IH r1 s1) as (n2 & He2 & HF2 & Hl2 & Hs2).
        exists (n2 ++ n1). split; [by rewrite He2, He1, app_assoc|].
        rewrite smtp_sessions_app, sleeps_app, sum_list_app, Forall_app, length_app.
        split; [split|].
        -- eapply Forall_impl; [exact HF2|]. intros [? ?] [? ?]. split; [done|].
           by apply list_elem_of_further.
        -- eapply Forall_impl; [exact HF1|]. intros [? ?] [= -> ->]. simpl.
           split; [done|]. apply list_elem_of_here.
        -- simpl. split; [lia|]. unfold usec in *. lia.
    + exists n1. split; [done|]. split.
      { eapply Forall_impl; [exact HF1|]. intros [? ?] [= -> ->]. simpl.
        split; [done|]. apply list_elem_of_here. }
      simpl. split; [lia|]. unfold usec in *. lia.
Qed.

(** X10: whatever the mail hosts answer, a run of [verify_smtp] talks to the
    given hosts only and about the given address only, has at most three
    conversations with each host, and sleeps six seconds at most for each
    host; with no host it does nothing. *)
Theorem verify_smtp_budget (a : string) (mxs : list string) (s : State) :
  smtp_budget a mxs 3 (6 * usec) (new_events s (res_state (verify_smtp w a mxs s))) ∧
  (mxs = [] → res_state (verify_smtp w a mxs s) = s).
Proof.
  unfold verify_smtp. destruct mxs as [|mx rest].
  - simpl. split; [|done]. unfold new_events. rewrite Nat.sub_diag. simpl.
    unfold smtp_budget. simpl. split; [constructor|]. split; [lia|].
    unfold sum_list, usec. simpl. lia.
  - destruct (smtp_mx_loop_budget a (mx :: rest) smtp_result_init s) as (new & He & Hb).
    split; [|done]. by rewrite (new_events_app _ _ _ He).
Qed.

Lemma smtp_attempts_reason n a mx r0 s ret r s' :
  smtp_attempts w n a mx r0 s = Ok (ret, r) s' →
  if ret then is_deliverable r = true ∨ smtp_reason r = Some "Mailbox unavailable"
  else is_deliverable r = is_deliverable r0 ∧
       (smtp_reason r = smtp_reason r0 ∨
        ∃ why, smtp_reason r = Some why ∧ why ≠ EmptyString).
Proof.
  revert s r0. induction n as [|n IH]; intros s r0; simpl; mrun_all.
  - intros [= <- <- <-]. eauto.
  - destruct (smtp_session w (tick s) mx a) as [code msg| | |e]; mrun_all.
    + destruct (code =? 250); [|destruct (code =? 550)]; intros [= <- <- <-]; simpl; eauto.
    + destruct (max_retries - n <? max_retries)%nat; mrun_all.
      * intros Hrun. by apply IH in Hrun.
      * intros [= <- <- <-]. eauto.
    + intros [= <- <- <-]. eauto.
    + done.
Qed.

Lemma smtp_mx_loop_reason a mxs r0 s r s' :
  is_deliverable r0 = false →
  smtp_mx_loop w a mxs r0 s = Ok r s' →
  is_deliverable r = false →
  ∃ why, smtp_reason r = Some why ∧ why ≠ EmptyString.
Proof.
  revert r0 s. induction mxs as [|mx rest IH]; intros r0 s Hd; cbn [smtp_mx_loop].
  - destruct (smtp_reason r0) as [[|c why]|] eqn:Hr; intros [= <- <-] _; simpl; eauto.
  - rewrite bind_run.
    destruct (smtp_attempts w max_retries a mx r0 s) as [[ret r1] s1|] eqn:Hatt; [|done].
    apply smtp_attempts_reason in Hatt. destruct ret; mrun.
    + intros [= <- <-] Hnd. destruct Hatt as [Hdel|Hmu]; [congruence|].
      rewrite Hmu. by eexists.
    + destruct Hatt as [Hdel _]. apply IH. congruence.
Qed.

Lemma smtp_attempts_check n a mx r0 s ret r s' :
  smtp_check r0 = is_deliverable r0 →
  smtp_attempts w n a mx r0 s = Ok (ret, r) s' → smtp_check r = is_deliverable r.
Proof.
  revert s r0. induction n as [|n IH]; intros s r0 H0; simpl; mrun_all.
  - by intros [= <- <- <-].
  - destruct (smtp_session w (tick s) mx a) as [code msg| | |e]; mrun_all.
    + destruct (code =? 250); [|destruct (code =? 550)]; by intros [= <- <- <-].
    + destruct (max_retries - n <? max_retries)%nat; mrun_all.
      * by apply IH.
      * by intros [= <- <- <-].
    + by intros [= <- <- <-].
    + done.
Qed.

Lemma smtp_mx_loop_check a mxs r0 s r s' :
  smtp_check r0 = is_deliverable r0 →
  smtp_mx_loop w a mxs r0 s = Ok r s' → smtp_check r = is_deliverable r.
Proof.
  revert r0 s. induction mxs as [|mx rest IH]; intros r0 s H0; cbn [smtp_mx_loop].
  - by destruct (smtp_reason r0) as [[|c why]|]; intros [= <- <-].
  - rewrite bind_run.
    destruct (smtp_attempts w max_retries a mx r0 s) as [[ret r1] s1|] eqn:Hatt; [|done].
    apply smtp_attempts_check in Hatt; [|done]. destruct ret; mrun.
    + by intros [= <- <-].
    + by apply IH.
Qed.

(** X11: what [verify_smtp] reports: the address is deliverable exactly when
    the last conversation of the run ended with the reply 250 to RCPT TO;
    [smtp_check] says the same; and an outcome that is not deliverable
    always carries a reason that is not empty. *)
Theorem verify_smtp_outcome (a : string) (mxs : list string) (s s' : State)
    (r : SmtpResult) :
  verify_smtp w a mxs s = Ok r s' →
  (is_deliverable r = true ↔
   ∃ mx msg, last_smtp (new_events s s') = Some (mx, a, RcptReply 250 msg)) ∧
  smtp_check r = is_deliverable r ∧
  (is_deliverable r = false → ∃ why, smtp_reason r = Some why ∧ why ≠ EmptyString).
Proof.
  intros Hrun. destruct mxs as [|mx0 rest].
  - unfold verify_smtp in Hrun. injection Hrun as <- <-.
    unfold new_events. rewrite Nat.sub_diag. simpl. split; [|split; [done|]].
    + split; [done|]. by intros (? & ? & ?).
    + intros _. by eexists.
  - split; [|split; [by eapply smtp_mx_loop_check; [|exact Hrun]|]].
    + pose proof Hrun as Hspec.
      apply verify_smtp_spec in Hspec as (new & mx & rep & He & Hl & Hdec); [|done].
      rewrite (new_events_app _ _ _ He), Hl. split.
      * intros Hdel. destruct rep as [code msg| | |]; simpl in Hdec; try congruence.
        destruct (code =? 250) eqn:H250.
        -- apply Z.eqb_eq in H250 as ->. eauto.
        -- destruct (code =? 550); [destruct Hdec|]; congruence.
      * intros (mx' & msg & [= -> ->]). exact Hdec.
    + unfold verify_smtp in Hrun. intros Hnd.
      eapply smtp_mx_loop_reason; [|exact Hrun|exact Hnd]. reflexivity.
Qed.

Lemma get_mx_records_events d s :
  ∃ new, events (res_state (get_mx_records w d s)) = new ++ events s ∧
         Forall (λ e, not_smtp e = true) new.
Proof.
  apply probe_frame_events. by apply (get_mx_records_frame w not_smtp d eq_refl s).
Qed.

(** X12: when [check_catch_all] answers yes, catch-all detection is enabled
    and the last SMTP conversation of the check ended with a 250 for a
    recipient made of sixteen characters, an ['@'] and the domain. *)
Theorem check_catch_all_yes (d : string) (s s' : State) :
  check_catch_all cfg w d s = Ok true s' →
  catch_all_detection cfg = true ∧
  ∃ mx rnd msg, String.length rnd = 16%nat ∧
    last_smtp (new_events s s') = Some (mx, rnd +:+ "@" +:+ d, RcptReply 250 msg).
Proof.
  unfold check_catch_all. destruct (catch_all_detection cfg); [|done]. cbn [negb].
  cbv zeta. unfold interact at 1. mrun. intros Hrun. split; [done|].
  match type of Hrun with context [get_mx_records w d ?s0] =>
    destruct (get_mx_records_events d s0) as (n1 & He1 & HF1);
    destruct (get_mx_records w d s0) as [mxs s1|]; [|done]
  end.
  revert He1. mrun. intros He1.
  destruct mxs as [|m0 mxs]; [done|]. revert Hrun. rewrite bind_run.
  destruct (verify_smtp w _ (m0 :: mxs) s1) as [sr s2|] eqn:Hv; [|done].
  mrun. intros [= Hdel <-].
  pose proof Hv as Hspec.
  apply verify_smtp_spec in Hspec as (new & mx & rep & He & Hl & Hdec); [|done].
  destruct rep as [code msg| | |]; simpl in Hdec; try congruence.
  destruct (code =? 250) eqn:H250;
    [|destruct (code =? 550); [destruct Hdec|]; congruence].
  apply Z.eqb_eq in H250 as ->.
  eexists mx, _, msg. split; cycle 1.
  { rewrite (new_events_app s s2 (new ++ n1)) by (by rewrite He, He1, app_assoc).
    by rewrite last_smtp_app, Hl. }
  apply random_choices_length. by vm_compute.
Qed.
End smtp_more.

(** The property on a mail host that answers every RCPT with 550. *)
Lemma verify_smtp_outcome_witness :
  ∃ r s', verify_smtp rejecting_world "u@corp.example" ["mx.corp.example"]
            (initial_state 0) = Ok r s' ∧
          ∃ why, smtp_reason r = Some why ∧ why ≠ EmptyString.
Proof.
  eexists _, _. split; [vm_compute; reflexivity|].
  refine (proj2 (proj2 (verify_smtp_outcome rejecting_world "u@corp.example"
                          ["mx.corp.example"] (initial_state 0) _ _ _)) _);
    vm_compute; reflexivity.
Defined.

(** The property on a mail host that accepts every recipient. *)
Lemma check_catch_all_yes_witness :
  catch_all_detection default_settings = true ∧
  ∃ mx rnd msg, String.length rnd = 16%nat ∧
    last_smtp (new_events (initial_state 0)
                 (res_state (check_catch_all default_settings catch_all_world
                               "catchall.example" (initial_state 0)))) =
      Some (mx, rnd +:+ "@" +:+ "catchall.example", RcptReply 250 msg).
Proof.
  refine (check_catch_all_yes default_settings catch_all_world "catchall.example"
            (initial_state 0) _ _).
  vm_compute. reflexivity.
Defined.

Lemma api_calls_app l1 l2 : api_calls (l1 ++ l2) = api_calls l1 ++ api_calls l2.
Proof. apply omap_app. Qed.

Ltac prefix_upto l base :=
  match l with
  | base => constr:(@nil Event)
  | ?e :: ?l' => let p := prefix_upto l' base in constr:(e :: p)
  | ?l1 ++ ?l' => let p := prefix_upto l' base in constr:(l1 ++ p)
  end.

Section api.
Context (cfg : Settings) (w : World).

(** The retry loop: three requests at most, all about the address; it
    leaves the result objects and the limiter alone; and when it hands a
    response over, that response is the last reply of the trace. *)
Lemma api_attempts_spec a s :
  ∃ new,
    events (res_state (api_attempts w max_retries a s)) = new ++ events s ∧
    (List.length (api_calls new) ≤ 3)%nat ∧
    Forall (λ x, x.1 = a) (api_calls new) ∧
    objs (res_state (api_attempts w max_retries a s)) = objs s ∧
    match api_attempts w max_retries a s with
    | Ok (inl (code, ex, thr, body)) _ =>
        head (api_calls new) = Some (a, ApiResponse code ex thr body)
    | Ok (inr _) _ => ∃ msg, head (api_calls new) = Some (a, ApiConnError msg)
    | Raise e _ => head (api_calls new) = Some (a, ApiError e)
    end.
Proof.
  unfold max_retries. cbn [api_attempts]. mrun_all.
  repeat match goal with
         | |- context [match api_post w ?t a with _ => _ end] =>
             destruct (api_post w t a) as [?msg|?code ?ex ?thr ?body|?msg]; mrun_all
         | |- context [(?x <? ?y)%nat] =>
             let b := eval vm_compute in (x <? y)%nat in
             change (x <? y)%nat with b; mrun_all
         end;
    match goal with |- ∃ new, ?l = new ++ ?b ∧ _ =>
      let p := prefix_upto l b in exists p; split; [reflexivity|]
    end;
    simpl; (split; [lia|]); (split; [repeat constructor|]); (split; [done|]);
    first [done | by eexists].
Qed.

(** X13: [verify_microsoft_api], with the API enabled and an address that has
    one ['@']: it never raises; it sends at most three requests, all
    about the address; it returns a result only when the last reply is a
    200 whose [IfExistsResult] is 0 (the result is VALID) or 1 (INVALID),
    and the result carries the address and the provider "Microsoft"; and
    when it returns nothing on a 200 that is throttled, the domain is in
    backoff for the next 60 seconds. *)
Theorem verify_microsoft_api_outcome (a loc d : string) (s : State) :
  py_split "@" a = [loc; d] → microsoft_api cfg = true →
  ∃ r s', verify_microsoft_api cfg w a s = Ok r s' ∧
    let calls := api_calls (new_events s s') in
    (List.length calls ≤ 3)%nat ∧ Forall (λ x, x.1 = a) calls ∧
    match r with
    | Some l =>
        ∃ c thr body,
          head calls = Some (a, ApiResponse 200 (Some c) thr body) ∧
          email (deref l s') = a ∧ provider (deref l s') = "Microsoft" ∧
          (c = 0 ∧ category (deref l s') = VALID ∨
           c = 1 ∧ category (deref l s') = INVALID)
    | None =>
        ∀ ex body,
          head calls = Some (a, ApiResponse 200 ex (Some 1) body) →
          ex ≠ Some 0 → ex ≠ Some 1 →
          backoff_times (rate_limiter s') !! d = Some (clock s' + 60 * usec)
    end.
Proof.
  intros Hs Hapi. unfold verify_microsoft_api, split_email, rate_limit_block.
  rewrite Hs, Hapi. cbn [negb]. mrun_all.
  destruct (is_rate_limited (clock s) d (rate_limiter s)) as [[] rl'] eqn:Hr;
    cbn [fst snd]; mrun_all;
    match goal with |- context [api_attempts w max_retries a ?s0] =>
      destruct (api_attempts_spec a s0) as (new & He & Hlen & Hall & Hobjs & Hlast);
      destruct (api_attempts w max_retries a s0)
        as [[[[[code ex] thr] body]|[]] s1|e s1]
    end;
    revert He Hobjs; mrun_all; intros He Hobjs;
    repeat match goal with
      | |- context [if negb (?c =? 200) then _ else _] =>
          destruct (Z.eqb_spec c 200) as [->|]; cbn [negb]; mrun_all
      | |- context [bool_decide (?x = ?y)] =>
          destruct (decide (x = y)) as [->|];
            [rewrite bool_decide_eq_true_2 by done
            |rewrite bool_decide_eq_false_2 by done]; mrun_all
      end;
    eexists _, _; (split; [reflexivity|]); cbv zeta;
    match goal with |- context [new_events s ?s'] =>
      assert (∃ p, events s' = p ++ events s ∧ api_calls p = api_calls new)
        as (p & Hev & Hcalls);
      [ state_simpl; rewrite He;
        match goal with |- ∃ p, ?l = p ++ ?b ∧ _ =>
          let p := prefix_upto l b in exists p
        end;
        split; [simpl; by rewrite <- ?app_assoc
               |simpl; rewrite ?api_calls_app; simpl; by rewrite ?app_nil_r]
      | rewrite (new_events_app s s' p Hev), Hcalls ]
    end;
    (split; [exact Hlen|]); (split; [exact Hall|]); cbv iota.
  all: try (eexists _, _, _; split; [exact Hlast|];
            unfold deref; state_simpl; rewrite list_lookup_middle by done; simpl;
            by auto).
  all: intros ex' body' Hh Hn0 Hn1.
  all: try match goal with Hl : ∃ _, _ |- _ => destruct Hl as [msg Hlast] end.
  all: try (rewrite Hlast in Hh; congruence).
  all: state_simpl; unfold set_backoff; simpl; apply lookup_insert_eq.
Qed.
End api.

(** The property on an API that answers with a throttled 200. *)
Lemma verify_microsoft_api_outcome_witness :
  ∃ s', verify_microsoft_api default_settings throttling_world "u@outlook.com"
          (initial_state 0) = Ok None s' ∧
        backoff_times (rate_limiter s') !! "outlook.com" = Some (clock s' + 60 * usec).
Proof.
  edestruct (verify_microsoft_api_outcome default_settings throttling_world
               "u@outlook.com" "u" "outlook.com" (initial_state 0))
    as (r & s' & Hrun & _ & _ & Hr); [vm_compute; reflexivity|reflexivity|].
  assert (r = None) as -> by (vm_compute in Hrun; congruence).
  exists s'. split; [exact Hrun|].
  apply (Hr None "{}"); [|done|done].
  vm_compute in Hrun. injection Hrun as <-. vm_compute. reflexivity.
Defined.

Lemma hoare_bind {A B} P (m : M A) Q (k : A → M B) R :
  hoare P m Q → (∀ x, hoare (Q x) (k x) R) → hoare P (m ≫= k) R.
Proof.
  intros Hm Hk s HP. rewrite bind_run. specialize (Hm s HP).
  destruct (m s) as [x s1|e s1]; [|done]. by apply Hk.
Qed.

Lemma hoare_ret {A} (P : State → Prop) (x : A) (Q : A → State → Prop) :
  (∀ s, P s → Q x s) → hoare P (mret x) Q.
Proof. intros H s HP. by apply H. Qed.

Lemma hoare_raise {A} P e (Q : A → State → Prop) : hoare P (raise e) Q.
Proof. by intros s HP. Qed.

Lemma hoare_pre {A} (P P' : State → Prop) (m : M A) Q :
  (∀ s, P s → P' s) → hoare P' m Q → hoare P m Q.
Proof. intros HP Hm s Hs. by apply Hm, HP. Qed.

Lemma hoare_try {A} P (m : M A) (h : string → M A) Q :
  hoare P m Q → (∀ e, hoare (λ _, True) (h e) Q) → hoare P (try_except m h) Q.
Proof.
  intros Hm Hh s HP. unfold try_except. specialize (Hm s HP).
  destruct (m s) as [x s1|e s1]; [done|]. by apply Hh.
Qed.

Lemma holds_prefix a l s s' : objs s `prefix_of` objs s' → holds a l s → holds a l s'.
Proof.
  intros Hp (o & Ho & He). exists o. split; [|done]. by eapply prefix_lookup_Some.
Qed.

Lemma unsaved_frame {A} a held (m : M A) :
  preserves (probe_frame any_event) m → hoare (unsaved a held) m (λ _, unsaved a held).
Proof.
  intros Hm s [Hf Hh]. destruct (Hm s) as (Hd & _ & _ & _ & _ & Ho & _).
  destruct (m s) as [x s1|e s1]; [|done]. simpl in *. split; [by rewrite Hd|].
  eapply Forall_impl; [exact Hh|]. intros l. by apply holds_prefix.
Qed.

Lemma new_result_holds a c why p d :
  hoare (λ _, True) (new_result a c why p d) (λ l s, holds a l s).
Proof.
  intros s _. simpl. eexists. split; [by apply list_lookup_middle|done].
Qed.

Lemma hoare_held {A} a held (m : M A) (f : A → list nat) :
  preserves (probe_frame any_event) m →
  hoare (λ _, True) m (λ x s, Forall (λ l, holds a l s) (f x)) →
  hoare (unsaved a held) m (λ x, unsaved a (f x ++ held)).
Proof.
  intros Hm Hl s Hu. pose proof (unsaved_frame a held m Hm s Hu) as H1.
  specialize (Hl s I). destruct (m s) as [x s1|e s1]; [|done].
  destruct H1 as [Hf Hh]. split; [done|]. by apply Forall_app.
Qed.

Lemma hoare_true_bind {A B} (m : M A) (k : A → M B) Q :
  (∀ x, hoare (λ _, True) (k x) Q) → hoare (λ _, True) (m ≫= k) Q.
Proof. intros Hk. eapply hoare_bind; [|exact Hk]. intros s _. by destruct (m s). Qed.

Lemma unsaved_opt_elim {A} a last (m : M A) Q :
  (∀ held, (∀ l, last = Some l → l ∈ held) → hoare (unsaved a held) m Q) →
  hoare (unsaved_opt a last) m Q.
Proof. intros H s (held & Hu & Hl). by apply (H held Hl). Qed.

Lemma check_email_in_data_added a c D :
  check_email_in_data a D = None →
  check_email_in_data a (add_email_to_data a c D) = Some c.
Proof.
  intros Hn. apply find_file_order. split.
  - apply data_file_add. by right.
  - intros c' Hlt [Hin|[_ ->]]%data_file_add; [|lia].
    by eapply check_email_in_data_None in Hn.
Qed.

Lemma cache_and_save_saved a l held :
  l ∈ held → hoare (unsaved a held) (cache_and_save a l) (saved a).
Proof.
  intros Hin s [Hf Hh]. rewrite Forall_forall in Hh.
  destruct (Hh l Hin) as (o & Ho & He).
  unfold cache_and_save, save_result. mrun. intros l' [= <-].
  unfold deref. state_simpl. rewrite Ho. simpl.
  split; [done|]. split; [apply lookup_insert_eq|].
  rewrite He. by apply check_email_in_data_added.
Qed.

Lemma cache_and_save_last_saved a last held :
  (∀ l, last = Some l → l ∈ held) →
  hoare (unsaved a held) (cache_and_save_last a last) (saved a).
Proof.
  intros Hl. destruct last as [l|]; simpl; [|apply hoare_raise].
  apply cache_and_save_saved. by apply Hl.
Qed.

Ltac hmem :=
  simpl;
  first [ done
        | by intros ? [=]
        | by (intros ? [= <-]; eauto 10 using list_elem_of_here, list_elem_of_further)
        | by (intros ? ?; eauto 10 using list_elem_of_here, list_elem_of_further)
        | by eauto 10 using list_elem_of_here, list_elem_of_further ].

(** The tail of a probe is [new_result] for the address. *)
Ltac htail :=
  repeat first
    [ apply new_result_holds
    | apply hoare_raise
    | apply hoare_true_bind; intros ?
    | lazymatch goal with
      | |- hoare _ (match ?x with _ => _ end) _ => destruct x
      end ].

Section persisted.
Context (cfg : Settings) (w : World).

Lemma _verify_login_holds a p u b :
  hoare (λ _, True) (_verify_login w a p u b) (λ l s, holds a l s).
Proof. unfold _verify_login, split_email. htail. Qed.

Lemma verify_email_smtp_holds a :
  hoare (λ _, True) (verify_email_smtp cfg w a) (λ l s, holds a l s).
Proof. unfold verify_email_smtp, split_email. htail. Qed.

Lemma verify_microsoft_api_holds a :
  hoare (λ _, True) (verify_microsoft_api cfg w a)
    (λ r s, Forall (λ l, holds a l s) (option_list r)).
Proof.
  unfold verify_microsoft_api, split_email.
  repeat first
    [ apply hoare_raise
    | (apply hoare_ret; intros ? _; by constructor)
    | (eapply hoare_bind; [apply new_result_holds|]; intros ?; apply hoare_ret;
       intros ? ?; simpl; by repeat constructor)
    | (apply hoare_try; [|intros ?])
    | apply hoare_true_bind; intros ?
    | lazymatch goal with
      | |- hoare _ (match ?x with _ => _ end) _ => destruct x
      end ].
Qed.

Lemma _verify_login_unsaved a p u b held :
  hoare (unsaved a held) (_verify_login w a p u b) (λ l, unsaved a (l :: held)).
Proof.
  apply (hoare_held a held _ (λ l, [l])); [frame|].
  intros s _. pose proof (_verify_login_holds a p u b s I) as H.
  destruct (_verify_login w a p u b s); [|done]. by repeat constructor.
Qed.

Lemma verify_email_smtp_unsaved a held :
  hoare (unsaved a held) (verify_email_smtp cfg w a) (λ l, unsaved a (l :: held)).
Proof.
  apply (hoare_held a held _ (λ l, [l])); [frame|].
  intros s _. pose proof (verify_email_smtp_holds a s I) as H.
  destruct (verify_email_smtp cfg w a s); [|done]. by repeat constructor.
Qed.

Lemma new_result_unsaved a c why p d held :
  hoare (unsaved a held) (new_result a c why p d) (λ l, unsaved a (l :: held)).
Proof.
  apply (hoare_held a held _ (λ l, [l])); [frame|].
  intros s _. pose proof (new_result_holds a c why p d s I) as H.
  simpl in *. by repeat constructor.
Qed.

Lemma verify_microsoft_api_unsaved a held :
  hoare (unsaved a held) (verify_microsoft_api cfg w a)
    (λ r, unsaved a (option_list r ++ held)).
Proof. apply hoare_held; [frame|apply verify_microsoft_api_holds]. Qed.

(** A block that ends, on every path, with a new result for the
    address. *)
Ltac hblock :=
  repeat first
    [ apply new_result_unsaved
    | (eapply hoare_bind; [apply unsaved_frame; solve [frame]|intros ?; cbv beta])
    | lazymatch goal with
      | |- hoare _ (match ?x with _ => _ end) _ => destruct x
      end ].

(** A block that returns a result for the address, or nothing. *)
Ltac hblock_opt :=
  repeat first
    [ (apply hoare_ret; intros ? ?; eexists; split; [eassumption|hmem])
    | (eapply hoare_bind;
         [first [apply verify_microsoft_api_unsaved | apply unsaved_frame; solve [frame]]
         |intros ?; cbv beta])
    | lazymatch goal with
      | |- hoare _ (match ?x with _ => _ end) _ => destruct x
      end ].

Ltac hprim :=
  first
    [ apply _verify_login_unsaved
    | apply verify_email_smtp_unsaved
    | apply new_result_unsaved
    | apply verify_microsoft_api_unsaved
    | (apply cache_and_save_saved; solve [hmem])
    | (apply cache_and_save_last_saved; solve [hmem])
    | (lazymatch goal with
       | |- hoare (unsaved ?a ?h) (match _ with _ => _ end) ?Q =>
           unify Q (λ l : nat, unsaved a (l :: h))
       end; solve [hblock])
    | (lazymatch goal with
       | |- hoare (unsaved ?a ?h) (match _ with _ => _ end) ?Q =>
           unify Q (λ r : option nat, unsaved_opt a r)
       end; solve [hblock_opt])
    | (apply unsaved_frame; solve [frame]) ].

Ltac hstep :=
  lazymatch goal with
  | |- hoare (saved _ _) (mret (inl _)) _ => apply hoare_ret; intros ? ?; assumption
  | |- hoare (saved _ _) (mret _) _ => apply hoare_ret; intros ? ?; assumption
  | |- hoare (unsaved _ _) (mret (inr _)) _ =>
      apply hoare_ret; intros ? ?; eexists; split; [eassumption|hmem]
  | |- hoare (unsaved _ _) (mret None) (saved _) =>
      apply hoare_ret; intros ? ? ? [=]
  | |- hoare (unsaved_opt _ _) _ _ => apply unsaved_opt_elim; intros ? ?
  | |- hoare (loop_post _ (inl _)) (mret _) _ => apply hoare_ret; intros ? ?; assumption
  | |- hoare (loop_post _ (inr _)) _ _ => apply unsaved_opt_elim; intros ? ?
  | |- hoare _ (mbind _ _) _ => eapply hoare_bind; [hprim|intros ?; cbv beta]
  | |- hoare _ (raise _) _ => apply hoare_raise
  | |- hoare _ (match ?x with _ => _ end) _ => destruct x
  | |- hoare (unsaved _ _) (cache_and_save _ _) _ => apply cache_and_save_saved; hmem
  | |- hoare (unsaved _ _) (cache_and_save_last _ _) _ =>
      apply cache_and_save_last_saved; hmem
  end.

Lemma google_browser_loop_saved a p u bs last held :
  (∀ l, last = Some l → l ∈ held) →
  hoare (unsaved a held) (google_browser_loop w a p u bs last) (loop_post a).
Proof.
  revert last held. induction bs as [|b rest IH]; intros last held Hl; simpl.
  - hstep.
  - repeat hstep. apply IH. hmem.
Qed.

Lemma microsoft_browser_loop_saved a p u all bs last held :
  (∀ l, last = Some l → l ∈ held) →
  hoare (unsaved a held) (microsoft_browser_loop w a p u all bs last) (loop_post a).
Proof.
  revert last held. induction bs as [|b rest IH]; intros last held Hl; simpl.
  - hstep.
  - repeat hstep; apply IH; hmem.
Qed.

Lemma other_browser_loop_saved a p u all bs held :
  hoare (unsaved a held) (other_browser_loop cfg w a p u all bs) (saved a).
Proof.
  revert held. induction bs as [|b rest IH]; intros held; simpl.
  - hstep.
  - repeat hstep; apply IH.
Qed.

Ltac hloop :=
  first
    [ hstep
    | eapply hoare_bind;
        [ first [ apply google_browser_loop_saved; solve [hmem]
                | apply microsoft_browser_loop_saved; solve [hmem] ]
        | intros ?; cbv beta ] ].

Lemma _verify_gmail_email_saved a p u d mxs held :
  hoare (unsaved a held) (_verify_gmail_email cfg w a p u d mxs) (saved a).
Proof. unfold _verify_gmail_email. repeat hloop. Qed.

Lemma _verify_custom_google_email_saved a p u d mxs held :
  hoare (unsaved a held) (_verify_custom_google_email cfg w a p u d mxs) (saved a).
Proof. unfold _verify_custom_google_email. repeat hloop. Qed.

Lemma _verify_custom_domain_email_saved a p d mxs held :
  hoare (unsaved a held) (_verify_custom_domain_email cfg w a p d mxs) (saved a).
Proof.
  unfold _verify_custom_domain_email. repeat hloop.
Qed.

Lemma _verify_other_provider_email_saved a p u d mxs held :
  hoare (unsaved a held) (_verify_other_provider_email cfg w a p u d mxs) (saved a).
Proof.
  unfold _verify_other_provider_email. repeat hloop.
  apply other_browser_loop_saved.
Qed.
Lemma _verify_microsoft_email_saved a p u d mxs held :
  hoare (unsaved a held) (_verify_microsoft_email cfg w a p u d mxs) (saved a).
Proof. unfold _verify_microsoft_email. repeat hloop. Qed.

Ltac hstrategy :=
  first
    [ hloop
    | apply _verify_microsoft_email_saved
    | apply _verify_gmail_email_saved
    | apply _verify_custom_google_email_saved
    | apply _verify_custom_domain_email_saved
    | apply _verify_other_provider_email_saved ].

Lemma run_gets_then {A B} (f : State → A) (k : A → M B) s : (gets f ≫= k) s = k (f s) s.
Proof. reflexivity. Qed.

(** Past the two look-ups, every verdict that [verify_email] returns has
    been cached and saved. *)
Lemma verify_email_saved a s :
  check_email_in_data a (data_files s) = None → result_cache s !! a = None →
  match verify_email cfg w a s with Ok r s' => saved a r s' | Raise _ _ => True end.
Proof.
  intros Hf Hc. unfold verify_email.
  rewrite run_history_then. cbv beta. rewrite run_gets_then. state_simpl. rewrite Hf.
  cbv beta iota. rewrite run_gets_then. state_simpl. rewrite Hc. cbv beta iota.
  match goal with |- match ?m ?s0 with _ => _ end =>
    cut (hoare (unsaved a []) m (saved a));
      [intros Hm; apply (Hm s0); split; [exact Hf|constructor]|]
  end.
  repeat hstrategy.
Qed.

(** An address that has its row is answered from the data files. *)
Lemma verify_email_from_data a c s :
  check_email_in_data a (data_files s) = Some c →
  ∃ s2, verify_email cfg w a s = Ok (Some (List.length (objs s))) s2 ∧
        email (deref (List.length (objs s)) s2) = a ∧
        category (deref (List.length (objs s)) s2) = c ∧
        data_files s2 = data_files s ∧
        new_events s s2 =
          [EvHistory a ("Email found in " +:+ category_str c +:+
                        " list - using cached result");
           EvHistory a "Verification started"].
Proof.
  intros Hc. unfold verify_email. mrun_all. rewrite Hc. mrun_all.
  eexists. split; [reflexivity|]. unfold deref. state_simpl.
  rewrite list_lookup_middle by done. simpl.
  split; [done|]. split; [done|]. split; [done|]. by apply new_events_app.
Qed.

End persisted.


#[global] Instance service_keeps_preorder : PreOrder service_keeps.
Proof.
  split.
  - intros s. split; [done|lia].
  - intros s1 s2 s3 [H1 H1'] [H2 H2']. split; [congruence|lia].
Qed.

Lemma engine_frame_keeps s s' : engine_frame s s' → service_keeps s s'.
Proof. intros (Hc & Ht & _). split; [done|]. rewrite Hc. lia. Qed.

Lemma new_dict_keeps items : preserves service_keeps (new_dict items).
Proof. intros s. split; simpl; [done|lia]. Qed.

Lemma datetime_now_keeps : preserves service_keeps datetime_now.
Proof. intros s. reflexivity. Qed.

Lemma read_keeps l : preserves service_keeps (read l).
Proof. intros s. reflexivity. Qed.

Lemma dict_set_keeps d k v : preserves service_keeps (dict_set d k v).
Proof. intros s. split; simpl; [done|lia]. Qed.

Lemma set_details_keeps l d : preserves service_keeps (set_details l d).
Proof. intros s. split; simpl; [done|lia]. Qed.

#[global] Hint Resolve new_dict_keeps datetime_now_keeps read_keeps dict_set_keeps
  set_details_keeps : frame.

Lemma update_details_keeps l items : preserves service_keeps (update_details l items).
Proof.
  unfold update_details. frame.
  induction items as [|[k v] rest IH]; simpl; frame.
Qed.

Lemma py_dict_set_length a l d :
  (List.length (py_dict_set a l d) ≤ S (List.length d))%nat.
Proof.
  induction d as [|[k v] d IH]; simpl; [lia|].
  destruct (String.eqb a k); simpl; lia.
Qed.

(** [_add_to_cache]: a full cache loses its hundred oldest entries
    before the new one goes in. *)
Lemma _add_to_cache_keeps a l : preserves service_keeps (_add_to_cache a l).
Proof.
  intros s. unfold _add_to_cache. mrun. split; [done|]. state_simpl.
  destruct (max_cache_size <=? List.length (service_cache s))%nat eqn:E.
  - apply Nat.leb_le in E.
    pose proof (py_dict_set_length a l (drop remove_count (service_cache s))) as H.
    rewrite length_drop in H. unfold max_cache_size, remove_count in *. lia.
  - apply Nat.leb_gt in E.
    pose proof (py_dict_set_length a l (service_cache s)) as H.
    unfold max_cache_size in *. lia.
Qed.

#[global] Hint Resolve update_details_keeps _add_to_cache_keeps : frame.

Section service_tables.
Context (cfg : Settings) (w : World).

Lemma verify_email_keeps a : preserves service_keeps (verify_email cfg w a).
Proof.
  eapply preserves_weaken; [apply engine_frame_keeps|apply verify_email_eframe].
Qed.

Hint Resolve verify_email_keeps : frame.

Lemma verify_with_login_verifier_keeps a :
  preserves service_keeps (verify_with_login_verifier cfg w a).
Proof. unfold verify_with_login_verifier. frame. Qed.

Lemma service_verify_email_keeps a m :
  preserves service_keeps (service_verify_email cfg w a m).
Proof.
  unfold service_verify_email. frame; eauto using verify_with_login_verifier_keeps.
Qed.

(** X15: the cache of the service stays bounded: after any sequence of calls
    of the service's [verify_email] it has at most [max_cache_size]
    entries, or as many as it had before the calls when it had more;
    and the calls leave the batch tasks alone. *)
Theorem service_cache_bounded (calls : list (string * string)) (s : State) :
  (List.length (service_cache (service_calls cfg w calls s)) ≤
     List.length (service_cache s) `max` max_cache_size)%nat ∧
  verification_tasks (service_calls cfg w calls s) = verification_tasks s.
Proof.
  cut (service_keeps s (service_calls cfg w calls s)); [by intros [? ?]|].
  revert s. induction calls as [|[b m] calls IH]; intros s; simpl; [reflexivity|].
  etrans; [apply (service_verify_email_keeps b m)|apply IH].
Qed.

(** The loop of a batch never raises; it counts every address and records
    a result for each. *)
Lemma background_loop_spec tid how addrs res done s task :
  verification_tasks s !! tid = Some task →
  completed task = done → results task = res →
  ∃ s' task',
    background_loop cfg w tid how addrs res done s = Ok tt s' ∧
    verification_tasks s' !! tid = Some task' ∧
    same_task task task' ∧
    completed task' = done + Z.of_nat (List.length addrs) ∧
    (∀ a, is_Some (results task' !! a) ↔ is_Some (res !! a) ∨ a ∈ addrs) ∧
    (∀ t, t ≠ tid → verification_tasks s' !! t = verification_tasks s !! t).
Proof.
  revert res done s task.
  induction addrs as [|address rest IH]; intros res done s task Ht Hc Hr.
  - exists s, task. simpl. split; [done|]. split; [done|]. split; [done|].
    split; [lia|]. split; [|done]. intros a. rewrite Hr. split; [by left|].
    intros [?|Hin]; [done|]. by apply elem_of_nil in Hin.
  - cbn [background_loop]. rewrite bind_run. unfold try_except at 1. rewrite bind_run.
    destruct (service_verify_email_keeps address how s) as [Hts _].
    destruct (service_verify_email cfg w address how s) as [rd s1|e s1];
      simpl in Hts; unfold update_task; mrun_all;
      match goal with |- context [background_loop cfg w tid how rest ?r ?d ?s0] =>
        destruct (IH r d s0 (with_progress d r task))
          as (s' & task' & Hrun & Ht' & Hsame & Hc' & Hres & Hoth);
          [ state_simpl; rewrite lookup_alter_eq, Hts, Ht; reflexivity
          | reflexivity | reflexivity | ]
      end;
      exists s', task'; (split; [exact Hrun|]); (split; [exact Ht'|]);
      (split; [exact Hsame|]); (split; [rewrite Hc', length_cons; lia|]);
      (split;
        [ intros a; rewrite Hres, lookup_insert_is_Some, elem_of_cons;
          destruct (decide (address = a)) as [->|]; intuition congruence
        | intros t Hne; rewrite (Hoth t Hne); state_simpl;
          rewrite lookup_alter_ne by done; by rewrite Hts ]).
Qed.

Lemma _background_verification_spec tid s task :
  verification_tasks s !! tid = Some task →
  completed task = 0 → results task = ∅ →
  ∃ s2 task2,
    _background_verification cfg w tid s = Ok tt s2 ∧
    verification_tasks s2 !! tid = Some task2 ∧
    status task2 = "completed" ∧ total task2 = total task ∧
    completed task2 = Z.of_nat (List.length (emails task)) ∧
    (∀ a, is_Some (results task2 !! a) ↔ a ∈ emails task) ∧
    end_time task2 = Some (clock s2) ∧
    emails task2 = emails task ∧ method task2 = method task ∧
    (∀ t, t ≠ tid → verification_tasks s2 !! t = verification_tasks s !! t).
Proof.
  intros Ht Hc Hr. unfold _background_verification, update_task. mrun_all.
  rewrite Ht. mrun_all.
  match goal with |- context [background_loop cfg w tid ?h ?e ∅ 0 ?s0] =>
    destruct (background_loop_spec tid h e ∅ 0 s0 (with_status "running" task))
      as (s' & task' & Hrun & Ht' & Hsame & Hc' & Hres & Hoth);
      [state_simpl; by rewrite lookup_alter_eq, Ht|done|done|]
  end.
  rewrite Hrun. mrun_all. destruct Hsame as (Hst & Htot & Hstart & Hend & Hem & Hme).
  eexists _, _. split; [reflexivity|]. state_simpl.
  rewrite !lookup_alter_eq, Ht'. simpl.
  split; [reflexivity|]. simpl in *.
  split; [done|]. split; [by rewrite Htot|].
  split; [rewrite Hc'; lia|].
  split.
  { intros a. rewrite Hres, lookup_empty. split; [intros [[]%is_Some_None|]|]; eauto. }
  split; [done|]. split; [by rewrite Hem|]. split; [by rewrite Hme|].
  intros t Hne. rewrite !lookup_alter_ne by done. rewrite (Hoth t Hne). state_simpl.
  by rewrite lookup_alter_ne.
Qed.

(** X16: a batch runs to completion: whatever the single verifications do,
    [start_batch_verification] followed by [_background_verification]
    for the task it created does not raise and leaves the task completed,
    with [completed] equal to [total], the number of addresses given, a
    result recorded for each address given and for no other, and the end
    time set; the other tasks are as they were. *)
Theorem batch_runs_to_completion (addrs : list string) (how : string) (s : State) :
  ∃ tid s1 s2 task,
    start_batch_verification w addrs how s = Ok tid s1 ∧
    _background_verification cfg w tid s1 = Ok tt s2 ∧
    verification_tasks s2 !! tid = Some task ∧
    status task = "completed" ∧
    total task = Z.of_nat (List.length addrs) ∧
    completed task = total task ∧
    (∀ a, is_Some (results task !! a) ↔ a ∈ addrs) ∧
    end_time task = Some (clock s2) ∧
    emails task = addrs ∧ method task = how ∧
    (∀ t, t ≠ tid → verification_tasks s2 !! t = verification_tasks s !! t).
Proof.
  unfold start_batch_verification. mrun_all.
  match goal with |- context [Ok ?tid ?s1 = Ok _ _] =>
    destruct (_background_verification_spec tid s1
                {| status := "pending"; total := Z.of_nat (List.length addrs);
                   completed := 0; results := ∅; start_time := clock s1;
                   end_time := None; emails := addrs; method := how |})
      as (s2 & task & Hrun & Ht & Hst & Htot & Hc & Hres & Hend & Hem & Hme & Hoth);
      [state_simpl; by rewrite lookup_insert_eq|done|done|];
      exists tid, s1, s2, task
  end.
  split; [reflexivity|]. split; [exact Hrun|]. split; [exact Ht|].
  split; [exact Hst|]. split; [exact Htot|]. split; [by rewrite Hc, Htot|].
  split; [exact Hres|]. split; [exact Hend|]. split; [exact Hem|]. split; [exact Hme|].
  intros t Hne. rewrite (Hoth t Hne). state_simpl. by rewrite lookup_insert_ne.
Qed.
End service_tables.

Lemma py_slice_inside {A} (l : list A) (start stop : Z) :
  0 ≤ start ≤ stop → stop ≤ Z.of_nat (List.length l) →
  py_slice l start stop = take (Z.to_nat (stop - start)) (drop (Z.to_nat start) l).
Proof.
  intros H1 H2. unfold py_slice, slice_index.
  destruct (Z.ltb_spec start 0); [lia|]. destruct (Z.ltb_spec stop 0); [lia|].
  by rewrite !Z.min_l by lia.
Qed.

(** Consecutive slices of one width, then the rest. *)
Lemma chunks_concat {A} (l : list A) (k m : nat) :
  concat ((λ i, take k (drop (i * k) l)) <$> seq 0 m) ++ drop (m * k) l = l.
Proof.
  induction m as [|m IH]; [by rewrite drop_0|].
  rewrite seq_S, fmap_app, concat_app. simpl. rewrite app_nil_r, <- app_assoc.
  rewrite <- IH at 3. f_equal.
  rewrite <- (take_drop k (drop (m * k) l)) at 2. f_equal.
  rewrite drop_drop. f_equal. lia.
Qed.

(** The split for a terminal count of at least 1 and at least one
    address, in terms of [take] and [drop]. *)
Lemma email_chunks_eq (tc : Z) (emails : list string) :
  1 ≤ tc → emails ≠ [] →
  let n := Z.to_nat (Z.min tc (Z.of_nat (List.length emails))) in
  let k := (List.length emails / n)%nat in
  (1 ≤ n ≤ List.length emails)%nat ∧ (1 ≤ k)%nat ∧ (n * k ≤ List.length emails)%nat ∧
  email_chunks tc emails =
    inr (((λ i, take k (drop (i * k) emails)) <$> seq 0 (n - 1)) ++
         [drop ((n - 1) * k) emails]).
Proof.
  intros Htc Hne. cbv zeta.
  set (len := List.length emails).
  assert (1 ≤ len)%nat as Hlen by (destruct emails; simpl in *; [done|lia]).
  set (n := Z.to_nat (Z.min tc (Z.of_nat len))).
  assert (1 ≤ n ≤ len)%nat as Hn by lia.
  assert (1 ≤ len / n)%nat as Hk by (apply Nat.div_le_lower_bound; lia).
  assert (n * (len / n) ≤ len)%nat as Hnk by (apply Nat.Div0.mul_div_le).
  split; [done|]. split; [done|]. split; [done|].
  unfold email_chunks. fold len.
  replace (Z.min tc (Z.of_nat len)) with (Z.of_nat n) by lia.
  destruct (Z.eqb_spec (Z.of_nat n) 0) as [|_]; [lia|]. f_equal.
  unfold py_range. rewrite Nat2Z.id.
  replace (Z.of_nat len `div` Z.of_nat n) with (Z.of_nat (len / n))
    by (rewrite Nat2Z.inj_div; done).
  replace n with (n - 1 + 1)%nat at 1 by lia.
  rewrite seq_app, !fmap_app. simpl. f_equal.
  - rewrite <- list_fmap_compose. apply Forall_fmap_ext_1, Forall_forall.
    intros i Hi%elem_of_seq. simpl.
    destruct (Z.ltb_spec (Z.of_nat i) (Z.of_nat n - 1)); [|lia].
    rewrite py_slice_inside; [|nia|fold len; nia].
    f_equal; [lia|]. f_equal. lia.
  - destruct (Z.ltb_spec (Z.of_nat (n - 1)) (Z.of_nat n - 1)); [lia|].
    rewrite py_slice_inside; [|nia|fold len; lia].
    rewrite <- Nat2Z.inj_mul, Nat2Z.id.
    rewrite take_ge; [done|]. rewrite length_drop. fold len. lia.
Qed.

(** X17: the split of a batch over the terminal processes loses nothing: for
    a terminal count of at least 1 (the settings menu keeps it between 1
    and 8) and a batch of more than one address, there is no division by
    zero, the chunks put end to end are the batch, in its order, there
    are as many chunks as the smaller of the terminal count and the
    number of addresses, and every chunk has at least the quotient of
    the two, which is at least one address. *)
Theorem email_chunks_partition (terminal_count : Z) (emails : list string) :
  1 ≤ terminal_count → (1 < List.length emails)%nat →
  ∃ chunks,
    email_chunks terminal_count emails = inr chunks ∧
    concat chunks = emails ∧
    Z.of_nat (List.length chunks) = Z.min terminal_count (Z.of_nat (List.length emails)) ∧
    Forall (λ c, (1 ≤ List.length c)%nat ∧
                 Z.of_nat (List.length emails) `div` Z.of_nat (List.length chunks) ≤
                   Z.of_nat (List.length c)) chunks.
Proof.
  intros Htc Hlen.
  assert (emails ≠ []) as Hne by (destruct emails; simpl in *; [lia|done]).
  destruct (email_chunks_eq terminal_count emails Htc Hne) as (Hn & Hk & Hnk & ->).
  set (n := Z.to_nat (Z.min terminal_count (Z.of_nat (List.length emails)))) in *.
  set (k := (List.length emails / n)%nat) in *.
  eexists. split; [reflexivity|].
  assert (List.length (((λ i, take k (drop (i * k) emails)) <$> seq 0 (n - 1)) ++
                       [drop ((n - 1) * k) emails]) = n) as Hcount.
  { rewrite length_app, length_fmap, length_seq. simpl. lia. }
  split.
  { rewrite concat_app. simpl. rewrite app_nil_r. apply chunks_concat. }
  split; [rewrite Hcount; lia|].
  rewrite Hcount, <- Nat2Z.inj_div. fold k.
  apply Forall_app. split.
  - apply Forall_fmap, Forall_forall. intros i Hi%elem_of_seq. simpl.
    rewrite length_take, length_drop. nia.
  - constructor; [|constructor]. rewrite length_drop. nia.
Qed.

(** The property on five addresses and two terminals. *)
Lemma email_chunks_partition_witness :
  ∃ chunks,
    email_chunks 2 ["a@x.org"; "b@x.org"; "c@x.org"; "d@x.org"; "e@x.org"] = inr chunks ∧
    concat chunks = ["a@x.org"; "b@x.org"; "c@x.org"; "d@x.org"; "e@x.org"] ∧
    List.length chunks = 2%nat.
Proof.
  destruct (email_chunks_partition 2
              ["a@x.org"; "b@x.org"; "c@x.org"; "d@x.org"; "e@x.org"])
    as (chunks & Hrun & Hcat & Hcount & _); [lia|simpl; lia|].
  exists chunks. split; [exact Hrun|]. split; [exact Hcat|]. simpl in Hcount. lia.
Defined.

Lemma occurrences_le e emails : 0 ≤ occurrences e emails ≤ batch_size emails.
Proof.
  unfold occurrences, batch_size. split; [lia|].
  apply inj_le, length_filter.
Qed.

Lemma batch_size_cons a rest :
  batch_size (a :: rest) =
    if verifier2.validate_email_format a then 1 + batch_size rest else batch_size rest.
Proof.
  unfold batch_size. destruct (verifier2.validate_email_format a) eqn:Hv.
  - rewrite filter_cons_True by done. simpl. lia.
  - rewrite filter_cons_False by (by rewrite Hv). done.
Qed.

Lemma occurrences_cons e a rest :
  occurrences e (a :: rest) =
    if verifier2.validate_email_format a && String.eqb a e
    then 1 + occurrences e rest else occurrences e rest.
Proof.
  unfold occurrences. destruct (verifier2.validate_email_format a) eqn:Hv; simpl.
  - rewrite (filter_cons_True (λ a, verifier2.validate_email_format a = true)) by done.
    destruct (String.eqb_spec a e) as [->|Hne].
    + rewrite filter_cons_True by done. simpl. lia.
    + by rewrite filter_cons_False.
  - by rewrite (filter_cons_False (λ a, verifier2.validate_email_format a = true))
      by (by rewrite Hv).
Qed.

Lemma batch_rows_counts now e status emails i c :
  ∃ rows',
    verifier2.update_rows e status (verifier2.batch_rows now i emails) = inr rows' ∧
    (∀ c', foldl verifier2.count_row c' (verifier2.batch_rows now i emails) =
       {| n_valid := n_valid c'; n_invalid := n_invalid c';
          n_pending := n_pending c' + batch_size emails |}) ∧
    head <$> rows' = head <$> verifier2.batch_rows now i emails ∧
    foldl verifier2.count_row c rows' =
      if String.eqb status verifier2.VALID then
        {| n_valid := n_valid c + occurrences e emails; n_invalid := n_invalid c;
           n_pending := n_pending c + (batch_size emails - occurrences e emails) |}
      else if String.eqb status verifier2.INVALID then
        {| n_valid := n_valid c; n_invalid := n_invalid c + occurrences e emails;
           n_pending := n_pending c + (batch_size emails - occurrences e emails) |}
      else
        {| n_valid := n_valid c; n_invalid := n_invalid c;
           n_pending := n_pending c + batch_size emails |}.
Proof.
  revert i c. induction emails as [|a rest IH]; intros i c.
  - exists []. split; [done|]. unfold batch_size, occurrences. simpl.
    split; [intros []; simpl; f_equal; lia|]. split; [done|].
    destruct c, (String.eqb status verifier2.VALID),
      (String.eqb status verifier2.INVALID); simpl; f_equal; lia.
  - rewrite batch_size_cons, occurrences_cons. cbn [verifier2.batch_rows].
    destruct (verifier2.validate_email_format a) eqn:Hv; cbn [andb].
    + cbn [verifier2.update_rows verifier2.update_row].
      destruct (String.eqb a e) eqn:Hae.
      * destruct (IH (S i) (verifier2.count_row c [a; status; now i; EmptyString]))
          as (rows' & -> & Hall & Hhead & Hcount).
        eexists. split; [reflexivity|]. split.
        { intros c'. cbn [foldl]. rewrite Hall. simpl. f_equal. lia. }
        split; [by rewrite !fmap_cons, Hhead|].
        cbn [foldl]. rewrite Hcount. unfold verifier2.count_row.
        destruct (String.eqb status verifier2.VALID) eqn:E1;
          [|destruct (String.eqb status verifier2.INVALID) eqn:E2];
          simpl; f_equal; lia.
      * destruct (IH (S i) (verifier2.count_row c
                              [a; verifier2.PENDING; now i; EmptyString]))
          as (rows' & -> & Hall & Hhead & Hcount).
        eexists. split; [reflexivity|]. split.
        { intros c'. cbn [foldl]. rewrite Hall. simpl. f_equal. lia. }
        split; [by rewrite !fmap_cons, Hhead|].
        cbn [foldl]. rewrite Hcount. simpl.
        destruct (String.eqb status verifier2.VALID),
          (String.eqb status verifier2.INVALID); simpl; f_equal; lia.
    + destruct (IH (S i) c) as (rows' & -> & Hall & Hhead & Hcount).
      eexists. split; [reflexivity|]. split; [exact Hall|]. split; [exact Hhead|].
      exact Hcount.
Qed.

